(** * ptgen: partition table generator (MBR and GPT)

    A shallow embedding of [src/ptgen.c] and the properties of its layout
    pass, its table builders, its image writer and the options of [main].

    Conventions of the embedding.
    - C integers are values of [Z] kept inside the range of their C type; every
      C operation that can leave the range is followed by the wrap-around of the
      type it is computed in ([u8], [u32], [u64] for the unsigned types, [s32],
      [s64] for [int] and [long]).  The data model is LP64 ([long] and
      [unsigned long long] are 64 bits wide, [int] is 32 bits wide); signed
      arithmetic wraps.
    - [/] and [%] on signed operands are C's truncating [Z.quot] and [Z.rem].
    - A byte is a [Z] in [0, 256); byte blocks are [list Z].  Multi-byte fields
      are stored little-endian: [cpu_to_le16/32/64] followed by a store is the
      little-endian byte sequence on either kind of host.
    - The arrays [pte], [gpte] and [parts] are lists updated in place with
      [<[i:=x]>]; the loop index is a [nat]. *)

From Stdlib Require Import Ascii.
From stdpp Require Import base numbers list strings.

Local Open Scope Z_scope.

(** ** Machine integers *)

Definition u8 (x : Z) : Z := x mod 2 ^ 8.
Definition u16 (x : Z) : Z := x mod 2 ^ 16.
Definition u32 (x : Z) : Z := x mod 2 ^ 32.
Definition u64 (x : Z) : Z := x mod 2 ^ 64.
Definition s32 (x : Z) : Z := (x + 2 ^ 31) mod 2 ^ 32 - 2 ^ 31.
Definition s64 (x : Z) : Z := (x + 2 ^ 63) mod 2 ^ 64 - 2 ^ 63.

(** [BIT(_x)] is [1UL << _x]. *)
Definition BIT (x : Z) : Z := u64 (Z.shiftl 1 x).

(** ** Constants of the source *)

Definition GPT_HEADER_SIZE : Z := 92.
Definition GPT_ENTRY_SIZE : Z := 128.
Definition GPT_ENTRY_MAX : Z := 128.
Definition GPT_ENTRY_NAME_SIZE : Z := 72.
Definition DISK_SECTOR_SIZE : Z := 512.
(** [GPT_SIZE] is the unparenthesised [GPT_ENTRY_SIZE * GPT_ENTRY_MAX /
    DISK_SECTOR_SIZE]; every use in the source is a summand or is multiplied on
    the left by [2], where the unparenthesised text has the same value. *)
Definition GPT_SIZE : Z := GPT_ENTRY_SIZE * GPT_ENTRY_MAX / DISK_SECTOR_SIZE.

Definition GPT_ATTR_PLAT_REQUIRED : Z := BIT 0.
Definition GPT_ATTR_EFI_IGNORE : Z := BIT 1.
Definition GPT_ATTR_LEGACY_BOOT : Z := BIT 2.

Definition GPT_SIGNATURE : Z := 0x5452415020494645.
Definition GPT_REVISION : Z := 0x00010000.
Definition GPT_HEADER_SECTOR : Z := 1.
Definition GPT_FIRST_ENTRY_SECTOR : Z := 2.

Definition MBR_ENTRY_MAX : Z := 4.
Definition MBR_DISK_SIGNATURE_OFFSET : Z := 440.
Definition MBR_PARTITION_ENTRY_OFFSET : Z := 446.
Definition MBR_BOOT_SIGNATURE_OFFSET : Z := 510.

(** ** GUIDs *)

(** [guid_t] is sixteen bytes. *)
Abbreviation guid_t := (list Z) (only parsing).

Definition GUID_INIT (a b c d0 d1 d2 d3 d4 d5 d6 d7 : Z) : guid_t :=
  [ Z.land a 0xff; Z.land (Z.shiftr a 8) 0xff;
    Z.land (Z.shiftr a 16) 0xff; Z.land (Z.shiftr a 24) 0xff;
    Z.land b 0xff; Z.land (Z.shiftr b 8) 0xff;
    Z.land c 0xff; Z.land (Z.shiftr c 8) 0xff;
    d0; d1; d2; d3; d4; d5; d6; d7 ].

Definition GUID_PARTITION_SYSTEM : guid_t :=
  GUID_INIT 0xC12A7328 0xF81F 0x11d2 0xBA 0x4B 0x00 0xA0 0xC9 0x3E 0xC9 0x3B.
Definition GUID_PARTITION_BASIC_DATA : guid_t :=
  GUID_INIT 0xEBD0A0A2 0xB9E5 0x4433 0x87 0xC0 0x68 0xB6 0xB7 0x26 0x99 0xC7.
Definition GUID_PARTITION_BIOS_BOOT : guid_t :=
  GUID_INIT 0x21686148 0x6449 0x6E6F 0x74 0x4E 0x65 0x65 0x64 0x45 0x46 0x49.
Definition GUID_PARTITION_CHROME_OS_KERNEL : guid_t :=
  GUID_INIT 0xFE3A2A5D 0x4F32 0x41A7 0xB7 0x25 0xAC 0xCC 0x32 0x85 0xA3 0x09.
Definition GUID_PARTITION_LINUX_FIT_GUID : guid_t :=
  GUID_INIT 0xcae9be83 0xb15f 0x49cc 0x86 0x3f 0x08 0x1b 0x74 0x4a 0x2d 0x93.
Definition GUID_PARTITION_LINUX_FS_GUID : guid_t :=
  GUID_INIT 0x0fc63daf 0x8483 0x4772 0x8e 0x79 0x3d 0x69 0xd8 0x47 0x7d 0xe4.
Definition GUID_PARTITION_SIFIVE_SPL : guid_t :=
  GUID_INIT 0x5b193300 0xfc78 0x40cd 0x80 0x02 0xe8 0x6c 0x45 0x58 0x0b 0x47.
Definition GUID_PARTITION_SIFIVE_UBOOT : guid_t :=
  GUID_INIT 0x2e54b353 0x1271 0x4842 0x80 0x6f 0xe4 0x36 0xd6 0xaf 0x69 0x85.

(** [g.b[sizeof(guid_t) - 1] += k] on a [uint8_t]. *)
Definition guid_add_last (g : guid_t) (k : Z) : guid_t :=
  <[15%nat := u8 (g !!! 15%nat + k)]> g.

(** ** Records of the source *)

(** [struct pte]: the two CHS triples are three bytes each. *)
Record pte := mk_pte {
  pte_active : Z;
  pte_chs_start : list Z;
  pte_type : Z;
  pte_chs_end : list Z;
  pte_start : Z;
  pte_length : Z
}.

(** [struct partinfo]; [name] is [None] for a null pointer, else the bytes of
    the string before its terminator. *)
Record partinfo := mk_partinfo {
  actual_start : Z;
  start : Z;
  size : Z;
  type : Z;
  hybrid : Z;
  name : option (list Z);
  required : Z;
  has_guid : bool;
  guid : guid_t;
  gattr : Z
}.

(** [struct gpth] *)
Record gpth := mk_gpth {
  h_signature : Z;
  h_revision : Z;
  h_size : Z;
  h_crc32 : Z;
  h_reserved : Z;
  h_self : Z;
  h_alternate : Z;
  h_first_usable : Z;
  h_last_usable : Z;
  h_disk_guid : guid_t;
  h_first_entry : Z;
  h_entry_num : Z;
  h_entry_size : Z;
  h_entry_crc32 : Z
}.

(** [struct gpte]; the [name] field of 72 bytes is kept as its 36 UTF-16 code
    units. *)
Record gpte := mk_gpte {
  e_type : guid_t;
  e_guid : guid_t;
  e_start : Z;
  e_end : Z;
  e_attr : Z;
  e_name : list Z
}.

(** The global variables that configure a run, as [main] leaves them when the
    options have been read. *)
Record config := mk_config {
  active : Z;
  heads : Z;
  sectors : Z;
  kb_align : Z;
  ignore_null_sized_partition : bool;
  use_guid_partition_table : bool;
  filename : option string;
  gpt_split_image : bool;
  gpt_alternate : bool;
  gpt_first_entry_sector : Z;
  gpt_last_usable_sector : Z
}.

(** The failures of a run.  The source reports each with a diagnostic on the
    error stream and a non-zero status:
    [InvalidPartition] is "Invalid size in partition", [OverlapError] is
    "Invalid start ... for partition", [OutOfSpace] is "Partition ... ends
    after last usable sector", [ConfigError] is the usage exit of [main]. *)
Inductive error :=
  | InvalidPartition
  | OverlapError
  | OutOfSpace
  | ConfigError.

(** The source only tells success from failure ([ret] is [0] or [-1]); the
    lines already printed on the standard output when a run fails are not kept
    by [Err]. *)

Inductive result (A : Type) :=
  | Ok (a : A)
  | Err (e : error).
Arguments Ok {A} a.
Arguments Err {A} e.

Definition bind {A B : Type} (r : result A) (k : A -> result B) : result B :=
  match r with
  | Ok a => k a
  | Err e => Err e
  end.

Notation "'let*' x ':=' r 'in' k" := (bind r (fun x => k))
  (at level 10, x name, r at level 100, k at level 200).

(** ** Geometry *)

(** [to_chs(long sect, unsigned char chs[3])]; [c], [h] and [s] are [int]. *)
Definition to_chs (cfg : config) (sect : Z) : list Z :=
  let s := s32 (Z.rem sect (sectors cfg) + 1) in
  let sect1 := Z.quot sect (sectors cfg) in
  let h := s32 (Z.rem sect1 (heads cfg)) in
  let sect2 := Z.quot sect1 (heads cfg) in
  let c := s32 sect2 in
  [ u8 h;
    u8 (Z.lor s (Z.land (Z.shiftr c 2) 0xC0));
    u8 (Z.land c 0xFF) ].

(** [round_to_cyl(long sect)], returning [unsigned long]. *)
Definition cyl_size (cfg : config) : Z := s32 (heads cfg * sectors cfg).

Definition round_to_cyl (cfg : config) (sect : Z) : Z :=
  u64 (sect + cyl_size cfg - Z.rem sect (cyl_size cfg)).

(** [round_to_kb(long sect)], returning [unsigned long]. *)
Definition round_to_kb (cfg : config) (sect : Z) : Z :=
  u64 ((Z.quot (s64 (sect - 1)) (kb_align cfg) + 1) * kb_align cfg).

(** ** The MBR pass: [gen_ptable] *)

(** What the loop of [gen_ptable] carries from one request to the next: the
    variable [sect], the array [pte] and the lines printed so far. *)
Record mbr_state := mk_mbr_state {
  m_sect : Z;
  m_pte : list pte;
  m_out : list Z
}.

Definition zero_pte : pte := mk_pte 0 [0; 0; 0] 0 [0; 0; 0] 0 0.

Definition mbr_init : mbr_state :=
  mk_mbr_state 0 (replicate 4 zero_pte) [].

(** The start the loop body settles on (lines 347 to 357), or the failure. *)
Definition mbr_start (cfg : config) (sect : Z) (p : partinfo) : result Z :=
  let start0 := u64 (sect + sectors cfg) in
  if negb (start p =? 0) then
    if u64 (start p * 2) <? start0 then Err OverlapError
    else Ok (u64 (start p * 2))
  else if negb (kb_align cfg =? 0) then Ok (round_to_kb cfg (s64 start0))
  else Ok start0.

(** The value of [sect] after the partition (lines 360 to 362). *)
Definition mbr_next (cfg : config) (start_ : Z) (p : partinfo) : Z :=
  let sect := u64 (start_ + u64 (size p * 2)) in
  if kb_align cfg =? 0 then round_to_cyl cfg (s64 sect) else sect.

(** One iteration of the loop of [gen_ptable], for request [i]. *)
Definition gen_ptable_body (cfg : config) (i : nat) (p : partinfo)
    (st : mbr_state) : result mbr_state :=
  if size p =? 0 then
    if ignore_null_sized_partition cfg then Ok st
    else Err InvalidPartition
  else
    let* start_ := mbr_start cfg (m_sect st) p in
    let sect := mbr_next cfg start_ p in
    let len := u64 (sect - start_) in
    let e := mk_pte (if Z.of_nat i + 1 =? active cfg then 0x80 else 0)
                    (to_chs cfg (s64 start_))
                    (u8 (type p))
                    (to_chs cfg (s64 (u64 (start_ + len - 1))))
                    (u32 start_)
                    (u32 len) in
    Ok (mk_mbr_state sect (<[i := e]> (m_pte st))
          (m_out st ++ [s64 (u64 (start_ * DISK_SECTOR_SIZE));
                        s64 (u64 (len * DISK_SECTOR_SIZE))])).

(** The loop [for (i = 0; i < nr; i++)] over [parts], from index [i]. *)
Fixpoint gen_ptable_loop (cfg : config) (i : nat) (parts : list partinfo)
    (st : mbr_state) : result mbr_state :=
  match parts with
  | [] => Ok st
  | p :: rest =>
      let* st' := gen_ptable_body cfg i p st in
      gen_ptable_loop cfg (S i) rest st'
  end.

(** ** The image writer

    The output of a run is the trace of its [open] and [write] calls, each
    [write] with the file and the offset it goes to.  A descriptor is a file
    name and a position.  [open] and [write] are taken to succeed, and
    [lseek] to a position that is not negative as well: a failure of the
    operating system is not part of the embedding. *)

Inductive event :=
  | EvOpen (nm : string)
  | EvWrite (nm : string) (off : Z) (data : list Z).

Record fdesc := mk_fdesc {
  fd_name : string;
  fd_pos : Z
}.

(** [open(nm, O_WRONLY|O_CREAT|O_TRUNC, 0644)] *)
Definition io_open (nm : string) (tr : list event) : fdesc * list event :=
  (mk_fdesc nm 0, tr ++ [EvOpen nm]).

(** [lseek(fd, off, SEEK_SET)], with [off] as the [off_t] it is converted
    to.  The source never looks at the result: an offset that is negative is
    refused, and the position stays where it was. *)
Definition io_lseek (off : Z) (fd : fdesc) : fdesc :=
  if off <? 0 then fd else mk_fdesc (fd_name fd) off.

Definition io_write (data : list Z) (fd : fdesc) (tr : list event)
    : fdesc * list event :=
  (mk_fdesc (fd_name fd) (fd_pos fd + Z.of_nat (length data)),
   tr ++ [EvWrite (fd_name fd) (fd_pos fd) data]).

(** The files a trace creates and the blocks it writes, in order. *)
Definition created (tr : list event) : list string :=
  omap (fun ev => match ev with EvOpen nm => Some nm | _ => None end) tr.

Definition written_blocks (tr : list event) : list (list Z) :=
  omap (fun ev => match ev with EvWrite _ _ d => Some d | _ => None end) tr.

(** ** Byte images of the records *)

(** The [n] bytes of [v], least significant first. *)
Fixpoint le_bytes (n : nat) (v : Z) : list Z :=
  match n with
  | O => []
  | S n' => v mod 256 :: le_bytes n' (v / 256)
  end.

(** The value of a little-endian field. *)
Fixpoint le_decode (l : list Z) : Z :=
  match l with
  | [] => 0
  | b :: l' => b + 256 * le_decode l'
  end.

Definition pte_bytes (e : pte) : list Z :=
  [pte_active e] ++ pte_chs_start e ++ [pte_type e] ++ pte_chs_end e
    ++ le_bytes 4 (pte_start e) ++ le_bytes 4 (pte_length e).

Definition gpth_bytes (h : gpth) : list Z :=
  le_bytes 8 (h_signature h) ++ le_bytes 4 (h_revision h)
    ++ le_bytes 4 (h_size h) ++ le_bytes 4 (h_crc32 h)
    ++ le_bytes 4 (h_reserved h) ++ le_bytes 8 (h_self h)
    ++ le_bytes 8 (h_alternate h) ++ le_bytes 8 (h_first_usable h)
    ++ le_bytes 8 (h_last_usable h) ++ h_disk_guid h
    ++ le_bytes 8 (h_first_entry h) ++ le_bytes 4 (h_entry_num h)
    ++ le_bytes 4 (h_entry_size h) ++ le_bytes 4 (h_entry_crc32 h).

Definition gpte_bytes (e : gpte) : list Z :=
  e_type e ++ e_guid e ++ le_bytes 8 (e_start e) ++ le_bytes 8 (e_end e)
    ++ le_bytes 8 (e_attr e) ++ concat (map (le_bytes 2) (e_name e)).

Definition pte_array_bytes (t : list pte) : list Z := concat (map pte_bytes t).
Definition gpte_array_bytes (t : list gpte) : list Z := concat (map gpte_bytes t).

(** ** CRC32 *)

(** One byte of the checksum: the byte is folded into the low bits and the
    register is shifted right eight times, the polynomial folded in whenever a
    set bit leaves it. *)
Fixpoint crc_shift (k : nat) (c : Z) : Z :=
  match k with
  | O => c
  | S k' =>
      crc_shift k' (if Z.testbit c 0 then Z.lxor (Z.shiftr c 1) 0xEDB88320
                    else Z.shiftr c 1)
  end.

(** Modelled from the spec: [cyg_crc32_accumulate] is declared in [cyg_crc.h],
    which is not among the sources; the spec has it as the standard reflected
    CRC32, whose seed and final inversion [gpt_crc32] supplies. *)
Definition cyg_crc32_accumulate (crc32val : Z) (s : list Z) : Z :=
  fold_left (fun c b => crc_shift 8 (Z.lxor c (u8 b))) s (u32 crc32val).

(** [gpt_crc32(buf, len)], returning [unsigned long]: [~0L] is [-1]. *)
Definition gpt_crc32 (buf : list Z) : Z :=
  u64 (Z.lxor (cyg_crc32_accumulate (-1) buf) (-1)).

(** ** Names: [init_utf16] *)

(** [str[n]]: the bytes of the string, its terminator, and zero beyond it. *)
Definition str_at (str : list Z) (n : nat) : Z := nth n str 0.

(** The branch [init_utf16] takes at input position [n]: [None] at the
    terminator, else the code unit stored and the next input position.  The
    tests and masks only look at the low eight bits of [str[n]], so the result
    is the same whether [char] is signed or not. *)
Definition utf16_step (str : list Z) (n : nat) : option (Z * nat) :=
  let c := str_at str n in
  if c =? 0 then None
  else if Z.land c 0x80 =? 0x00 then Some (u16 c, S n)
  else if Z.land c 0xE0 =? 0xC0 then
    Some (u16 (Z.lor (Z.shiftl (Z.land c 0x1F) 6)
                     (Z.land (str_at str (n + 1)) 0x3F)), (n + 2)%nat)
  else if Z.land c 0xF0 =? 0xE0 then
    Some (u16 (Z.lor (Z.lor (Z.shiftl (Z.land c 0x0F) 12)
                            (Z.shiftl (Z.land (str_at str (n + 1)) 0x3F) 6))
                     (Z.land (str_at str (n + 2)) 0x3F)), (n + 3)%nat)
  else Some (u16 0x3F, S n).

(** The loop [for (i = 0; i < bufsize; i++)], with [k = bufsize - i]
    iterations left. *)
Fixpoint init_utf16_loop (str : list Z) (k : nat) (i n : nat) (buf : list Z)
    : list Z :=
  match k with
  | O => buf
  | S k' =>
      match utf16_step str n with
      | None => <[i := 0]> buf
      | Some (u, n') => init_utf16_loop str k' (S i) n' (<[i := u]> buf)
      end
  end.

Definition init_utf16 (str : list Z) (buf : list Z) (bufsize : nat) : list Z :=
  init_utf16_loop str bufsize 0 0 buf.

(** ** [gen_ptable] *)

(** The function takes the requests [parts[0 .. nr-1]] as a list; [fname] is the
    global [filename], which [main] has checked not to be null.  [main] has
    also refused a fifth request, so that [i] stays inside [pte].  The result
    is the trace of the run with the lines printed, or the failure. *)
Definition gen_ptable (cfg : config) (fname : string) (signature : Z)
    (parts : list partinfo) : list event * result (list Z) :=
  match gen_ptable_loop cfg 0 parts mbr_init with
  | Err e => ([], Err e)
  | Ok st =>
      let '(fd, tr) := io_open fname [] in
      let fd := io_lseek MBR_DISK_SIGNATURE_OFFSET fd in
      let '(fd, tr) := io_write (le_bytes 4 signature) fd tr in
      let fd := io_lseek MBR_PARTITION_ENTRY_OFFSET fd in
      let '(fd, tr) := io_write (pte_array_bytes (m_pte st)) fd tr in
      let fd := io_lseek MBR_BOOT_SIGNATURE_OFFSET fd in
      let '(fd, tr) := io_write [0x55; 0xaa] fd tr in
      (tr, Ok (m_out st))
  end.

(** ** The GPT pass: [gen_gptable] *)

(** What the loop of [gen_gptable] carries: [sect], the arrays [pte] and [gpte],
    the counter [pmbr], the global array [parts] (its [actual_start] fields are
    written by the loop) and the lines printed so far. *)
Record gpt_state := mk_gpt_state {
  g_sect : Z;
  g_pte : list pte;
  g_gpte : list gpte;
  g_pmbr : nat;
  g_parts : list partinfo;
  g_out : list Z
}.

Definition zero_guid : guid_t := replicate 16 0.
Definition zero_gpte : gpte :=
  mk_gpte zero_guid zero_guid 0 0 0 (replicate 36 0).
Definition zero_partinfo : partinfo :=
  mk_partinfo 0 0 0 0 0 None 0 false zero_guid 0.

Definition set_actual_start (v : Z) (p : partinfo) : partinfo :=
  mk_partinfo v (start p) (size p) (type p) (hybrid p) (name p) (required p)
    (has_guid p) (guid p) (gattr p).

(** [pte[k].active], [.type], [.start] and [.length] assigned, the CHS fields
    kept. *)
Definition set_pte_lba (a t s l : Z) (e : pte) : pte :=
  mk_pte a (pte_chs_start e) t (pte_chs_end e) s l.

(** [to_chs(.., pte[k].chs_start); to_chs(.., pte[k].chs_end)]. *)
Definition set_pte_chs (cs ce : list Z) (e : pte) : pte :=
  mk_pte (pte_active e) cs (pte_type e) ce (pte_start e) (pte_length e).

Definition pte_at (t : list pte) (k : nat) : pte := default zero_pte (t !! k).
Definition gpte_at (t : list gpte) (k : nat) : gpte := default zero_gpte (t !! k).
Definition part_at (t : list partinfo) (k : nat) : partinfo :=
  default zero_partinfo (t !! k).

(** The first first-usable sector, [gpt_first_entry_sector + GPT_SIZE]. *)
Definition gpt_first_usable (cfg : config) : Z :=
  u64 (gpt_first_entry_sector cfg + GPT_SIZE).

Definition gpt_init (cfg : config) (parts : list partinfo) : gpt_state :=
  mk_gpt_state (u64 (GPT_SIZE + gpt_first_entry_sector cfg))
    (replicate 4 zero_pte) (replicate 128 zero_gpte) 1 parts [].

(** The start the loop body settles on (lines 437 to 447), or the failure. *)
Definition gpt_start (cfg : config) (sect : Z) (p : partinfo) : result Z :=
  if negb (start p =? 0) then
    if u64 (start p * 2) <? sect then Err OverlapError
    else Ok (u64 (start p * 2))
  else if negb (kb_align cfg =? 0) then Ok (round_to_kb cfg (s64 sect))
  else Ok sect.

(** The test of lines 448 and 449. *)
Definition gpt_out_of_space (cfg : config) (start_ : Z) (p : partinfo) : bool :=
  (0 <? gpt_last_usable_sector cfg)
  && (u64 (gpt_last_usable_sector cfg + 1) <? u64 (start_ + u64 (size p * 2))).

(** The hybrid block of lines 463 to 471. *)
Definition gpt_hybrid (cfg : config) (i : nat) (p : partinfo)
    (start_ sect : Z) (t : list pte) (pmbr : nat) : list pte * nat :=
  if negb (hybrid p =? 0) && (Z.of_nat pmbr <? MBR_ENTRY_MAX) then
    let t1 := <[pmbr := set_pte_lba
                  (if u32 (Z.of_nat i + 1) =? u32 (active cfg) then 0x80 else 0)
                  (u8 (type p)) (u32 start_) (u32 (u64 (sect - start_)))
                  (pte_at t pmbr)]> t in
    let t2 := <[1%nat := set_pte_chs (to_chs cfg (s64 start_))
                           (to_chs cfg (s64 (u64 (sect - 1))))
                           (pte_at t1 1)]> t1 in
    (t2, S pmbr)
  else (t, pmbr).

(** The entry [gpte[i]] as lines 455 to 481 leave it. *)
Definition gpt_entry (cfg : config) (guid_ : guid_t) (i : nat) (p : partinfo)
    (start_ sect : Z) (old : gpte) : gpte :=
  let nm := match name p with
            | Some str => init_utf16 str (e_name old) 36
            | None => e_name old
            end in
  let a0 := gattr p in
  let a1 := if u32 (Z.of_nat i + 1) =? u32 (active cfg)
            then Z.lor a0 GPT_ATTR_LEGACY_BOOT else a0 in
  let a2 := if negb (required p =? 0)
            then Z.lor a1 GPT_ATTR_PLAT_REQUIRED else a1 in
  mk_gpte (guid p) (guid_add_last guid_ (Z.of_nat i + 1))
    start_ (u64 (sect - 1)) a2 nm.

(** One iteration of the loop of [gen_gptable], for request [i]. *)
Definition gen_gptable_body (cfg : config) (guid_ : guid_t) (i : nat)
    (p : partinfo) (st : gpt_state) : result gpt_state :=
  if size p =? 0 then
    if ignore_null_sized_partition cfg then Ok st
    else Err InvalidPartition
  else
    let* start_ := gpt_start cfg (g_sect st) p in
    if gpt_out_of_space cfg start_ p then Err OutOfSpace
    else
      let sect := u64 (start_ + u64 (size p * 2)) in
      let '(t, pmbr) := gpt_hybrid cfg i p start_ sect (g_pte st) (g_pmbr st) in
      Ok (mk_gpt_state sect t
            (<[i := gpt_entry cfg guid_ i p start_ sect (gpte_at (g_gpte st) i)]>
               (g_gpte st))
            pmbr
            (<[i := set_actual_start start_ p]> (g_parts st))
            (g_out st ++ [u64 (start_ * DISK_SECTOR_SIZE);
                          u64 (u64 (sect - start_) * DISK_SECTOR_SIZE)])).

(** The loop over [parts[0 .. nr-1]], from index [i].  Iteration [i] reads
    [parts[i]], which no earlier iteration has written.  [main] has refused a
    129th request, so that [i] stays inside [gpte] and [parts]; an update
    outside a list would leave it as it is. *)
Fixpoint gen_gptable_loop (cfg : config) (guid_ : guid_t) (i : nat)
    (parts : list partinfo) (st : gpt_state) : result gpt_state :=
  match parts with
  | [] => Ok st
  | p :: rest =>
      let* st' := gen_gptable_body cfg guid_ i p st in
      gen_gptable_loop cfg guid_ (S i) rest st'
  end.

(** Lines 492 to 499: the entry written into the last slot. *)
Definition gpt_filler_cond (cfg : config) (parts : list partinfo) : bool :=
  negb (start (part_at parts 0) =? 0)
  && (gpt_first_usable cfg <? actual_start (part_at parts 0)).

Definition gpt_filler (cfg : config) (guid_ : guid_t) (parts : list partinfo)
    (t : list gpte) : list gpte :=
  if gpt_filler_cond cfg parts then
    let old := gpte_at t 127 in
    <[127%nat := mk_gpte GUID_PARTITION_BIOS_BOOT
                   (guid_add_last guid_ GPT_ENTRY_MAX)
                   (gpt_first_usable cfg)
                   (u64 (actual_start (part_at parts 0) - 1))
                   (e_attr old) (e_name old)]> t
  else t.

(** The header as the initialiser of [gen_gptable] leaves it: the fields it
    does not name are zero. *)
Definition gpth_init (cfg : config) (guid_ : guid_t) : gpth :=
  mk_gpth GPT_SIGNATURE GPT_REVISION GPT_HEADER_SIZE 0 0 GPT_HEADER_SECTOR 0
    (u64 (gpt_first_entry_sector cfg + GPT_SIZE)) 0 guid_
    (gpt_first_entry_sector cfg) GPT_ENTRY_MAX GPT_ENTRY_SIZE 0.

Definition set_last_alt (last alt : Z) (h : gpth) : gpth :=
  mk_gpth (h_signature h) (h_revision h) (h_size h) (h_crc32 h) (h_reserved h)
    (h_self h) alt (h_first_usable h) last (h_disk_guid h) (h_first_entry h)
    (h_entry_num h) (h_entry_size h) (h_entry_crc32 h).

Definition set_entry_crc32 (c : Z) (h : gpth) : gpth :=
  mk_gpth (h_signature h) (h_revision h) (h_size h) (h_crc32 h) (h_reserved h)
    (h_self h) (h_alternate h) (h_first_usable h) (h_last_usable h)
    (h_disk_guid h) (h_first_entry h) (h_entry_num h) (h_entry_size h) c.

Definition set_crc32 (c : Z) (h : gpth) : gpth :=
  mk_gpth (h_signature h) (h_revision h) (h_size h) c (h_reserved h)
    (h_self h) (h_alternate h) (h_first_usable h) (h_last_usable h)
    (h_disk_guid h) (h_first_entry h) (h_entry_num h) (h_entry_size h)
    (h_entry_crc32 h).

(** [swap(gpth.self, gpth.alternate)] followed by the assignment of
    [gpth.first_entry]. *)
Definition swap_self_alt (first_entry : Z) (h : gpth) : gpth :=
  mk_gpth (h_signature h) (h_revision h) (h_size h) (h_crc32 h) (h_reserved h)
    (h_alternate h) (h_self h) (h_first_usable h) (h_last_usable h)
    (h_disk_guid h) first_entry (h_entry_num h) (h_entry_size h)
    (h_entry_crc32 h).

(** The tables [gen_gptable] has built when it opens its first file. *)
Record gpt_tables := mk_gpt_tables {
  t_pte : list pte;
  t_gpte : list gpte;
  t_gpth : gpth;
  t_end : Z;
  t_last_usable : Z;
  t_parts : list partinfo;
  t_out : list Z
}.

(** Lines 410 to 515 of [gen_gptable]. *)
Definition gpt_build (cfg : config) (guid_ : guid_t) (parts : list partinfo)
    : result gpt_tables :=
  let* st := gen_gptable_loop cfg guid_ 0 parts (gpt_init cfg parts) in
  let gpte_ := gpt_filler cfg guid_ (g_parts st) (g_gpte st) in
  let last := if gpt_last_usable_sector cfg =? 0 then u64 (g_sect st - 1)
              else gpt_last_usable_sector cfg in
  let end_ := u64 (last + GPT_SIZE + 1) in
  let p0 := pte_at (g_pte st) 0 in
  let pte_ := <[0%nat := mk_pte (pte_active p0)
                           (to_chs cfg GPT_HEADER_SECTOR)
                           0xEE
                           (to_chs cfg (s64 end_))
                           (u32 GPT_HEADER_SECTOR)
                           (u32 (u64 (end_ + 1 - GPT_HEADER_SECTOR)))]>
                (g_pte st) in
  let h1 := set_last_alt last end_ (gpth_init cfg guid_) in
  let h2 := set_entry_crc32 (u32 (gpt_crc32 (gpte_array_bytes gpte_))) h1 in
  let h3 := set_crc32 (u32 (gpt_crc32 (gpth_bytes h2))) h2 in
  Ok (mk_gpt_tables pte_ gpte_ h3 end_ last (g_parts st) (g_out st)).

(** The header of the alternate table, lines 579 to 582. *)
Definition gpth_alternate (end_ : Z) (h : gpth) : gpth :=
  let h1 := swap_self_alt
              (u64 (end_ - GPT_ENTRY_SIZE * GPT_ENTRY_MAX / DISK_SECTOR_SIZE)) h in
  let h2 := set_crc32 0 h1 in
  set_crc32 (u32 (gpt_crc32 (gpth_bytes h2))) h2.

(** Lines 521 to 614 of [gen_gptable]: the files and the blocks. *)
Definition gpt_emit (cfg : config) (fname : string) (signature : Z)
    (tb : gpt_tables) : list event :=
  let img_name := if negb (gpt_split_image cfg) then fname
                  else (fname ++ ".start")%string in
  let '(fd, tr) := io_open img_name [] in
  let fd := io_lseek MBR_DISK_SIGNATURE_OFFSET fd in
  let '(fd, tr) := io_write (le_bytes 4 signature) fd tr in
  let fd := io_lseek MBR_PARTITION_ENTRY_OFFSET fd in
  let '(fd, tr) := io_write (pte_array_bytes (t_pte tb)) fd tr in
  let fd := io_lseek MBR_BOOT_SIGNATURE_OFFSET fd in
  let '(fd, tr) := io_write [0x55; 0xaa] fd tr in
  let '(fd, tr) := io_write (gpth_bytes (t_gpth tb)) fd tr in
  let fd := io_lseek (2 * DISK_SECTOR_SIZE - 1) fd in
  let '(fd, tr) := io_write [0x00] fd tr in
  let '(fd, tr) :=
    if negb (gpt_split_image cfg)
       || (gpt_first_entry_sector cfg =? GPT_FIRST_ENTRY_SECTOR)
    then (io_lseek (s64 (u64 (gpt_first_entry_sector cfg * DISK_SECTOR_SIZE))) fd, tr)
    else io_open (fname ++ ".entry")%string tr in
  let '(fd, tr) := io_write (gpte_array_bytes (t_gpte tb)) fd tr in
  if gpt_alternate cfg then
    let h := gpth_alternate (t_end tb) (t_gpth tb) in
    let '(end_, (fd, tr)) :=
      if negb (gpt_split_image cfg)
      then (t_end tb,
            (io_lseek (s64 (u64 (t_end tb * DISK_SECTOR_SIZE
                                 - GPT_ENTRY_SIZE * GPT_ENTRY_MAX))) fd, tr))
      else (GPT_SIZE, io_open (fname ++ ".end")%string tr) in
    let '(fd, tr) := io_write (gpte_array_bytes (t_gpte tb)) fd tr in
    let fd := io_lseek (s64 (u64 (end_ * DISK_SECTOR_SIZE))) fd in
    let '(fd, tr) := io_write (gpth_bytes h) fd tr in
    let fd := io_lseek (s64 (u64 (u64 (end_ + 1) * DISK_SECTOR_SIZE - 1))) fd in
    let '(fd, tr) := io_write [0x00] fd tr in
    tr
  else tr.

Definition gen_gptable (cfg : config) (fname : string) (signature : Z)
    (guid_ : guid_t) (parts : list partinfo) : list event * result (list Z) :=
  match gpt_build cfg guid_ parts with
  | Err e => ([], Err e)
  | Ok tb => (gpt_emit cfg fname signature tb, Ok (t_out tb))
  end.

(** ** [main], after the options have been read *)

Definition set_active (a : Z) (cfg : config) : config :=
  mk_config a (heads cfg) (sectors cfg) (kb_align cfg)
    (ignore_null_sized_partition cfg) (use_guid_partition_table cfg)
    (filename cfg) (gpt_split_image cfg) (gpt_alternate cfg)
    (gpt_first_entry_sector cfg) (gpt_last_usable_sector cfg).

Definition set_geometry (h s : Z) (cfg : config) : config :=
  mk_config (active cfg) h s (kb_align cfg)
    (ignore_null_sized_partition cfg) (use_guid_partition_table cfg)
    (filename cfg) (gpt_split_image cfg) (gpt_alternate cfg)
    (gpt_first_entry_sector cfg) (gpt_last_usable_sector cfg).

(** Lines 786 to 789. *)
Definition check_active (cfg : config) : config :=
  if (use_guid_partition_table cfg && (GPT_ENTRY_MAX <? active cfg))
     || (negb (use_guid_partition_table cfg) && (MBR_ENTRY_MAX <? active cfg))
     || (active cfg <? 0)
  then set_active 0 cfg else cfg.

(** Lines 782 to 797; [rest] is [argc] after the options. *)
Definition ptgen_main (rest : Z) (cfg : config) (signature : Z)
    (guid_ : guid_t) (parts : list partinfo) : list event * result (list Z) :=
  match filename cfg with
  | None => ([], Err ConfigError)
  | Some fname =>
      if negb (rest =? 0)
         || (negb (use_guid_partition_table cfg)
             && ((heads cfg <=? 0) || (sectors cfg <=? 0)))
      then ([], Err ConfigError)
      else
        let cfg1 := check_active cfg in
        if use_guid_partition_table cfg1 then
          gen_gptable (set_geometry 254 63 cfg1) fname signature guid_ parts
        else gen_ptable cfg1 fname signature parts
  end.

(** * The options of [main]

    The functions of the C library that read numbers are taken as they are
    called: [strtoul str base] is the value [strtoul(str, NULL, base)]
    returns; [strtoull str] is the value of [strtoull(str, &end, 0)] together
    with the part of [str] that [end] points to; [strtol str base] is the value
    of [strtol(str, 0, base)].  [getopt] is taken through the options it
    returns, one letter and one argument at a time.  A string is the list of
    its bytes up to its terminator. *)

(** The bytes of a string literal. *)
Definition bytes (s : string) : list Z :=
  map (fun c => Z.of_N (Ascii.N_of_ascii c)) (String.list_ascii_of_string s).

(** The string of a list of bytes, for the name of a file. *)
Definition string_of_bytes (l : list Z) : string :=
  String.string_of_list_ascii (map (fun c => Ascii.ascii_of_N (Z.to_N c)) l).

(** [tolower] on the letters of the C locale. *)
Definition tolower (c : Z) : Z :=
  if (65 <=? c) && (c <=? 90) then c + 32 else c.

(** [strlen]: the bytes before the first zero byte. *)
Fixpoint c_strlen (str : list Z) : nat :=
  match str with
  | [] => O
  | c :: rest => if c =? 0 then O else S (c_strlen rest)
  end.

(** [strchr(str, c)]: the part of the string before the first [c] and, when
    there is one, the part after it; the caller writes a terminator over the
    [c] it finds. *)
Fixpoint c_split_at (c : Z) (str : list Z) : list Z * option (list Z) :=
  match str with
  | [] => ([], None)
  | x :: rest =>
      if x =? c then ([], Some rest)
      else let '(before, after) := c_split_at c rest in (x :: before, after)
  end.

(** Why [main] leaves before a table is generated, with the message it prints:
    "Too many partitions", "GPT First Entry offset must not be smaller than",
    "GPT disk size must be larger than", "Invalid GPT partition type",
    "Invalid guid string", and the usage text. *)
Inductive exit_cause :=
  | ExitTooManyPartitions
  | ExitEntryOffset
  | ExitDiskSize
  | ExitPartType
  | ExitGuid
  | ExitUsage.

(** The local variables of [main] and the global ones, while the options are
    read. *)
Record main_state := mk_main_state {
  ms_cfg : config;
  ms_verbose : Z;
  ms_parts : list partinfo;
  ms_part : nat;
  ms_type : Z;
  ms_name : option (list Z);
  ms_hybrid : Z;
  ms_required : Z;
  ms_signature : Z;
  ms_guid : list Z
}.

Inductive main_step :=
  | Continue (ms : main_state)
  | Exit (c : exit_cause).

(** The state before the first option: the initialisers of the global and of
    the local variables. *)
Definition main_init : main_state :=
  mk_main_state
    (mk_config 1 (-1) (-1) 0 false false None false false
       GPT_FIRST_ENTRY_SECTOR 0)
    0 (replicate 128 zero_partinfo) 0 0x83 None 0 0 0x5452574F
    (GUID_INIT 0x5452574F 0x2211 0x4433 0x55 0x66 0x77 0x88 0x99 0xAA 0xBB 0x00).

Definition with_cfg (f : config -> config) (ms : main_state) : main_state :=
  mk_main_state (f (ms_cfg ms)) (ms_verbose ms) (ms_parts ms) (ms_part ms)
    (ms_type ms) (ms_name ms) (ms_hybrid ms) (ms_required ms)
    (ms_signature ms) (ms_guid ms).

Definition set_heads (v : Z) (c : config) : config :=
  mk_config (active c) v (sectors c) (kb_align c)
    (ignore_null_sized_partition c) (use_guid_partition_table c) (filename c)
    (gpt_split_image c) (gpt_alternate c) (gpt_first_entry_sector c)
    (gpt_last_usable_sector c).

Definition set_sectors (v : Z) (c : config) : config :=
  mk_config (active c) (heads c) v (kb_align c)
    (ignore_null_sized_partition c) (use_guid_partition_table c) (filename c)
    (gpt_split_image c) (gpt_alternate c) (gpt_first_entry_sector c)
    (gpt_last_usable_sector c).

Definition set_kb_align (v : Z) (c : config) : config :=
  mk_config (active c) (heads c) (sectors c) v
    (ignore_null_sized_partition c) (use_guid_partition_table c) (filename c)
    (gpt_split_image c) (gpt_alternate c) (gpt_first_entry_sector c)
    (gpt_last_usable_sector c).

Definition set_ignore_null (v : bool) (c : config) : config :=
  mk_config (active c) (heads c) (sectors c) (kb_align c) v
    (use_guid_partition_table c) (filename c)
    (gpt_split_image c) (gpt_alternate c) (gpt_first_entry_sector c)
    (gpt_last_usable_sector c).

Definition set_use_gpt (v : bool) (c : config) : config :=
  mk_config (active c) (heads c) (sectors c) (kb_align c)
    (ignore_null_sized_partition c) v (filename c)
    (gpt_split_image c) (gpt_alternate c) (gpt_first_entry_sector c)
    (gpt_last_usable_sector c).

Definition set_filename (v : option string) (c : config) : config :=
  mk_config (active c) (heads c) (sectors c) (kb_align c)
    (ignore_null_sized_partition c) (use_guid_partition_table c) v
    (gpt_split_image c) (gpt_alternate c) (gpt_first_entry_sector c)
    (gpt_last_usable_sector c).

Definition set_split_image (v : bool) (c : config) : config :=
  mk_config (active c) (heads c) (sectors c) (kb_align c)
    (ignore_null_sized_partition c) (use_guid_partition_table c) (filename c)
    v (gpt_alternate c) (gpt_first_entry_sector c)
    (gpt_last_usable_sector c).

Definition set_alternate (v : bool) (c : config) : config :=
  mk_config (active c) (heads c) (sectors c) (kb_align c)
    (ignore_null_sized_partition c) (use_guid_partition_table c) (filename c)
    (gpt_split_image c) v (gpt_first_entry_sector c)
    (gpt_last_usable_sector c).

Definition set_first_entry (v : Z) (c : config) : config :=
  mk_config (active c) (heads c) (sectors c) (kb_align c)
    (ignore_null_sized_partition c) (use_guid_partition_table c) (filename c)
    (gpt_split_image c) (gpt_alternate c) v
    (gpt_last_usable_sector c).

Definition set_last_usable (v : Z) (c : config) : config :=
  mk_config (active c) (heads c) (sectors c) (kb_align c)
    (ignore_null_sized_partition c) (use_guid_partition_table c) (filename c)
    (gpt_split_image c) (gpt_alternate c) (gpt_first_entry_sector c) v.

(** [parse_gpt_parttype]: the record as the function leaves it, or [None] when
    it returns false and leaves the record as it was. *)
Definition parse_gpt_parttype (type_ : list Z) (part : partinfo)
    : option partinfo :=
  if decide (type_ = bytes "cros_kernel") then
    Some (mk_partinfo (actual_start part) (start part) (size part) (type part)
            (hybrid part) (name part) (required part) true
            GUID_PARTITION_CHROME_OS_KERNEL
            (Z.lor (Z.shiftl 1 48) (Z.shiftl 1 56)))
  else if decide (type_ = bytes "sifiveu_spl") then
    Some (mk_partinfo (actual_start part) (start part) (size part) (type part)
            (hybrid part) (name part) (required part) true
            GUID_PARTITION_SIFIVE_SPL (gattr part))
  else if decide (type_ = bytes "sifiveu_uboot") then
    Some (mk_partinfo (actual_start part) (start part) (size part) (type part)
            (hybrid part) (name part) (required part) true
            GUID_PARTITION_SIFIVE_UBOOT (gattr part))
  else None.

(** [type_to_guid_and_name(type, &name)]: the identifier returned and the
    value of [name] afterwards. *)
Definition type_to_guid_and_name (type_ : Z) (name_ : option (list Z))
    : list Z * option (list Z) :=
  if type_ =? 0xef then
    (GUID_PARTITION_SYSTEM,
     match name_ with
     | None => Some (bytes "EFI System Partition")
     | Some n => Some n
     end)
  else if type_ =? 0x83 then (GUID_PARTITION_LINUX_FS_GUID, name_)
  else if type_ =? 0x2e then (GUID_PARTITION_LINUX_FIT_GUID, name_)
  else (GUID_PARTITION_BASIC_DATA, name_).

Section Libc.
Variable strtoul : list Z -> Z -> Z.
Variable strtoull : list Z -> Z * list Z.
Variable strtol : list Z -> Z -> Z.

(** [to_kbytes]; [result] is a [long long]. *)
Definition to_kbytes (string : list Z) : Z :=
  let '(v, end_) := strtoull string in
  let result := s64 v in
  let c := tolower (hd 0 end_) in
  let exp := if (c =? 107) || (c =? 0) then Some 0
             else if c =? 109 then Some 1
             else if c =? 103 then Some 2
             else None in
  match exp with
  | None => 0
  | Some e =>
      let end1 := if hd 0 end_ =? 0 then end_ else tl end_ in
      if negb (hd 0 end1 =? 0) then 0
      else s64 (result * Z.shiftl 1 (10 * e))
  end.

(** The loop of [guid_parse] with [k] bytes left to read, [p] being the
    position in [buf] and [acc] the bytes read so far. *)
Fixpoint guid_parse_loop (buf : list Z) (k : nat) (p : nat) (acc : list Z)
    : option (list Z) :=
  match k with
  | O => Some acc
  | S k' =>
      let p1 := if str_at buf p =? 45 then S p else p in
      if str_at buf p1 =? 0 then None
      else
        let b := [str_at buf p1; str_at buf (S p1)] in
        guid_parse_loop buf k' (p1 + 2) (acc ++ [u8 (strtol b 16)])
  end.

(** The four [swap]s at the end of [guid_parse]. *)
Definition guid_swap (g : list Z) : list Z :=
  match g with
  | b0 :: b1 :: b2 :: b3 :: b4 :: b5 :: b6 :: b7 :: rest =>
      b3 :: b2 :: b1 :: b0 :: b5 :: b4 :: b7 :: b6 :: rest
  | _ => g
  end.

(** [guid_parse]: [None] when it returns [-1], else the identifier. *)
Definition guid_parse (buf : list Z) : option (list Z) :=
  if negb (Nat.min (c_strlen buf) 36 =? 36)%nat then None
  else
    match guid_parse_loop buf 16 0 [] with
    | None => None
    | Some g => Some (guid_swap g)
    end.

(** The case of the option [-p]. *)
Definition main_option_p (optarg : list Z) (ms : main_state) : main_step :=
  let gpt := use_guid_partition_table (ms_cfg ms) in
  if (GPT_ENTRY_MAX - 1 <? Z.of_nat (ms_part ms))
     || (negb gpt && (3 <? Z.of_nat (ms_part ms)))
  then Exit ExitTooManyPartitions
  else
    let '(size_str, start_str) := c_split_at 64 optarg in
    let slot := part_at (ms_parts ms) (ms_part ms) in
    let start_ := match start_str with
                  | Some s => u64 (to_kbytes s)
                  | None => start slot
                  end in
    let '(guid_, name_) :=
      if has_guid slot then (guid slot, ms_name ms)
      else type_to_guid_and_name (ms_type ms) (ms_name ms) in
    let p := mk_partinfo (actual_start slot) start_ (u64 (to_kbytes size_str))
               (ms_type ms) (ms_hybrid ms) name_ (ms_required ms)
               (has_guid slot) guid_ (gattr slot) in
    Continue
      (mk_main_state (ms_cfg ms) (ms_verbose ms)
         (<[ms_part ms := p]> (ms_parts ms)) (S (ms_part ms))
         (ms_type ms) None 0 0 (ms_signature ms) (ms_guid ms)).

(** The body of the loop over the options: one option [ch] with its
    argument.  [-T] before a 129th [-p] marks [parts[128]], which the array
    does not have; the array is left as it is here. *)
Definition main_option (ch : ascii) (optarg : list Z) (ms : main_state)
    : main_step :=
  match ch with
  | "o"%char =>
      Continue (with_cfg (set_filename (Some (string_of_bytes optarg))) ms)
  | "v"%char =>
      Continue (mk_main_state (ms_cfg ms) (s32 (ms_verbose ms + 1)) (ms_parts ms)
                  (ms_part ms) (ms_type ms) (ms_name ms) (ms_hybrid ms)
                  (ms_required ms) (ms_signature ms) (ms_guid ms))
  | "n"%char => Continue (with_cfg (set_ignore_null true) ms)
  | "g"%char => Continue (with_cfg (set_use_gpt true) ms)
  | "H"%char =>
      Continue (mk_main_state (ms_cfg ms) (ms_verbose ms) (ms_parts ms)
                  (ms_part ms) (ms_type ms) (ms_name ms) 1
                  (ms_required ms) (ms_signature ms) (ms_guid ms))
  | "e"%char =>
      let fe := u64 (s64 (2 * to_kbytes optarg)) in
      if fe <? GPT_FIRST_ENTRY_SECTOR then Exit ExitEntryOffset
      else Continue (with_cfg (set_first_entry fe) ms)
  | "d"%char =>
      let ms1 := with_cfg (set_alternate true) ms in
      let total_sectors := u64 (s64 (2 * to_kbytes optarg)) in
      if negb (total_sectors =? 0) then
        if total_sectors <=? 2 * GPT_SIZE + 3 then Exit ExitDiskSize
        else Continue (with_cfg (set_last_usable
                                   (u64 (total_sectors - GPT_SIZE - 2))) ms1)
      else Continue ms1
  | "b"%char =>
      Continue (with_cfg (set_split_image true)
                  (with_cfg (set_alternate true) ms))
  | "h"%char => Continue (with_cfg (set_heads (s32 (strtoul optarg 0))) ms)
  | "s"%char => Continue (with_cfg (set_sectors (s32 (strtoul optarg 0))) ms)
  | "p"%char => main_option_p optarg ms
  | "N"%char =>
      Continue (mk_main_state (ms_cfg ms) (ms_verbose ms) (ms_parts ms)
                  (ms_part ms) (ms_type ms) (Some optarg) (ms_hybrid ms)
                  (ms_required ms) (ms_signature ms) (ms_guid ms))
  | "r"%char =>
      Continue (mk_main_state (ms_cfg ms) (ms_verbose ms) (ms_parts ms)
                  (ms_part ms) (ms_type ms) (ms_name ms) (ms_hybrid ms)
                  1 (ms_signature ms) (ms_guid ms))
  | "t"%char =>
      Continue (mk_main_state (ms_cfg ms) (ms_verbose ms) (ms_parts ms)
                  (ms_part ms) (u8 (strtoul optarg 16)) (ms_name ms)
                  (ms_hybrid ms) (ms_required ms) (ms_signature ms)
                  (ms_guid ms))
  | "a"%char => Continue (with_cfg (set_active (s32 (strtoul optarg 0))) ms)
  | "l"%char =>
      Continue (with_cfg (set_kb_align (s32 (s32 (strtoul optarg 0) * 2))) ms)
  | "S"%char =>
      Continue (mk_main_state (ms_cfg ms) (ms_verbose ms) (ms_parts ms)
                  (ms_part ms) (ms_type ms) (ms_name ms) (ms_hybrid ms)
                  (ms_required ms) (u32 (strtoul optarg 0)) (ms_guid ms))
  | "T"%char =>
      match parse_gpt_parttype optarg (part_at (ms_parts ms) (ms_part ms)) with
      | None => Exit ExitPartType
      | Some p =>
          Continue (mk_main_state (ms_cfg ms) (ms_verbose ms)
                      (<[ms_part ms := p]> (ms_parts ms)) (ms_part ms)
                      (ms_type ms) (ms_name ms) (ms_hybrid ms)
                      (ms_required ms) (ms_signature ms) (ms_guid ms))
      end
  | "G"%char =>
      match guid_parse optarg with
      | None => Exit ExitGuid
      | Some g =>
          Continue (mk_main_state (ms_cfg ms) (ms_verbose ms) (ms_parts ms)
                      (ms_part ms) (ms_type ms) (ms_name ms) (ms_hybrid ms)
                      (ms_required ms) (ms_signature ms) g)
      end
  | _ => Exit ExitUsage
  end.

(** The loop [while ((ch = getopt(...)) != -1)] over the options [getopt]
    returns. *)
Fixpoint main_options (opts : list (ascii * list Z)) (ms : main_state)
    : main_step :=
  match opts with
  | [] => Continue ms
  | (ch, optarg) :: rest =>
      match main_option ch optarg ms with
      | Continue ms' => main_options rest ms'
      | Exit c => Exit c
      end
  end.

(** [main]: the options, then lines 782 to 797 on the first [part] entries of
    [parts].  The result is the cause of an early exit, or the trace and the
    result of the generation. *)
Definition ptgen (opts : list (ascii * list Z)) (rest : Z)
    : exit_cause + (list event * result (list Z)) :=
  match main_options opts main_init with
  | Exit c => inl c
  | Continue ms =>
      inr (ptgen_main rest (ms_cfg ms) (ms_signature ms) (ms_guid ms)
             (take (ms_part ms) (ms_parts ms)))
  end.
End Libc.

(** * Notions used in the statements *)

(** The cursor of the MBR pass is the lowest sector the next partition may
    start at: line 347 adds one track to [sect] for every request.  The cursor
    of the GPT pass is [sect] itself. *)
Definition mbr_cursor (cfg : config) (sect : Z) : Z := u64 (sect + sectors cfg).

(** The end of a partition as requested: its start plus twice its size in
    KBytes, in the arithmetic of [unsigned long long]. *)
Definition requested_end (start_ : Z) (p : partinfo) : Z :=
  u64 (start_ + u64 (size p * 2)).



(** The layout a pass computes: the final value of [sect] and the offsets and
    lengths it prints, request after request. *)
Definition mbr_layout (cfg : config) (parts : list partinfo)
    : result (Z * list Z) :=
  let* st := gen_ptable_loop cfg 0 parts mbr_init in
  Ok (m_sect st, m_out st).

Definition gpt_layout (cfg : config) (guid_ : guid_t) (parts : list partinfo)
    : result (Z * list Z) :=
  let* st := gen_gptable_loop cfg guid_ 0 parts (gpt_init cfg parts) in
  Ok (g_sect st, g_out st).

(** Concrete runs.  An MBR run with 16 heads and 63 sectors per track, no
    alignment; a GPT run with the geometry [main] fixes for GPT. *)
Definition mbr_16_63 : config :=
  mk_config 1 16 63 0 false false (Some "img"%string) false false 2 0.

Definition gpt_plain : config :=
  mk_config 1 254 63 0 false true (Some "img"%string) false false 2 0.

Definition gpt_backup : config :=
  mk_config 1 254 63 0 false true (Some "img"%string) false true 2 0.

(** A request of [kb] KBytes at [st] KBytes ([0]: no explicit start), hybrid
    when [hy] is not zero. *)
Definition linux_part (kb st hy : Z) : partinfo :=
  mk_partinfo 0 st kb 0x83 hy None 0 false GUID_PARTITION_LINUX_FS_GUID 0.

(** The disk identifier [main] starts from. *)
Definition default_guid : guid_t :=
  GUID_INIT 0x5452574F 0x2211 0x4433 0x55 0x66 0x77 0x88 0x99 0xAA 0xBB 0x00.

(** Two results that fail alike or succeed with related values. *)
Definition same_result {A B : Type} (R : A -> B -> Prop)
    (r1 : result A) (r2 : result B) : Prop :=
  match r1, r2 with
  | Ok a, Ok b => R a b
  | Err e1, Err e2 => e1 = e2
  | _, _ => False
  end.

(** States that agree on the layout: on [sect] and on the lines printed. *)
Definition mbr_sim (st1 st2 : mbr_state) : Prop :=
  m_sect st1 = m_sect st2 /\ m_out st1 = m_out st2.

Definition gpt_sim (st1 st2 : gpt_state) : Prop :=
  g_sect st1 = g_sect st2 /\ g_out st1 = g_out st2.




Definition is_ascii (c : Z) : Prop := 0 < c < 0x80.

(** [P] holds of the [n] integers from [lo] on. *)
Fixpoint holds_from (P : Z -> bool) (n : nat) (lo : Z) : bool :=
  match n with
  | O => true
  | S n' => P lo && holds_from P n' (lo + 1)
  end.

(** The checks that are settled by running the encoder on every byte and on
    every code point. *)
Definition ascii_step_ok (c : Z) : bool :=
  implb ((0 <? c) && (c <? 0x80))
        (negb (c =? 0) && (Z.land c 0x80 =? 0) && (u16 c =? c)).



(** The CRC32 of a block, as a reader of the table recomputes it.  This is
    the reference, not the function of the code: CRC-32 as the standards give
    it (ISO 3309, IEEE 802.3, ITU-T V.42) by its parameters, width 32,
    polynomial [0x04C11DB7], register set to all ones, input bytes and output
    reflected, output inverted; its check value on the digits 1 to 9 is
    [0xCBF43926]. *)

(** The low [n] bits of [v] in reverse order. *)
Fixpoint reflect (n : nat) (v : Z) : Z :=
  match n with
  | O => 0
  | S n' => Z.lor (Z.shiftl (Z.land v 1) (Z.of_nat n'))
                  (reflect n' (Z.shiftr v 1))
  end.

(** One bit of the division by the polynomial, most significant bit first. *)
Definition crc32_bit (r : Z) : Z :=
  let r' := Z.land (Z.shiftl r 1) 0xFFFFFFFF in
  if Z.testbit r 31 then Z.lxor r' 0x04C11DB7 else r'.

(** One byte: its bits reversed, added to the top of the register. *)
Definition crc32_byte (r b : Z) : Z :=
  Nat.iter 8 crc32_bit (Z.lxor r (Z.shiftl (reflect 8 b) 24)).

Definition crc32 (msg : list Z) : Z :=
  Z.lxor (reflect 32 (fold_left crc32_byte msg 0xFFFFFFFF)) 0xFFFFFFFF.

(** A register of 32 bits. *)
Definition reg32 (c : Z) : Prop := 0 <= c < 2 ^ 32.


(** The two checksum fields of a header block, at bytes 16 to 19 and 88 to 91,
    and the block with the first of them zeroed. *)
Definition header_crc_field (hdr : list Z) : Z :=
  le_decode (take 4 (drop 16 hdr)).

Definition header_entry_crc_field (hdr : list Z) : Z :=
  le_decode (take 4 (drop 88 hdr)).

Definition zero_crc_field (hdr : list Z) : list Z :=
  take 16 hdr ++ [0; 0; 0; 0] ++ drop 20 hdr.

(** A header block and an entry array whose recomputed checksums are the
    stored ones. *)
Definition crc_consistent (hdr ents : list Z) : Prop :=
  length hdr = 92%nat
  /\ crc32 (zero_crc_field hdr) = header_crc_field hdr
  /\ crc32 ents = header_entry_crc_field hdr.

(** An entry whose fields have the widths of [struct gpte]. *)
Definition gpte_wf (e : gpte) : Prop :=
  length (e_type e) = 16%nat /\ length (e_guid e) = 16%nat
  /\ length (e_name e) = 36%nat.

(** An MBR run asked for an active partition 7. *)
Definition mbr_active_7 : config :=
  mk_config 7 16 63 0 false false (Some "img"%string) false false 2 0.

(** The disk signature [main] starts from, 'OWRT'. *)
Definition default_signature : Z := 0x5452574F.

(** The sector a CHS triple stands for, after the standard packing: the head
    in the first byte, the sector of the track in the low six bits of the
    second, the cylinder in the third byte with its two high bits in the high
    bits of the second. *)
Definition chs_head (chs : list Z) : Z := nth 0 chs 0.
Definition chs_sector (chs : list Z) : Z := Z.land (nth 1 chs 0) 0x3F.
Definition chs_cylinder (chs : list Z) : Z :=
  Z.lor (nth 2 chs 0) (Z.shiftl (Z.land (nth 1 chs 0) 0xC0) 2).

Definition chs_decode (cfg : config) (chs : list Z) : Z :=
  (chs_cylinder chs * heads cfg + chs_head chs) * sectors cfg
  + (chs_sector chs - 1).

(** The packing of a sector of the track [s] and a cylinder [c], and the check
    that it is read back, for the pair coded by [n = 64 * c + s]. *)
Definition chs_pack_ok (n : Z) : bool :=
  let s := n mod 64 in
  let c := n / 64 in
  let b1 := u8 (Z.lor s (Z.land (Z.shiftr c 2) 0xC0)) in
  let b2 := u8 (Z.land c 0xFF) in
  implb (1 <=? s)
        ((Z.land b1 0x3F =? s)
         && (Z.lor b2 (Z.shiftl (Z.land b1 0xC0) 2) =? c)).

(** Requests and configurations of a size that keeps the layout of 128
    partitions far inside 64 bits: starts and sizes below [2 ^ 53] KBytes. *)
Definition request_bounded (p : partinfo) : Prop :=
  0 <= start p < 2 ^ 53 /\ 0 <= size p < 2 ^ 53.

Definition gpt_config_bounded (cfg : config) : Prop :=
  0 <= kb_align cfg < 2 ^ 31
  /\ 0 <= gpt_first_entry_sector cfg < 2 ^ 54
  /\ 0 <= gpt_last_usable_sector cfg < 2 ^ 64 - 1.

(** What the loop of [gen_gptable] has made of the entry [e] of a request [p]
    it has laid out. *)
Definition gpt_slot_laid (cfg : config) (p : partinfo) (e : gpte) : Prop :=
  e_type e = guid p
  /\ gpt_first_usable cfg <= e_start e
  /\ e_end e = e_start e + 2 * size p - 1
  /\ (start p <> 0 -> e_start e = 2 * start p)
  /\ (start p = 0 -> kb_align cfg <> 0 -> (kb_align cfg | e_start e))
  /\ (0 < gpt_last_usable_sector cfg -> e_end e <= gpt_last_usable_sector cfg).

(** The state of the loop before request [j]: the cursor, and the entries of
    the requests laid out so far, each below the cursor and above the entries
    before it. *)
Definition gpt_laid_inv (cfg : config) (g : list Z) (parts : list partinfo)
    (j : nat) (s : gpt_state) : Prop :=
  gpt_first_usable cfg <= g_sect s <= (Z.of_nat j + 1) * 2 ^ 55
  /\ length (g_gpte s) = 128%nat
  /\ forall k p, (k < j)%nat -> parts !! k = Some p -> size p <> 0 ->
       gpt_slot_laid cfg p (gpte_at (g_gpte s) k)
       /\ e_guid (gpte_at (g_gpte s) k) = guid_add_last g (Z.of_nat k + 1)
       /\ e_end (gpte_at (g_gpte s) k) < g_sect s
       /\ forall k' p', (k' < k)%nat -> parts !! k' = Some p' -> size p' <> 0 ->
            e_end (gpte_at (g_gpte s) k') < e_start (gpte_at (g_gpte s) k).
(** An MBR geometry and requests that keep four partitions inside the 32 bits
    of the start and length fields: cylinders and alignment units below
    [2 ^ 24] sectors, starts and sizes below [2 ^ 27] KBytes. *)
Definition mbr_config_bounded (cfg : config) : Prop :=
  0 < sectors cfg /\ 0 < heads cfg
  /\ heads cfg * sectors cfg < 2 ^ 24
  /\ 0 <= kb_align cfg < 2 ^ 24.

Definition mbr_request_bounded (p : partinfo) : Prop :=
  0 <= start p < 2 ^ 27 /\ 0 <= size p < 2 ^ 27.

(** What the loop of [gen_ptable] has made of the entry [e] of request number
    [k] when it has laid the request out. *)
Definition mbr_slot_laid (cfg : config) (k : nat) (p : partinfo) (e : pte)
    : Prop :=
  sectors cfg <= pte_start e
  /\ 2 * size p <= pte_length e
  /\ (start p <> 0 -> pte_start e = 2 * start p)
  /\ (kb_align cfg = 0 ->
      (cyl_size cfg | pte_start e + pte_length e)
      /\ 2 * size p < pte_length e <= 2 * size p + cyl_size cfg)
  /\ (kb_align cfg <> 0 ->
      pte_length e = 2 * size p
      /\ (start p = 0 -> (kb_align cfg | pte_start e)))
  /\ pte_chs_start e = to_chs cfg (pte_start e)
  /\ pte_chs_end e = to_chs cfg (pte_start e + pte_length e - 1)
  /\ pte_type e = u8 (type p)
  /\ pte_active e = (if Z.of_nat k + 1 =? active cfg then 0x80 else 0).

(** The state of the loop before request [j]. *)
Definition mbr_laid_inv (cfg : config) (parts : list partinfo) (j : nat)
    (s : mbr_state) : Prop :=
  0 <= m_sect s <= Z.of_nat j * 2 ^ 30
  /\ length (m_pte s) = 4%nat
  /\ (forall k p, (k < j)%nat -> parts !! k = Some p -> size p <> 0 ->
        mbr_slot_laid cfg k p (pte_at (m_pte s) k)
        /\ pte_start (pte_at (m_pte s) k) + pte_length (pte_at (m_pte s) k)
           <= m_sect s
        /\ forall k' p', (k' < k)%nat -> parts !! k' = Some p' ->
             size p' <> 0 ->
             pte_start (pte_at (m_pte s) k') + pte_length (pte_at (m_pte s) k')
             + sectors cfg <= pte_start (pte_at (m_pte s) k))
  /\ (forall k, (j <= k)%nat \/ (exists p, parts !! k = Some p /\ size p = 0) ->
        pte_at (m_pte s) k = zero_pte).

(** The requests of a list that a pass lays out: those of a size other than
    zero. *)
Definition laid_out (parts : list partinfo) : list partinfo :=
  filter (fun p => size p <> 0) parts.

(** An entry whose CHS fields are three bytes each. *)
Definition pte_wf (e : pte) : Prop :=
  length (pte_chs_start e) = 3%nat /\ length (pte_chs_end e) = 3%nat.

(** The text of an identifier: the two hexadecimal digits of each byte, the
    first three groups with their bytes in reverse order, a dash between the
    groups. *)
Definition hex_digit (d : Z) : Z := if d <? 10 then 48 + d else 87 + d.

Definition hex_byte (b : Z) : list Z := [hex_digit (b / 16); hex_digit (b mod 16)].

(** One byte of the text, with the dash before it when it opens a group. *)
Definition guid_item (it : bool * Z) : list Z :=
  (if fst it then [45] else []) ++ hex_byte (snd it).

Definition guid_items (g : list Z) : list (bool * Z) :=
  match g with
  | [b0; b1; b2; b3; b4; b5; b6; b7; b8; b9; b10; b11; b12; b13; b14; b15] =>
      [(false, b3); (false, b2); (false, b1); (false, b0);
       (true, b5); (false, b4); (true, b7); (false, b6);
       (true, b8); (false, b9);
       (true, b10); (false, b11); (false, b12); (false, b13); (false, b14);
       (false, b15)]
  | _ => []
  end.

Definition guid_format (g : list Z) : list Z :=
  concat (map guid_item (guid_items g)).

(** The checks on one byte that are settled by running them on every byte:
    its two digits are neither a terminator nor a dash. *)
Definition hex_byte_ok (b : Z) : bool :=
  forallb (fun c => negb (c =? 0) && negb (c =? 45)) (hex_byte b).

(** The attribute words [main] can leave in a request: none, or the priority
    and success bits of a Chrome OS kernel. *)
Definition gattr_of_main (a : Z) : Prop :=
  a = 0 \/ a = Z.lor (Z.shiftl 1 48) (Z.shiftl 1 56).

(** The number of options [-p] in a list of options. *)
Definition count_p (opts : list (ascii * list Z)) : nat :=
  length (filter (fun o => fst o = "p"%char) opts).

(** Readers of numbers for the concrete runs: the decimal digits at the head of
    a string with what follows them, and the value of two hexadecimal
    digits. *)
Fixpoint read_decimal (acc : Z) (str : list Z) : Z * list Z :=
  match str with
  | c :: rest =>
      if (48 <=? c) && (c <=? 57) then read_decimal (10 * acc + (c - 48)) rest
      else (acc, str)
  | [] => (acc, [])
  end.

Definition hex_value (c : Z) : Z :=
  if (48 <=? c) && (c <=? 57) then c - 48
  else if (97 <=? c) && (c <=? 102) then c - 87
  else if (65 <=? c) && (c <=? 70) then c - 55
  else 0.

Definition read_hex_2 (b : list Z) (base : Z) : Z :=
  16 * hex_value (nth 0 b 0) + hex_value (nth 1 b 0).


(** The identifiers [main] can give a request: the one of a keyword of the
    option [-T], or the one of its type byte. *)
Definition guid_of_keyword (g : list Z) : Prop :=
  g = GUID_PARTITION_CHROME_OS_KERNEL \/ g = GUID_PARTITION_SIFIVE_SPL
  \/ g = GUID_PARTITION_SIFIVE_UBOOT.

Definition guid_of_type (t : Z) : list Z := fst (type_to_guid_and_name t None).

(** What holds of the slots of [parts] while the options are read: an
    attribute word is one of the two [main] can write, a slot marked by [-T]
    holds the identifier of a keyword, and a slot filled by [-p] holds a type
    byte and the identifier of the keyword or of the type. *)
Definition request_of_main (filled : bool) (p : partinfo) : Prop :=
  gattr_of_main (gattr p)
  /\ (has_guid p = true -> guid_of_keyword (guid p))
  /\ 0 <= start p < 2 ^ 64
  /\ (filled = true ->
      0 <= type p < 256
      /\ (has_guid p = false -> guid p = guid_of_type (type p))
      /\ 0 <= size p < 2 ^ 64
      /\ (hybrid p = 0 \/ hybrid p = 1) /\ (required p = 0 \/ required p = 1)).

(** What [parse_gpt_parttype] keeps and what it sets in the slot it marks. *)
Definition parse_gpt_parttype_keeps (slot q : partinfo) : Prop :=
  has_guid q = true /\ guid_of_keyword (guid q)
  /\ (gattr q = gattr slot \/ gattr q = Z.lor (Z.shiftl 1 48) (Z.shiftl 1 56))
  /\ start q = start slot.

Definition main_inv (ms : main_state) : Prop :=
  length (ms_parts ms) = 128%nat
  /\ (ms_part ms <= 128)%nat
  /\ (use_guid_partition_table (ms_cfg ms) = false -> (ms_part ms <= 4)%nat)
  /\ 0 <= ms_type ms < 256
  /\ (ms_hybrid ms = 0 \/ ms_hybrid ms = 1)
  /\ (ms_required ms = 0 \/ ms_required ms = 1)
  /\ length (ms_guid ms) = 16%nat
  /\ 2 <= gpt_first_entry_sector (ms_cfg ms) < 2 ^ 64
  /\ (gpt_last_usable_sector (ms_cfg ms) = 0
      \/ (gpt_alternate (ms_cfg ms) = true
          /\ 34 <= gpt_last_usable_sector (ms_cfg ms) < 2 ^ 64 - 34))
  /\ (gpt_split_image (ms_cfg ms) = true -> gpt_alternate (ms_cfg ms) = true)
  /\ forall k p, ms_parts ms !! k = Some p ->
                 request_of_main (bool_decide (k < ms_part ms)%nat) p.


(** Concrete runs with an alignment of 8 sectors. *)
Definition gpt_aligned_8 : config :=
  mk_config 1 254 63 8 false true (Some "img"%string) false false 2 0.

Definition mbr_aligned_8 : config :=
  mk_config 1 16 63 8 false false (Some "img"%string) false false 2 0.

(** The library functions for the concrete runs, on decimal numbers. *)
Definition strtoul_dec (str : list Z) (base : Z) : Z := fst (read_decimal 0 str).

Definition strtoull_dec (str : list Z) : Z * list Z := read_decimal 0 str.

(** The options of [ptgen -g -o img -d 64M -T cros_kernel -p 4M -p 8M@16M]. *)
Definition opts_gpt_disk : list (ascii * list Z) :=
  [("g"%char, []); ("o"%char, bytes "img"); ("d"%char, bytes "64M");
   ("T"%char, bytes "cros_kernel"); ("p"%char, bytes "4M");
   ("p"%char, bytes "8M@16M")].

(** Where a block lands that is written after an [lseek] to [off] with the
    descriptor at [cur]: at [off], or at [cur] when [off] is negative as [off_t]
    and the call is refused. *)
Definition lands (cur off : Z) : Z := if off <? 0 then cur else off.






(** The sentence "in unaligned MBR mode the cursor strictly increases after
    every laid-out partition", for one request of the MBR pass. *)
Definition cursor_strictly_increases (cfg : config) (i : nat) (p : partinfo)
    (st : mbr_state) : Prop :=
  forall st',
    gen_ptable_body cfg i p st = Ok st' ->
    mbr_cursor cfg (m_sect st) < mbr_cursor cfg (m_sect st').

(** A request of [2 ^ 63 - 2000] KBytes, which [to_kbytes] reads as it is
    written; twice its size is [2 ^ 64 - 4000] sectors in the arithmetic of
    [unsigned long long]. *)
Definition huge_part : partinfo := linux_part 9223372036854773808 0 0.

(** The offsets of the blocks a trace writes, in order. *)
Definition write_offsets (tr : list event) : list Z :=
  omap (fun ev => match ev with EvWrite _ off _ => Some off | _ => None end) tr.

(** A GPT run with the alternate table on a disk of [2 ^ 54 + 128] sectors,
    as [-g -d 9007199254741056] sets it: the last sector is at a byte offset
    that is negative as [off_t]. *)
Definition gpt_huge_disk : config :=
  mk_config 1 254 63 0 false true (Some "img"%string) false true 2
    (2 ^ 54 + 128 - 34).

(** What the loop of [gen_ptable] has made of the slots before request [j],
    whatever the sizes of the requests: the type and the active byte of the
    slots it has filled, and the slots it has left alone. *)
Definition mbr_slots_inv (cfg : config) (parts : list partinfo) (j : nat)
    (s : mbr_state) : Prop :=
  length (m_pte s) = 4%nat
  /\ (forall k p, (k < j)%nat -> parts !! k = Some p -> size p <> 0 ->
        pte_type (pte_at (m_pte s) k) = u8 (type p)
        /\ pte_active (pte_at (m_pte s) k)
           = (if Z.of_nat k + 1 =? active cfg then 0x80 else 0))
  /\ (forall k, (j <= k)%nat \/ (exists p, parts !! k = Some p /\ size p = 0) ->
        pte_at (m_pte s) k = zero_pte).

(** * Properties *)

(** ** The embedding on known values *)

(** The check value of CRC32, for the ASCII digits 1 to 9. *)
Example crc32_check_value :
  crc32 [49; 50; 51; 52; 53; 54; 55; 56; 57] = 0xCBF43926.
Proof. vm_compute. reflexivity. Qed.

(** On a disk whose last sectors are beyond the offsets [lseek] accepts, the
    three [lseek] calls for the alternate table are refused and its blocks
    follow the primary entry array: the array again at byte 17408, the header
    at 33792 and the padding byte at 33884. *)
Example gpt_huge_disk_offsets :
  write_offsets (fst (gen_gptable gpt_huge_disk "img" default_signature
                        default_guid [linux_part 4096 0 0]))
  = [440; 446; 510; 512; 1023; 1024; 17408; 33792; 33884].
Proof. vm_compute. reflexivity. Qed.

(** ** The checksum of the code and CRC-32

    The code shifts its register to the right, with the polynomial written
    backwards; the reference divides from the most significant bit.  The two
    registers are mirror images of each other at every step. *)

Lemma reflect_testbit (n : nat) : forall v i,
  0 <= i ->
  Z.testbit (reflect n v) i
  = (i <? Z.of_nat n) && Z.testbit v (Z.of_nat n - 1 - i).
Proof.
  induction n as [|n IH]; intros v i Hi.
  - cbn [reflect]. rewrite Z.bits_0.
    replace (i <? Z.of_nat 0) with false by (symmetry; apply Z.ltb_ge; lia).
    reflexivity.
  - cbn [reflect]. rewrite Z.lor_spec, IH by exact Hi.
    destruct (Z.lt_trichotomy i (Z.of_nat n)) as [Hlt|[->|Hgt]].
    + rewrite Z.shiftl_spec_low by exact Hlt.
      replace (i <? Z.of_nat n) with true by (symmetry; apply Z.ltb_lt; lia).
      replace (i <? Z.of_nat (S n)) with true
        by (symmetry; apply Z.ltb_lt; lia).
      cbn [andb orb]. rewrite Z.shiftr_spec by lia. f_equal. lia.
    + rewrite Z.shiftl_spec by lia. rewrite Z.sub_diag.
      replace (Z.of_nat n <? Z.of_nat n) with false
        by (symmetry; apply Z.ltb_ge; lia).
      replace (Z.of_nat n <? Z.of_nat (S n)) with true
        by (symmetry; apply Z.ltb_lt; lia).
      cbn [andb]. rewrite orb_false_r.
      replace (Z.of_nat (S n) - 1 - Z.of_nat n) with 0 by lia.
      rewrite Z.land_spec. change (Z.testbit 1 0) with true.
      apply andb_true_r.
    + rewrite Z.shiftl_spec by lia. rewrite Z.land_spec.
      replace (Z.testbit 1 (i - Z.of_nat n)) with false
        by (symmetry; apply (Z.bits_above_log2 1); cbn; lia).
      replace (i <? Z.of_nat n) with false by (symmetry; apply Z.ltb_ge; lia).
      replace (i <? Z.of_nat (S n)) with false
        by (symmetry; apply Z.ltb_ge; lia).
      rewrite andb_false_r. reflexivity.
Qed.

Lemma testbit_u32 (x i : Z) :
  0 <= i -> Z.testbit (u32 x) i = (i <? 32) && Z.testbit x i.
Proof.
  intros Hi. unfold u32. change (2 ^ 32) with (2 ^ 32).
  destruct (i <? 32) eqn:E.
  - apply Z.ltb_lt in E. rewrite Z.mod_pow2_bits_low by lia. reflexivity.
  - apply Z.ltb_ge in E. rewrite Z.mod_pow2_bits_high by lia. reflexivity.
Qed.

Lemma reg32_testbit (c : Z) :
  reg32 c <-> 0 <= c /\ forall i, 32 <= i -> Z.testbit c i = false.
Proof.
  unfold reg32. split.
  - intros H. split; [lia|]. intros i Hi.
    destruct (Z.eq_dec c 0) as [->|Hne]; [apply Z.bits_0|].
    apply Z.bits_above_log2; [lia|].
    assert (Z.log2 c < 32) by (apply Z.log2_lt_pow2; lia). lia.
  - intros [H0 H]. split; [exact H0|].
    destruct (Z.eq_dec c 0) as [->|Hne]; [lia|].
    apply Z.log2_lt_pow2; [lia|].
    destruct (Z.lt_ge_cases (Z.log2 c) 32) as [Hl|Hg]; [exact Hl|].
    pose proof (Z.bit_log2 c ltac:(lia)) as Hb. rewrite H in Hb by exact Hg.
    discriminate.
Qed.

Lemma reflect_reg32 (c : Z) : reg32 (reflect 32 c).
Proof.
  apply reg32_testbit. split.
  - apply Z.bits_iff_nonneg_ex. exists 32. intros i Hi.
    rewrite reflect_testbit by lia.
    replace (i <? Z.of_nat 32) with false by (symmetry; apply Z.ltb_ge; lia).
    reflexivity.
  - intros i Hi. rewrite reflect_testbit by lia.
    replace (i <? Z.of_nat 32) with false by (symmetry; apply Z.ltb_ge; lia).
    reflexivity.
Qed.

Lemma poly_reflected (i : Z) :
  0 <= i < 32 -> Z.testbit 0x04C11DB7 i = Z.testbit 0xEDB88320 (31 - i).
Proof.
  intros Hi.
  change 0x04C11DB7 with (reflect 32 0xEDB88320).
  rewrite reflect_testbit by lia.
  replace (i <? Z.of_nat 32) with true by (symmetry; apply Z.ltb_lt; lia).
  cbn [andb]. f_equal.
Qed.

(** One shift of the register of the code is one bit of the division, seen
    in a mirror. *)
Lemma crc_shift_1_reflect (c : Z) :
  reg32 c ->
  reg32 (crc_shift 1 c)
  /\ reflect 32 (crc_shift 1 c) = crc32_bit (reflect 32 c).
Proof.
  intros Hc. pose proof (proj1 (reg32_testbit c) Hc) as [Hc0 Hhi].
  cbn [crc_shift].
  assert (Hs : reg32 (Z.shiftr c 1)).
  { unfold reg32 in *. rewrite Z.shiftr_div_pow2 by lia.
    change (2 ^ 1) with 2. split; [apply Z.div_pos; lia|].
    apply Z.div_lt_upper_bound; lia. }
  assert (Hx : reg32 (Z.lxor (Z.shiftr c 1) 0xEDB88320)).
  { apply reg32_testbit. split.
    - apply Z.lxor_nonneg. unfold reg32 in Hs. lia.
    - intros i Hi. rewrite Z.lxor_spec.
      rewrite (proj2 (proj1 (reg32_testbit _) Hs) i Hi).
      rewrite (Z.bits_above_log2 0xEDB88320 i) by (cbn; lia). reflexivity. }
  split; [destruct (Z.testbit c 0); assumption|].
  apply Z.bits_inj'. intros i Hi.
  unfold crc32_bit.
  rewrite (reflect_testbit 32 c 31) by lia.
  change (31 <? Z.of_nat 32) with true. cbn [andb].
  change (Z.of_nat 32 - 1 - 31) with 0.
  assert (Hshl : Z.testbit (Z.land (Z.shiftl (reflect 32 c) 1) 0xFFFFFFFF) i
                 = (i <? 32) && (0 <? i) && Z.testbit c (32 - i)).
  { rewrite Z.land_spec.
    change 0xFFFFFFFF with (Z.ones 32).
    destruct (Z.lt_ge_cases i 32) as [Hlt|Hge].
    - rewrite Z.ones_spec_low by lia. rewrite andb_true_r.
      replace (i <? 32) with true by (symmetry; apply Z.ltb_lt; lia).
      cbn [andb].
      destruct (Z.eq_dec i 0) as [->|Hne].
      + rewrite Z.shiftl_spec_low by lia. reflexivity.
      + rewrite Z.shiftl_spec by lia. rewrite reflect_testbit by lia.
        replace (i - 1 <? Z.of_nat 32) with true
          by (symmetry; apply Z.ltb_lt; lia).
        replace (0 <? i) with true by (symmetry; apply Z.ltb_lt; lia).
        cbn [andb]. f_equal. lia.
    - rewrite Z.ones_spec_high by lia. rewrite andb_false_r.
      replace (i <? 32) with false by (symmetry; apply Z.ltb_ge; lia).
      reflexivity. }
  assert (Hshr : forall x, reg32 x -> Z.testbit (reflect 32 x) i
                 = (i <? 32) && Z.testbit x (31 - i)).
  { intros x _. rewrite reflect_testbit by lia. f_equal. }
  destruct (Z.testbit c 0) eqn:E0.
  - rewrite (Hshr _ Hx), !Z.lxor_spec, Hshl.
    destruct (Z.lt_ge_cases i 32) as [Hlt|Hge].
    + replace (i <? 32) with true by (symmetry; apply Z.ltb_lt; lia).
      cbn [andb]. rewrite Z.shiftr_spec by lia.
      rewrite (poly_reflected i) by lia.
      replace (31 - i + 1) with (32 - i) by lia.
      destruct (Z.eq_dec i 0) as [->|Hne].
      * rewrite (Hhi (32 - 0)) by lia. reflexivity.
      * replace (0 <? i) with true by (symmetry; apply Z.ltb_lt; lia).
        reflexivity.
    + replace (i <? 32) with false by (symmetry; apply Z.ltb_ge; lia).
      cbn [andb]. rewrite (Z.bits_above_log2 0x04C11DB7 i) by (cbn; lia).
      reflexivity.
  - rewrite (Hshr _ Hs), Hshl.
    destruct (Z.lt_ge_cases i 32) as [Hlt|Hge].
    + replace (i <? 32) with true by (symmetry; apply Z.ltb_lt; lia).
      cbn [andb]. rewrite Z.shiftr_spec by lia.
      replace (31 - i + 1) with (32 - i) by lia.
      destruct (Z.eq_dec i 0) as [->|Hne].
      * rewrite (Hhi (32 - 0)) by lia. reflexivity.
      * replace (0 <? i) with true by (symmetry; apply Z.ltb_lt; lia).
        reflexivity.
    + replace (i <? 32) with false by (symmetry; apply Z.ltb_ge; lia).
      reflexivity.
Qed.

Lemma crc_shift_reflect (k : nat) : forall c,
  reg32 c ->
  reg32 (crc_shift k c)
  /\ reflect 32 (crc_shift k c) = Nat.iter k crc32_bit (reflect 32 c).
Proof.
  induction k as [|k IH]; intros c Hc.
  - split; [exact Hc|reflexivity].
  - destruct (crc_shift_1_reflect c Hc) as [H1 H2].
    change (crc_shift (S k) c) with (crc_shift k (crc_shift 1 c)).
    destruct (IH _ H1) as [H3 H4]. split; [exact H3|].
    rewrite H4, H2. rewrite <- Nat.iter_succ_r. reflexivity.
Qed.

(** The byte that enters the low bits of the register of the code enters the
    top of the register of the division, reversed. *)
Lemma lxor_byte_reflect (c b : Z) :
  reg32 c ->
  reg32 (Z.lxor c (u8 b))
  /\ reflect 32 (Z.lxor c (u8 b))
     = Z.lxor (reflect 32 c) (Z.shiftl (reflect 8 b) 24).
Proof.
  intros Hc.
  assert (Hb : 0 <= u8 b < 2 ^ 8) by (apply Z.mod_pos_bound; lia).
  assert (Hb32 : reg32 (u8 b)) by (unfold reg32; lia).
  assert (Hx : reg32 (Z.lxor c (u8 b))).
  { apply reg32_testbit. split.
    - apply Z.lxor_nonneg. unfold reg32 in Hc. lia.
    - intros i Hi. rewrite Z.lxor_spec.
      rewrite (proj2 (proj1 (reg32_testbit _) Hc) i Hi).
      rewrite (proj2 (proj1 (reg32_testbit _) Hb32) i Hi). reflexivity. }
  split; [exact Hx|].
  apply Z.bits_inj'. intros i Hi.
  rewrite Z.lxor_spec, !reflect_testbit by lia. rewrite Z.lxor_spec.
  destruct (Z.lt_ge_cases i 32) as [Hlt|Hge].
  - replace (i <? Z.of_nat 32) with true by (symmetry; apply Z.ltb_lt; lia).
    cbn [andb]. f_equal.
    change (Z.of_nat 32 - 1 - i) with (31 - i).
    unfold u8. 
    destruct (Z.lt_ge_cases i 24) as [Hl24|Hg24].
    + rewrite Z.shiftl_spec_low by exact Hl24.
      apply Z.mod_pow2_bits_high. lia.
    + rewrite Z.shiftl_spec by lia. rewrite reflect_testbit by lia.
      replace (i - 24 <? Z.of_nat 8) with true
        by (symmetry; apply Z.ltb_lt; lia).
      cbn [andb]. rewrite Z.mod_pow2_bits_low by lia. f_equal. lia.
  - replace (i <? Z.of_nat 32) with false by (symmetry; apply Z.ltb_ge; lia).
    cbn [andb]. rewrite Z.shiftl_spec by lia. rewrite reflect_testbit by lia.
    replace (i - 24 <? Z.of_nat 8) with false
      by (symmetry; apply Z.ltb_ge; lia).
    reflexivity.
Qed.

Lemma reflect_involutive (c : Z) : reg32 c -> reflect 32 (reflect 32 c) = c.
Proof.
  intros Hc. pose proof (proj1 (reg32_testbit c) Hc) as [_ Hhi].
  apply Z.bits_inj'. intros i Hi.
  rewrite reflect_testbit by lia.
  destruct (Z.lt_ge_cases i 32) as [Hlt|Hge].
  - replace (i <? Z.of_nat 32) with true by (symmetry; apply Z.ltb_lt; lia).
    cbn [andb]. rewrite reflect_testbit by lia.
    replace (Z.of_nat 32 - 1 - i <? Z.of_nat 32) with true
      by (symmetry; apply Z.ltb_lt; lia).
    cbn [andb]. f_equal. lia.
  - replace (i <? Z.of_nat 32) with false by (symmetry; apply Z.ltb_ge; lia).
    rewrite Hhi by lia. reflexivity.
Qed.

Lemma cyg_crc32_accumulate_reflect (s : list Z) : forall c r,
  reg32 c -> r = reflect 32 c ->
  reg32 (fold_left (fun c b => crc_shift 8 (Z.lxor c (u8 b))) s c)
  /\ reflect 32 (fold_left (fun c b => crc_shift 8 (Z.lxor c (u8 b))) s c)
     = fold_left crc32_byte s r.
Proof.
  induction s as [|b s IH]; intros c r Hc ->.
  - split; [exact Hc|reflexivity].
  - cbn [fold_left].
    destruct (lxor_byte_reflect c b Hc) as [H1 H2].
    destruct (crc_shift_reflect 8 _ H1) as [H3 H4].
    apply IH; [exact H3|].
    unfold crc32_byte. rewrite <- H2. symmetry. exact H4.
Qed.

(** The checksum of the code is the CRC-32 of the standards. *)
Lemma gpt_crc32_is_crc32 (buf : list Z) : u32 (gpt_crc32 buf) = crc32 buf.
Proof.
  unfold gpt_crc32, crc32, cyg_crc32_accumulate.
  change (u32 (-1)) with 0xFFFFFFFF.
  assert (H1 : reg32 0xFFFFFFFF) by (unfold reg32; lia).
  destruct (cyg_crc32_accumulate_reflect buf 0xFFFFFFFF 0xFFFFFFFF H1 eq_refl)
    as [Hr He].
  rewrite <- He, (reflect_involutive _ Hr).
  set (x := fold_left (fun c b => crc_shift 8 (Z.lxor c (u8 b))) buf 0xFFFFFFFF)
    in *.
  apply Z.bits_inj'. intros i Hi.
  rewrite testbit_u32 by lia. unfold u64.
  rewrite Z.lxor_spec.
  change 0xFFFFFFFF with (Z.ones 32).
  destruct (Z.lt_ge_cases i 32) as [Hlt|Hge].
  - replace (i <? 32) with true by (symmetry; apply Z.ltb_lt; lia).
    cbn [andb]. rewrite Z.mod_pow2_bits_low by lia.
    rewrite Z.lxor_spec, Z.bits_m1 by lia.
    rewrite Z.ones_spec_low by lia. reflexivity.
  - replace (i <? 32) with false by (symmetry; apply Z.ltb_ge; lia).
    cbn [andb].
    pose proof (proj1 (reg32_testbit x) Hr) as [_ Hhi].
    rewrite Hhi by lia. rewrite Z.ones_spec_high by lia. reflexivity.
Qed.

(** An MBR run with 16 heads and 63 sectors, requests of 1024 and 2048
    KBytes: the partitions are at sectors 63 and 3087, 2961 and 4977 sectors
    long, and the offsets and lengths are printed in bytes. *)
Example mbr_two_partitions :
  mbr_layout mbr_16_63 [linux_part 1024 0 0; linux_part 2048 0 0]
  = Ok (8064, [32256; 1516032; 1580544; 2548224]).
Proof. vm_compute. reflexivity. Qed.

(** A GPT run with one request of 4096 KBytes and no disk size: the last
    usable sector is the last sector of the partition, the protective entry
    runs from sector 1 to the sector that would hold the alternate header, and
    one file is written. *)
Example gpt_one_partition :
  exists tb,
    gpt_build gpt_plain default_guid [linux_part 4096 0 0] = Ok tb
    /\ t_last_usable tb = 8225
    /\ pte_at (t_pte tb) 0
       = mk_pte 0 [0; 2; 0] 0xEE [131; 6; 0] 1 8258
    /\ created (gpt_emit gpt_plain "img" default_signature tb) = ["img"%string]
    /\ length (written_blocks (gpt_emit gpt_plain "img" default_signature tb))
       = 6%nat.
Proof. eexists. split; [vm_compute; reflexivity|]. vm_compute. repeat split. Qed.

(** A name with a four-byte sequence between two letters: each of its four
    bytes gives one ['?'], and the second letter follows them. *)
Example name_with_four_byte_sequence :
  init_utf16 [0x61; 0xF0; 0x9F; 0x98; 0x80; 0x62] (replicate 36 0) 36
  = [0x61; 0x3F; 0x3F; 0x3F; 0x3F; 0x62] ++ replicate 30 0.
Proof. vm_compute. reflexivity. Qed.

(** ** Machine integers *)

Lemma u64_small (x : Z) : 0 <= x < 2 ^ 64 -> u64 x = x.
Proof. intros H. unfold u64. apply Z.mod_small. exact H. Qed.

Lemma u32_small (x : Z) : 0 <= x < 2 ^ 32 -> u32 x = x.
Proof. intros H. unfold u32. apply Z.mod_small. exact H. Qed.

Lemma s64_small (x : Z) : - 2 ^ 63 <= x < 2 ^ 63 -> s64 x = x.
Proof. intros H. unfold s64. rewrite Z.mod_small; lia. Qed.

Lemma u64_range (x : Z) : 0 <= u64 x < 2 ^ 64.
Proof. unfold u64. apply Z.mod_pos_bound. lia. Qed.

Lemma u32_range (x : Z) : 0 <= u32 x < 2 ^ 32.
Proof. unfold u32. apply Z.mod_pos_bound. lia. Qed.

Lemma u64_idem (x : Z) : u64 (u64 x) = u64 x.
Proof. apply u64_small, u64_range. Qed.

(** ** The loops, one request at a time *)

Lemma gen_ptable_loop_app cfg (l1 l2 : list partinfo) : forall i st,
  gen_ptable_loop cfg i (l1 ++ l2) st =
  (let* st' := gen_ptable_loop cfg i l1 st in
   gen_ptable_loop cfg (i + length l1) l2 st').
Proof.
  induction l1 as [|p l1 IH]; intros i st; simpl.
  - rewrite Nat.add_0_r. reflexivity.
  - destruct (gen_ptable_body cfg i p st) as [st1|e]; simpl; [|reflexivity].
    rewrite IH. replace (S i + length l1)%nat with (i + S (length l1))%nat by lia.
    reflexivity.
Qed.

Lemma gen_gptable_loop_app cfg g (l1 l2 : list partinfo) : forall i st,
  gen_gptable_loop cfg g i (l1 ++ l2) st =
  (let* st' := gen_gptable_loop cfg g i l1 st in
   gen_gptable_loop cfg g (i + length l1) l2 st').
Proof.
  induction l1 as [|p l1 IH]; intros i st; simpl.
  - rewrite Nat.add_0_r. reflexivity.
  - destruct (gen_gptable_body cfg g i p st) as [st1|e]; simpl; [|reflexivity].
    rewrite IH. replace (S i + length l1)%nat with (i + S (length l1))%nat by lia.
    reflexivity.
Qed.

(** ** Rounding to a cylinder *)

Lemma round_to_cyl_eq cfg (s : Z) :
  0 < cyl_size cfg -> 0 <= s -> s + cyl_size cfg < 2 ^ 63 ->
  round_to_cyl cfg s = cyl_size cfg * (s / cyl_size cfg + 1).
Proof.
  intros Hc Hs Hb. unfold round_to_cyl.
  rewrite Z.rem_mod_nonneg by lia.
  pose proof (Z.mod_pos_bound s (cyl_size cfg) Hc) as Hm.
  pose proof (Z.div_mod s (cyl_size cfg) ltac:(lia)) as Hd.
  rewrite u64_small by lia. lia.
Qed.

(** C10, as stated, fails where the arithmetic of [unsigned long long] wraps
    around.  With 16 heads and 63 sectors and no alignment, the requests of
    1024 KBytes and of [2 ^ 63 - 2000] KBytes are both laid out and the run
    succeeds: after the first [sect] is 3024 and the cursor 3087; the second
    starts at 3087 and twice its size is [2 ^ 64 - 4000], so that its end
    wraps around to [-913] as a [long], which [round_to_cyl] takes up to 1008:
    [sect] goes from 3024 to 1008 and the cursor from 3087 to 1071.  No signed
    operation overflows on the way. *)
Lemma C10_cursor_can_decrease :
  0 < cyl_size mbr_16_63 /\ kb_align mbr_16_63 = 0 /\ size huge_part <> 0
  /\ exists st1 st2,
       gen_ptable_loop mbr_16_63 0 [linux_part 1024 0 0] mbr_init = Ok st1
       /\ gen_ptable_loop mbr_16_63 0 [linux_part 1024 0 0; huge_part] mbr_init
          = Ok st2
       /\ gen_ptable_body mbr_16_63 1 huge_part st1 = Ok st2
       /\ m_sect st1 = 3024 /\ m_sect st2 = 1008
       /\ mbr_cursor mbr_16_63 (m_sect st1) = 3087
       /\ mbr_cursor mbr_16_63 (m_sect st2) = 1071
       /\ ~ cursor_strictly_increases mbr_16_63 1 huge_part st1.
Proof.
  split; [vm_compute; reflexivity|]. split; [reflexivity|].
  split; [vm_compute; discriminate|].
  destruct (gen_ptable_loop mbr_16_63 0 [linux_part 1024 0 0] mbr_init)
    as [st1|e] eqn:E1; [|vm_compute in E1; discriminate E1].
  vm_compute in E1. injection E1 as <-.
  eexists _, _. split; [reflexivity|].
  split; [vm_compute; reflexivity|].
  split; [vm_compute; reflexivity|].
  split; [reflexivity|]. split; [reflexivity|].
  split; [vm_compute; reflexivity|]. split; [vm_compute; reflexivity|].
  intros H. specialize (H _ eq_refl). vm_compute in H. discriminate H.
Qed.

(** C10, amended: when a cylinder has a positive number of sectors,
    [round_to_cyl] maps a sector [s] that is not negative, with [s] plus one
    cylinder inside [long], to the least multiple of the cylinder size strictly
    above [s]; a sector on a cylinder boundary moves up by one whole cylinder.
    Hence, with alignment off, [sect] and the cursor are strictly larger after
    each partition of the MBR pass that is laid out, as long as the start and
    the size of the request are not negative and the sums of the layout stay
    inside [long]: [sect] plus one track plus twice the size plus one cylinder,
    and twice the start plus twice the size plus one cylinder, are below
    [2 ^ 63]. *)
Theorem C10_round_to_cyl_strictly_up cfg (s : Z) (i : nat) (p : partinfo)
    (st st' : mbr_state) :
  0 < cyl_size cfg ->
  0 <= s -> s + cyl_size cfg < 2 ^ 63 ->
  (s < round_to_cyl cfg s
   /\ (cyl_size cfg | round_to_cyl cfg s)
   /\ round_to_cyl cfg s <= s + cyl_size cfg
   /\ ((cyl_size cfg | s) -> round_to_cyl cfg s = s + cyl_size cfg))
  /\ (kb_align cfg = 0 -> 0 < sectors cfg -> size p <> 0 ->
      0 <= m_sect st -> 0 <= start p -> 0 <= size p ->
      m_sect st + sectors cfg + 2 * size p + cyl_size cfg < 2 ^ 63 ->
      2 * start p + 2 * size p + cyl_size cfg < 2 ^ 63 ->
      gen_ptable_body cfg i p st = Ok st' ->
      m_sect st < m_sect st'
      /\ mbr_cursor cfg (m_sect st) < mbr_cursor cfg (m_sect st')).
Proof.
  intros Hc Hs Hb. split.
  - rewrite round_to_cyl_eq by assumption.
    pose proof (Z.mod_pos_bound s (cyl_size cfg) Hc) as Hm.
    pose proof (Z.div_mod s (cyl_size cfg) ltac:(lia)) as Hd.
    repeat split.
    + lia.
    + exists (s / cyl_size cfg + 1). lia.
    + lia.
    + intros [k Hk]. subst s. rewrite Z.div_mul by lia. lia.
  - intros Hal Hsec Hsz Hst Hsp Hsize B1 B2 Hbody.
    unfold gen_ptable_body in Hbody.
    destruct (size p =? 0) eqn:E; [apply Z.eqb_eq in E; contradiction|].
    unfold mbr_start in Hbody.
    assert (Hnext : forall start_, m_sect st + sectors cfg <= start_ ->
              start_ + 2 * size p + cyl_size cfg < 2 ^ 63 ->
              start_ + 2 * size p < mbr_next cfg start_ p
              /\ mbr_next cfg start_ p <= start_ + 2 * size p + cyl_size cfg).
    { intros start_ H1 H2. unfold mbr_next.
      rewrite Hal. simpl.
      rewrite (u64_small (size p * 2)) by lia.
      rewrite (u64_small (start_ + size p * 2)) by lia.
      rewrite s64_small by lia.
      rewrite round_to_cyl_eq by lia.
      pose proof (Z.mod_pos_bound (start_ + size p * 2) (cyl_size cfg) Hc).
      pose proof (Z.div_mod (start_ + size p * 2) (cyl_size cfg) ltac:(lia)).
      lia. }
    assert (Hgoal : forall start_, m_sect st + sectors cfg <= start_ ->
              start_ + 2 * size p + cyl_size cfg < 2 ^ 63 ->
              m_sect st < mbr_next cfg start_ p
              /\ mbr_cursor cfg (m_sect st)
                 < mbr_cursor cfg (mbr_next cfg start_ p)).
    { intros start_ H1 H2. destruct (Hnext start_ H1 H2) as [N1 N2].
      unfold mbr_cursor. rewrite !u64_small by lia. lia. }
    destruct (start p =? 0) eqn:Es; simpl in Hbody.
    + rewrite Hal in Hbody. simpl in Hbody.
      injection Hbody as <-. simpl.
      apply Hgoal; rewrite u64_small by lia; lia.
    + destruct (u64 (start p * 2) <? u64 (m_sect st + sectors cfg)) eqn:El;
        simpl in Hbody; [discriminate|].
      injection Hbody as <-. simpl.
      apply Z.ltb_ge in El.
      rewrite (u64_small (start p * 2)) in * by lia.
      rewrite (u64_small (m_sect st + sectors cfg)) in El by lia.
      apply Hgoal; lia.
Qed.

(** ** The cursor *)

Lemma gen_ptable_body_laid cfg i p st :
  size p <> 0 ->
  gen_ptable_body cfg i p st =
  (let* start_ := mbr_start cfg (m_sect st) p in
   let sect := mbr_next cfg start_ p in
   let len := u64 (sect - start_) in
   Ok (mk_mbr_state sect
         (<[i := mk_pte (if Z.of_nat i + 1 =? active cfg then 0x80 else 0)
                   (to_chs cfg (s64 start_)) (u8 (type p))
                   (to_chs cfg (s64 (u64 (start_ + len - 1))))
                   (u32 start_) (u32 len)]> (m_pte st))
         (m_out st ++ [s64 (u64 (start_ * DISK_SECTOR_SIZE));
                       s64 (u64 (len * DISK_SECTOR_SIZE))]))).
Proof.
  intros Hsz. unfold gen_ptable_body.
  destruct (size p =? 0) eqn:E; [apply Z.eqb_eq in E; contradiction|reflexivity].
Qed.

Lemma gen_gptable_body_laid cfg g i p st :
  size p <> 0 ->
  gen_gptable_body cfg g i p st =
  (let* start_ := gpt_start cfg (g_sect st) p in
   if gpt_out_of_space cfg start_ p then Err OutOfSpace
   else
     let sect := u64 (start_ + u64 (size p * 2)) in
     let '(t, pmbr) := gpt_hybrid cfg i p start_ sect (g_pte st) (g_pmbr st) in
     Ok (mk_gpt_state sect t
           (<[i := gpt_entry cfg g i p start_ sect (gpte_at (g_gpte st) i)]>
              (g_gpte st))
           pmbr
           (<[i := set_actual_start start_ p]> (g_parts st))
           (g_out st ++ [u64 (start_ * DISK_SECTOR_SIZE);
                         u64 (u64 (sect - start_) * DISK_SECTOR_SIZE)]))).
Proof.
  intros Hsz. unfold gen_gptable_body.
  destruct (size p =? 0) eqn:E; [apply Z.eqb_eq in E; contradiction|reflexivity].
Qed.



(** ** Explicit starts *)

Lemma gen_gptable_body_parts_length cfg g i p st st' :
  gen_gptable_body cfg g i p st = Ok st' ->
  length (g_parts st') = length (g_parts st).
Proof.
  unfold gen_gptable_body. intros H.
  destruct (size p =? 0).
  - destruct (ignore_null_sized_partition cfg); [|discriminate].
    injection H as <-. reflexivity.
  - destruct (gpt_start cfg (g_sect st) p) as [s|e]; simpl in H; [|discriminate].
    destruct (gpt_out_of_space cfg s p); [discriminate|].
    destruct (gpt_hybrid cfg i p s _ (g_pte st) (g_pmbr st)) as [t pm].
    injection H as <-. simpl. apply length_insert.
Qed.

Lemma gen_gptable_loop_parts_length cfg g (l : list partinfo) : forall i st st',
  gen_gptable_loop cfg g i l st = Ok st' ->
  length (g_parts st') = length (g_parts st).
Proof.
  induction l as [|p l IH]; intros i st st' H; simpl in H.
  - injection H as <-. reflexivity.
  - destruct (gen_gptable_body cfg g i p st) as [st1|e] eqn:E; simpl in H;
      [|discriminate].
    rewrite (IH _ _ _ H). eapply gen_gptable_body_parts_length, E.
Qed.

(** A failure of the loop is a failure of the function, before any file is
    opened. *)
Lemma gen_ptable_fails cfg fname sig (parts : list partinfo) e :
  gen_ptable_loop cfg 0 parts mbr_init = Err e ->
  gen_ptable cfg fname sig parts = ([], Err e).
Proof. intros H. unfold gen_ptable. rewrite H. reflexivity. Qed.

Lemma gen_gptable_fails cfg fname sig g (parts : list partinfo) e :
  gen_gptable_loop cfg g 0 parts (gpt_init cfg parts) = Err e ->
  gen_gptable cfg fname sig g parts = ([], Err e).
Proof.
  intros H. unfold gen_gptable, gpt_build. rewrite H. reflexivity.
Qed.

(** C2: a request with an explicit start which the loop reaches.  When twice
    its start in KBytes lies below the cursor, the run fails with
    [OverlapError] and writes nothing; otherwise the start of the partition is
    exactly twice its start in KBytes (in the GPT pass the partition may still
    be refused for lack of space). *)
Theorem C2_explicit_start cfg fname sig g (pre post : list partinfo)
    (p : partinfo) :
  start p <> 0 -> size p <> 0 ->
  (forall mst, gen_ptable_loop cfg 0 pre mbr_init = Ok mst ->
     (u64 (start p * 2) < mbr_cursor cfg (m_sect mst) ->
      gen_ptable cfg fname sig (pre ++ p :: post) = ([], Err OverlapError))
     /\ (mbr_cursor cfg (m_sect mst) <= u64 (start p * 2) ->
         mbr_start cfg (m_sect mst) p = Ok (u64 (start p * 2))
         /\ exists mst',
              gen_ptable_body cfg (length pre) p mst = Ok mst'
              /\ m_sect mst' = mbr_next cfg (u64 (start p * 2)) p))
  /\ (forall gst,
        gen_gptable_loop cfg g 0 pre (gpt_init cfg (pre ++ p :: post)) = Ok gst ->
        (u64 (start p * 2) < g_sect gst ->
         gen_gptable cfg fname sig g (pre ++ p :: post) = ([], Err OverlapError))
        /\ (g_sect gst <= u64 (start p * 2) ->
            gpt_start cfg (g_sect gst) p = Ok (u64 (start p * 2))
            /\ (gen_gptable_body cfg g (length pre) p gst = Err OutOfSpace
                \/ exists gst',
                     gen_gptable_body cfg g (length pre) p gst = Ok gst'
                     /\ actual_start (part_at (g_parts gst') (length pre))
                        = u64 (start p * 2)
                     /\ g_sect gst' = requested_end (u64 (start p * 2)) p)))
  /\ (0 <= start p < 2 ^ 63 -> u64 (start p * 2) = 2 * start p).
Proof.
  intros Hst Hsz.
  assert (Es : (start p =? 0) = false) by (apply Z.eqb_neq; exact Hst).
  split; [|split].
  - intros mst Hpre. unfold mbr_cursor. split.
    + intros Hlt. apply gen_ptable_fails.
      rewrite gen_ptable_loop_app, Hpre. simpl.
      rewrite gen_ptable_body_laid by assumption.
      unfold mbr_start. rewrite Es. simpl.
      apply Z.ltb_lt in Hlt. rewrite Hlt. reflexivity.
    + intros Hge. apply Z.ltb_ge in Hge.
      assert (Hs : mbr_start cfg (m_sect mst) p = Ok (u64 (start p * 2))).
      { unfold mbr_start. rewrite Es. simpl. rewrite Hge. reflexivity. }
      split; [exact Hs|].
      rewrite gen_ptable_body_laid, Hs by assumption. simpl.
      eexists. split; reflexivity.
  - intros gst Hpre. split.
    + intros Hlt. apply gen_gptable_fails.
      rewrite gen_gptable_loop_app, Hpre. simpl.
      rewrite gen_gptable_body_laid by assumption.
      unfold gpt_start. rewrite Es. simpl.
      apply Z.ltb_lt in Hlt. rewrite Hlt. reflexivity.
    + intros Hge. apply Z.ltb_ge in Hge.
      assert (Hs : gpt_start cfg (g_sect gst) p = Ok (u64 (start p * 2))).
      { unfold gpt_start. rewrite Es. simpl. rewrite Hge. reflexivity. }
      split; [exact Hs|].
      rewrite gen_gptable_body_laid, Hs by assumption. simpl.
      pose proof (gen_gptable_loop_parts_length _ _ _ _ _ _ Hpre) as Hlen.
      simpl in Hlen. rewrite length_app in Hlen. simpl in Hlen.
      destruct (gpt_out_of_space cfg (u64 (start p * 2)) p); [left; reflexivity|].
      right.
      destruct (gpt_hybrid cfg (length pre) p (u64 (start p * 2)) _ (g_pte gst)
                  (g_pmbr gst)) as [t pm].
      eexists. split; [reflexivity|]. simpl. split; [|reflexivity].
      unfold part_at. rewrite list_lookup_insert_eq by lia. reflexivity.
  - intros Hr. rewrite u64_small by lia. lia.
Qed.

(** ** Requests of size zero *)

Section Layout_only.
Variable cfg : config.
Variable g : guid_t.

Lemma gen_ptable_body_sim i j p st1 st2 :
  mbr_sim st1 st2 ->
  same_result mbr_sim (gen_ptable_body cfg i p st1) (gen_ptable_body cfg j p st2).
Proof.
  intros [Hs Ho]. unfold gen_ptable_body.
  destruct (size p =? 0).
  - destruct (ignore_null_sized_partition cfg); simpl; [split; assumption|reflexivity].
  - rewrite Hs. destruct (mbr_start cfg (m_sect st2) p) as [s|e]; simpl;
      [|reflexivity].
    split; simpl; [reflexivity|]. rewrite Ho. reflexivity.
Qed.

Lemma gen_ptable_loop_sim (l : list partinfo) : forall i j st1 st2,
  mbr_sim st1 st2 ->
  same_result mbr_sim (gen_ptable_loop cfg i l st1) (gen_ptable_loop cfg j l st2).
Proof.
  induction l as [|p l IH]; intros i j st1 st2 Hsim; simpl; [exact Hsim|].
  pose proof (gen_ptable_body_sim i j p st1 st2 Hsim) as Hb.
  destruct (gen_ptable_body cfg i p st1) as [a|e1],
           (gen_ptable_body cfg j p st2) as [b|e2]; simpl in *;
    try contradiction; [apply IH; exact Hb|exact Hb].
Qed.

Lemma gen_gptable_body_sim i j p st1 st2 :
  gpt_sim st1 st2 ->
  same_result gpt_sim (gen_gptable_body cfg g i p st1)
    (gen_gptable_body cfg g j p st2).
Proof.
  intros [Hs Ho]. unfold gen_gptable_body.
  destruct (size p =? 0).
  - destruct (ignore_null_sized_partition cfg); simpl; [split; assumption|reflexivity].
  - rewrite Hs. destruct (gpt_start cfg (g_sect st2) p) as [s|e]; simpl;
      [|reflexivity].
    destruct (gpt_out_of_space cfg s p); simpl; [reflexivity|].
    destruct (gpt_hybrid cfg i p s _ (g_pte st1) (g_pmbr st1)) as [t1 pm1].
    destruct (gpt_hybrid cfg j p s _ (g_pte st2) (g_pmbr st2)) as [t2 pm2].
    split; simpl; [reflexivity|]. rewrite Ho. reflexivity.
Qed.

Lemma gen_gptable_loop_sim (l : list partinfo) : forall i j st1 st2,
  gpt_sim st1 st2 ->
  same_result gpt_sim (gen_gptable_loop cfg g i l st1)
    (gen_gptable_loop cfg g j l st2).
Proof.
  induction l as [|p l IH]; intros i j st1 st2 Hsim; simpl; [exact Hsim|].
  pose proof (gen_gptable_body_sim i j p st1 st2 Hsim) as Hb.
  destruct (gen_gptable_body cfg g i p st1) as [a|e1],
           (gen_gptable_body cfg g j p st2) as [b|e2]; simpl in *;
    try contradiction; [apply IH; exact Hb|exact Hb].
Qed.

(** With the skip policy a request of size zero leaves the layout as it is
    without the request. *)
Lemma mbr_layout_skip (pre post : list partinfo) z :
  size z = 0 -> ignore_null_sized_partition cfg = true ->
  mbr_layout cfg (pre ++ z :: post) = mbr_layout cfg (pre ++ post).
Proof.
  intros Hz Hig. unfold mbr_layout. rewrite !gen_ptable_loop_app.
  destruct (gen_ptable_loop cfg 0 pre mbr_init) as [st|e]; simpl; [|reflexivity].
  unfold gen_ptable_body at 1. rewrite Hz, Hig. simpl.
  pose proof (gen_ptable_loop_sim post (S (length pre)) (length pre) st st
                (conj eq_refl eq_refl)) as Hsim.
  destruct (gen_ptable_loop cfg (S (length pre)) post st) as [a|e1],
           (gen_ptable_loop cfg (length pre) post st) as [b|e2]; simpl in *;
    try contradiction.
  - destruct Hsim as [-> ->]. reflexivity.
  - rewrite Hsim. reflexivity.
Qed.

Lemma gpt_layout_skip (pre post : list partinfo) z :
  size z = 0 -> ignore_null_sized_partition cfg = true ->
  gpt_layout cfg g (pre ++ z :: post) = gpt_layout cfg g (pre ++ post).
Proof.
  intros Hz Hig. unfold gpt_layout. rewrite !gen_gptable_loop_app.
  pose proof (gen_gptable_loop_sim pre 0 0
                (gpt_init cfg (pre ++ z :: post)) (gpt_init cfg (pre ++ post))
                (conj eq_refl eq_refl)) as Hpre.
  destruct (gen_gptable_loop cfg g 0 pre (gpt_init cfg (pre ++ z :: post)))
    as [st1|e1],
    (gen_gptable_loop cfg g 0 pre (gpt_init cfg (pre ++ post))) as [st2|e2];
    simpl in *; try contradiction; [|rewrite Hpre; reflexivity].
  unfold gen_gptable_body at 1. rewrite Hz, Hig. simpl.
  pose proof (gen_gptable_loop_sim post (S (length pre)) (length pre) st1 st2
                Hpre) as Hsim.
  destruct (gen_gptable_loop cfg g (S (length pre)) post st1) as [a|e1],
           (gen_gptable_loop cfg g (length pre) post st2) as [b|e2];
    simpl in *; try contradiction.
  - destruct Hsim as [-> ->]. reflexivity.
  - rewrite Hsim. reflexivity.
Qed.

(** Without the skip policy a run over a list that holds a request of size
    zero fails, whatever comes before the request. *)
Lemma gen_ptable_loop_zero_fails (pre post : list partinfo) z :
  size z = 0 -> ignore_null_sized_partition cfg = false ->
  forall i st, exists e, gen_ptable_loop cfg i (pre ++ z :: post) st = Err e.
Proof.
  intros Hz Hig. induction pre as [|p pre IH]; intros i st; simpl.
  - unfold gen_ptable_body. rewrite Hz, Hig. simpl. eauto.
  - destruct (gen_ptable_body cfg i p st) as [st1|e]; simpl; eauto.
Qed.

Lemma gen_gptable_loop_zero_fails (pre post : list partinfo) z :
  size z = 0 -> ignore_null_sized_partition cfg = false ->
  forall i st, exists e, gen_gptable_loop cfg g i (pre ++ z :: post) st = Err e.
Proof.
  intros Hz Hig. induction pre as [|p pre IH]; intros i st; simpl.
  - unfold gen_gptable_body. rewrite Hz, Hig. simpl. eauto.
  - destruct (gen_gptable_body cfg g i p st) as [st1|e]; simpl; eauto.
Qed.
End Layout_only.

(** C3: a list of requests that holds a request of size zero.  Without the
    skip policy the run fails and its trace is empty: no file is opened; the
    failure is [InvalidPartition] as soon as the requests before it are laid
    out.  With the skip policy the request leaves the state of the loop as it
    is (cursor, tables and printed lines), and the layout of the whole list is
    the layout of the list without the request. *)
Theorem C3_zero_sized cfg fname sig g (pre post : list partinfo) (z : partinfo) :
  size z = 0 ->
  (ignore_null_sized_partition cfg = false ->
     (exists e, gen_ptable cfg fname sig (pre ++ z :: post) = ([], Err e))
     /\ (exists e, gen_gptable cfg fname sig g (pre ++ z :: post) = ([], Err e))
     /\ (forall mst, gen_ptable_loop cfg 0 pre mbr_init = Ok mst ->
           gen_ptable cfg fname sig (pre ++ z :: post)
           = ([], Err InvalidPartition))
     /\ (forall gst,
           gen_gptable_loop cfg g 0 pre (gpt_init cfg (pre ++ z :: post)) = Ok gst ->
           gen_gptable cfg fname sig g (pre ++ z :: post)
           = ([], Err InvalidPartition)))
  /\ (ignore_null_sized_partition cfg = true ->
        (forall i mst, gen_ptable_body cfg i z mst = Ok mst)
        /\ (forall i gst, gen_gptable_body cfg g i z gst = Ok gst)
        /\ mbr_layout cfg (pre ++ z :: post) = mbr_layout cfg (pre ++ post)
        /\ gpt_layout cfg g (pre ++ z :: post) = gpt_layout cfg g (pre ++ post)).
Proof.
  intros Hz. split; intros Hig.
  - split; [|split; [|split]].
    + destruct (gen_ptable_loop_zero_fails cfg pre post z Hz Hig 0%nat mbr_init)
        as [e He].
      exists e. apply gen_ptable_fails, He.
    + destruct (gen_gptable_loop_zero_fails cfg g pre post z Hz Hig 0%nat
                  (gpt_init cfg (pre ++ z :: post))) as [e He].
      exists e. apply gen_gptable_fails, He.
    + intros mst Hpre. apply gen_ptable_fails.
      rewrite gen_ptable_loop_app, Hpre. simpl.
      unfold gen_ptable_body. rewrite Hz, Hig. reflexivity.
    + intros gst Hpre. apply gen_gptable_fails.
      rewrite gen_gptable_loop_app, Hpre. simpl.
      unfold gen_gptable_body. rewrite Hz, Hig. reflexivity.
  - split; [|split; [|split]].
    + intros i mst. unfold gen_ptable_body. rewrite Hz, Hig. reflexivity.
    + intros i gst. unfold gen_gptable_body. rewrite Hz, Hig. reflexivity.
    + apply mbr_layout_skip; assumption.
    + apply gpt_layout_skip; assumption.
Qed.

(** ** Names *)

Lemma holds_from_spec (P : Z -> bool) (n : nat) : forall lo,
  holds_from P n lo = true ->
  forall c, lo <= c < lo + Z.of_nat n -> P c = true.
Proof.
  induction n as [|n IH]; intros lo H c Hc; [lia|].
  simpl in H. apply andb_prop in H as [H0 H1].
  destruct (Z.eq_dec c lo) as [->|Hne]; [exact H0|].
  apply (IH (lo + 1) H1). lia.
Qed.

Lemma forallb_below (P : Z -> bool) (n : Z) :
  holds_from P (Z.to_nat n) 0 = true ->
  forall c, 0 <= c < n -> P c = true.
Proof.
  intros H c Hc. apply (holds_from_spec P (Z.to_nat n) 0 H). lia.
Qed.

Lemma ascii_step_ok_all (c : Z) : 0 <= c < 256 -> ascii_step_ok c = true.
Proof. apply (forallb_below ascii_step_ok 256). vm_compute. reflexivity. Qed.




Lemma str_at_app_r (pre str : list Z) (k : nat) :
  str_at (pre ++ str) (length pre + k) = str_at str k.
Proof. unfold str_at. apply app_nth2_plus. Qed.




(** The loop on a string of ASCII characters copies them and, when room is
    left, ends them with a zero unit. *)
Lemma init_utf16_loop_ascii (s : list Z) :
  Forall is_ascii s ->
  forall (k : nat) (front back pre : list Z),
    (length s <= k)%nat -> length back = k ->
    init_utf16_loop (pre ++ s) k (length front) (length pre) (front ++ back)
    = front ++ s ++ drop (length s) (<[length s := 0]> back).
Proof.
  induction 1 as [|b s Hb Hs IH]; intros k front back pre Hk Hback.
  - destruct k as [|k]; simpl.
    + destruct back; [reflexivity|discriminate].
    + unfold utf16_step.
      replace (str_at (pre ++ []) (length pre)) with 0
        by (unfold str_at; rewrite app_nil_r, nth_overflow; [reflexivity|lia]).
      simpl.
      rewrite <- (Nat.add_0_r (length front)), insert_app_r. reflexivity.
  - destruct k as [|k]; [simpl in Hk; lia|].
    destruct back as [|x back]; [discriminate|].
    simpl in Hk, Hback.
    cbn [init_utf16_loop].
    assert (Hstep : utf16_step (pre ++ b :: s) (length pre)
                    = Some (b, S (length pre))).
    { unfold utf16_step.
      replace (str_at (pre ++ b :: s) (length pre)) with b
        by (rewrite <- (Nat.add_0_r (length pre)), str_at_app_r; reflexivity).
      pose proof (ascii_step_ok_all b ltac:(unfold is_ascii in Hb; lia)) as Hok.
      unfold ascii_step_ok in Hok.
      replace (0 <? b) with true in Hok
        by (symmetry; apply Z.ltb_lt; unfold is_ascii in Hb; lia).
      replace (b <? 128) with true in Hok
        by (symmetry; apply Z.ltb_lt; unfold is_ascii in Hb; lia).
      simpl in Hok.
      apply andb_prop in Hok as [Hok Hu]. apply andb_prop in Hok as [Hz Ha].
      apply negb_true_iff in Hz. rewrite Hz, Ha.
      apply Z.eqb_eq in Hu. rewrite Hu. reflexivity. }
    rewrite Hstep.
    rewrite <- (Nat.add_0_r (length front)) at 2. rewrite insert_app_r. simpl.
    replace (pre ++ b :: s) with ((pre ++ [b]) ++ s)
      by (rewrite <- app_assoc; reflexivity).
    replace (front ++ b :: back) with ((front ++ [b]) ++ back)
      by (rewrite <- app_assoc; reflexivity).
    replace (S (length front)) with (length (front ++ [b]))
      by (rewrite length_app; simpl; lia).
    replace (S (length pre)) with (length (pre ++ [b]))
      by (rewrite length_app; simpl; lia).
    rewrite IH by lia.
    rewrite <- app_assoc. reflexivity.
Qed.







(** ** Byte images *)

Lemma le_bytes_length (n : nat) : forall v, length (le_bytes n v) = n.
Proof. induction n as [|n IH]; intros v; simpl; [reflexivity|]. rewrite IH. reflexivity. Qed.

Lemma le_decode_le_bytes_4 (x : Z) :
  0 <= x < 2 ^ 32 -> le_decode (le_bytes 4 x) = x.
Proof.
  intros H. cbn [le_bytes le_decode].
  pose proof (Z.div_mod x 256 ltac:(lia)).
  pose proof (Z.div_mod (x / 256) 256 ltac:(lia)).
  pose proof (Z.div_mod (x / 256 / 256) 256 ltac:(lia)).
  assert (x / 256 / 256 / 256 < 256).
  { rewrite !Z.div_div by lia. apply Z.div_lt_upper_bound; lia. }
  assert (0 <= x / 256 / 256 / 256).
  { rewrite !Z.div_div by lia. apply Z.div_pos; lia. }
  rewrite (Z.mod_small (x / 256 / 256 / 256)) by lia. lia.
Qed.

Ltac split_guid g H :=
  do 16 (destruct g as [|? g]; [discriminate H|]);
  destruct g; [|discriminate H].

Lemma gpth_bytes_length (h : gpth) :
  length (h_disk_guid h) = 16%nat -> length (gpth_bytes h) = 92%nat.
Proof.
  intros H. unfold gpth_bytes. rewrite !length_app, !le_bytes_length, H.
  reflexivity.
Qed.

Lemma header_crc_field_bytes (h : gpth) :
  0 <= h_crc32 h < 2 ^ 32 -> header_crc_field (gpth_bytes h) = h_crc32 h.
Proof.
  intros H. unfold header_crc_field, gpth_bytes.
  cbn [le_bytes app drop take].
  apply (le_decode_le_bytes_4 _ H).
Qed.

Lemma header_entry_crc_field_bytes (h : gpth) :
  length (h_disk_guid h) = 16%nat -> 0 <= h_entry_crc32 h < 2 ^ 32 ->
  header_entry_crc_field (gpth_bytes h) = h_entry_crc32 h.
Proof.
  destruct h as [sg rv sz cr rs sf al fu lu dg fe en es ec].
  cbn [h_disk_guid h_entry_crc32]. intros Hg H.
  split_guid dg Hg.
  unfold header_entry_crc_field, gpth_bytes.
  cbn [le_bytes app drop take h_signature h_revision h_size h_crc32 h_reserved
       h_self h_alternate h_first_usable h_last_usable h_disk_guid
       h_first_entry h_entry_num h_entry_size h_entry_crc32].
  apply (le_decode_le_bytes_4 _ H).
Qed.

Lemma zero_crc_field_bytes (h : gpth) :
  zero_crc_field (gpth_bytes h) = gpth_bytes (set_crc32 0 h).
Proof.
  unfold zero_crc_field, gpth_bytes.
  cbn [le_bytes app drop take set_crc32 h_signature h_revision h_size h_crc32
       h_reserved h_self h_alternate h_first_usable h_last_usable h_disk_guid
       h_first_entry h_entry_num h_entry_size h_entry_crc32].
  reflexivity.
Qed.

Lemma set_crc32_zero_back (c : Z) (h0 : gpth) :
  h_crc32 h0 = 0 -> set_crc32 0 (set_crc32 c h0) = h0.
Proof. destruct h0; cbn. intros ->. reflexivity. Qed.

(** A header whose checksum is computed while the field holds zero, and then
    stored, is consistent with the entry array its other checksum was taken
    from. *)
Lemma crc_consistent_store (h0 : gpth) (ents : list Z) :
  h_crc32 h0 = 0 -> length (h_disk_guid h0) = 16%nat ->
  h_entry_crc32 h0 = u32 (gpt_crc32 ents) ->
  crc_consistent (gpth_bytes (set_crc32 (u32 (gpt_crc32 (gpth_bytes h0))) h0))
    ents.
Proof.
  intros Hz Hg He. split; [|split].
  - apply gpth_bytes_length. exact Hg.
  - rewrite zero_crc_field_bytes, set_crc32_zero_back by exact Hz.
    rewrite header_crc_field_bytes by (apply u32_range).
    symmetry. apply gpt_crc32_is_crc32.
  - rewrite header_entry_crc_field_bytes.
    + change (crc32 ents = h_entry_crc32 h0).
      rewrite He. symmetry. apply gpt_crc32_is_crc32.
    + exact Hg.
    + change (0 <= h_entry_crc32 h0 < 2 ^ 32). rewrite He. apply u32_range.
Qed.

(** ** Invariants of the GPT loop *)

(** What an iteration that succeeds has done. *)
Lemma gen_gptable_body_inv cfg g i p st st' :
  gen_gptable_body cfg g i p st = Ok st' ->
  (size p = 0 /\ st' = st)
  \/ (size p <> 0 /\ exists start_,
        gpt_start cfg (g_sect st) p = Ok start_
        /\ gpt_out_of_space cfg start_ p = false
        /\ st' = mk_gpt_state (requested_end start_ p)
                   (fst (gpt_hybrid cfg i p start_ (requested_end start_ p)
                           (g_pte st) (g_pmbr st)))
                   (<[i := gpt_entry cfg g i p start_ (requested_end start_ p)
                             (gpte_at (g_gpte st) i)]> (g_gpte st))
                   (snd (gpt_hybrid cfg i p start_ (requested_end start_ p)
                           (g_pte st) (g_pmbr st)))
                   (<[i := set_actual_start start_ p]> (g_parts st))
                   (g_out st ++ [u64 (start_ * DISK_SECTOR_SIZE);
                                 u64 (u64 (requested_end start_ p - start_)
                                      * DISK_SECTOR_SIZE)])).
Proof.
  unfold gen_gptable_body, requested_end. intros H.
  destruct (size p =? 0) eqn:E.
  - left. apply Z.eqb_eq in E.
    destruct (ignore_null_sized_partition cfg); [|discriminate].
    injection H as <-. split; [exact E|reflexivity].
  - right. apply Z.eqb_neq in E. split; [exact E|].
    destruct (gpt_start cfg (g_sect st) p) as [s|e]; simpl in H; [|discriminate].
    exists s. split; [reflexivity|].
    destruct (gpt_out_of_space cfg s p); [discriminate|].
    split; [reflexivity|].
    destruct (gpt_hybrid cfg i p s _ (g_pte st) (g_pmbr st)) as [t pm].
    injection H as <-. reflexivity.
Qed.

(** Induction over the loop with an invariant that may name the index. *)
Lemma gen_gptable_loop_ind cfg g (I : nat -> gpt_state -> Prop)
    (l : list partinfo) : forall i st st',
  I i st ->
  (forall j p st1 st2,
     (i <= j < i + length l)%nat -> l !! (j - i)%nat = Some p ->
     I j st1 -> gen_gptable_body cfg g j p st1 = Ok st2 -> I (S j) st2) ->
  gen_gptable_loop cfg g i l st = Ok st' ->
  I (i + length l)%nat st'.
Proof.
  induction l as [|p l IH]; intros i st st' Hi Hstep Hloop; simpl in Hloop.
  - injection Hloop as <-. simpl. rewrite Nat.add_0_r. exact Hi.
  - destruct (gen_gptable_body cfg g i p st) as [st1|e] eqn:E; simpl in Hloop;
      [|discriminate].
    replace (i + length (p :: l))%nat with (S i + length l)%nat by (simpl; lia).
    apply (IH (S i) st1 st'); [| |exact Hloop].
    + apply (Hstep i p st st1); [simpl; lia| |exact Hi|exact E].
      rewrite Nat.sub_diag. reflexivity.
    + intros j q st2 st3 Hj Hq. apply Hstep; [simpl; lia|].
      replace (j - i)%nat with (S (j - S i)) by lia. exact Hq.
Qed.

Lemma gpt_hybrid_length cfg i p s e (t : list pte) pm :
  length (fst (gpt_hybrid cfg i p s e t pm)) = length t.
Proof.
  unfold gpt_hybrid.
  destruct (negb (hybrid p =? 0) && (Z.of_nat pm <? MBR_ENTRY_MAX)); simpl;
    [|reflexivity].
  rewrite !length_insert. reflexivity.
Qed.

Lemma gen_gptable_loop_lengths cfg g (l : list partinfo) i st st' :
  gen_gptable_loop cfg g i l st = Ok st' ->
  length (g_pte st') = length (g_pte st)
  /\ length (g_gpte st') = length (g_gpte st).
Proof.
  intros H.
  apply (gen_gptable_loop_ind cfg g
           (fun _ s => length (g_pte s) = length (g_pte st)
                       /\ length (g_gpte s) = length (g_gpte st))
           l i st st'); [split; reflexivity| |exact H].
  intros j p st1 st2 _ _ [H1 H2] Hb.
  apply gen_gptable_body_inv in Hb as [[_ ->]|(_ & s & _ & _ & ->)];
    [split; assumption|].
  cbn [g_pte g_gpte]. rewrite gpt_hybrid_length, length_insert.
  split; assumption.
Qed.

Lemma init_utf16_loop_length (str : list Z) (k : nat) : forall i n buf,
  length (init_utf16_loop str k i n buf) = length buf.
Proof.
  induction k as [|k IH]; intros i n buf; simpl; [reflexivity|].
  destruct (utf16_step str n) as [[u n']|].
  - rewrite IH. apply length_insert.
  - apply length_insert.
Qed.

Lemma gpte_at_wf (t : list gpte) (k : nat) :
  Forall gpte_wf t -> gpte_wf (gpte_at t k).
Proof.
  intros H. unfold gpte_at. destruct (t !! k) as [e|] eqn:E; simpl.
  - eapply Forall_lookup_1; eassumption.
  - repeat split.
Qed.

Lemma gpt_entry_wf cfg g i p s e old :
  length g = 16%nat -> length (guid p) = 16%nat -> gpte_wf old ->
  gpte_wf (gpt_entry cfg g i p s e old).
Proof.
  intros Hg Hp (H1 & H2 & H3). unfold gpt_entry, gpte_wf.
  cbn [e_type e_guid e_name].
  split; [exact Hp|]. split.
  - unfold guid_add_last. rewrite length_insert. exact Hg.
  - destruct (name p); [|exact H3].
    unfold init_utf16. rewrite init_utf16_loop_length. exact H3.
Qed.

Lemma gen_gptable_loop_wf cfg g (l : list partinfo) i st st' :
  length g = 16%nat -> Forall (fun p => length (guid p) = 16%nat) l ->
  Forall gpte_wf (g_gpte st) ->
  gen_gptable_loop cfg g i l st = Ok st' ->
  Forall gpte_wf (g_gpte st').
Proof.
  intros Hg Hl Hst H.
  apply (gen_gptable_loop_ind cfg g (fun _ s => Forall gpte_wf (g_gpte s))
           l i st st'); [exact Hst| |exact H].
  intros j p st1 st2 _ Hp H1 Hb.
  apply gen_gptable_body_inv in Hb as [[_ ->]|(_ & s & _ & _ & ->)];
    [assumption|].
  cbn [g_gpte]. apply Forall_insert; [exact H1|].
  apply gpt_entry_wf; [exact Hg| |apply gpte_at_wf, H1].
  exact (Forall_lookup_1 _ l _ _ Hl Hp).
Qed.

Lemma gpte_bytes_length (e : gpte) :
  gpte_wf e -> length (gpte_bytes e) = 128%nat.
Proof.
  intros (H1 & H2 & H3). unfold gpte_bytes.
  rewrite !length_app, !le_bytes_length, H1, H2.
  assert (Hn : forall l : list Z, length (concat (map (le_bytes 2) l))
                                  = (2 * length l)%nat).
  { induction l as [|x l IH]; [reflexivity|].
    cbn [map concat length]. rewrite length_app, le_bytes_length, IH. lia. }
  rewrite Hn, H3. reflexivity.
Qed.

Lemma gpte_array_bytes_length (t : list gpte) :
  Forall gpte_wf t -> length (gpte_array_bytes t) = (128 * length t)%nat.
Proof.
  unfold gpte_array_bytes. induction 1 as [|e t He Ht IH]; [reflexivity|].
  cbn [map concat length].
  rewrite length_app, gpte_bytes_length, IH by exact He. lia.
Qed.

(** ** What [gen_gptable] writes *)

(** The blocks of a GPT run, in the order of its [write] calls: the disk
    signature, the four MBR entries, the boot signature, the header, the byte
    that pads its sector, the entry array; then, for the alternate table, the
    entry array, the alternate header and its padding byte. *)
Lemma gpt_emit_blocks cfg fname sig tb :
  written_blocks (gpt_emit cfg fname sig tb)
  = [le_bytes 4 sig; pte_array_bytes (t_pte tb); [0x55; 0xaa];
     gpth_bytes (t_gpth tb); [0x00]; gpte_array_bytes (t_gpte tb)]
    ++ (if gpt_alternate cfg
        then [gpte_array_bytes (t_gpte tb);
              gpth_bytes (gpth_alternate (t_end tb) (t_gpth tb)); [0x00]]
        else []).
Proof.
  unfold gpt_emit.
  destruct (gpt_split_image cfg), (gpt_alternate cfg),
    (gpt_first_entry_sector cfg =? GPT_FIRST_ENTRY_SECTOR); reflexivity.
Qed.

(** The trace of [gpt_emit]: the files and, for each block, the position it
    is written at. *)
Lemma gpt_emit_trace cfg fname sig tb :
  let ents := gpte_array_bytes (t_gpte tb) in
  let hdr' := gpth_bytes (gpth_alternate (t_end tb) (t_gpth tb)) in
  let p1 := lands 1024 (s64 (u64 (gpt_first_entry_sector cfg * DISK_SECTOR_SIZE))) in
  let p2 := lands (p1 + Z.of_nat (length ents))
              (s64 (u64 (t_end tb * DISK_SECTOR_SIZE
                         - GPT_ENTRY_SIZE * GPT_ENTRY_MAX))) in
  let p3 := lands (p2 + Z.of_nat (length ents))
              (s64 (u64 (t_end tb * DISK_SECTOR_SIZE))) in
  let p4 := lands (p3 + Z.of_nat (length hdr'))
              (s64 (u64 (u64 (t_end tb + 1) * DISK_SECTOR_SIZE - 1))) in
  (gpt_split_image cfg = false ->
   gpt_emit cfg fname sig tb
   = [EvOpen fname;
      EvWrite fname 440 (le_bytes 4 sig);
      EvWrite fname 446 (pte_array_bytes (t_pte tb));
      EvWrite fname 510 [0x55; 0xaa];
      EvWrite fname 512 (gpth_bytes (t_gpth tb));
      EvWrite fname 1023 [0x00];
      EvWrite fname p1 ents]
     ++ (if gpt_alternate cfg
         then [EvWrite fname p2 ents; EvWrite fname p3 hdr';
               EvWrite fname p4 [0x00]]
         else []))
  /\ (gpt_split_image cfg = true ->
      gpt_emit cfg fname sig tb
      = [EvOpen (fname ++ ".start")%string;
         EvWrite (fname ++ ".start")%string 440 (le_bytes 4 sig);
         EvWrite (fname ++ ".start")%string 446 (pte_array_bytes (t_pte tb));
         EvWrite (fname ++ ".start")%string 510 [0x55; 0xaa];
         EvWrite (fname ++ ".start")%string 512 (gpth_bytes (t_gpth tb));
         EvWrite (fname ++ ".start")%string 1023 [0x00]]
        ++ (if gpt_first_entry_sector cfg =? 2
            then [EvWrite (fname ++ ".start")%string 1024 ents]
            else [EvOpen (fname ++ ".entry")%string;
                  EvWrite (fname ++ ".entry")%string 0 ents])
        ++ (if gpt_alternate cfg
            then [EvOpen (fname ++ ".end")%string;
                  EvWrite (fname ++ ".end")%string 0 ents;
                  EvWrite (fname ++ ".end")%string 16384 hdr';
                  EvWrite (fname ++ ".end")%string 16895 [0x00]]
            else [])).
Proof.
  intros ents hdr' p1 p2 p3 p4. subst p1 p2 p3 p4. unfold lands, gpt_emit.
  split; intros Hs; rewrite Hs.
  - unfold io_open, io_write, io_lseek.
    cbn [negb orb fd_name fd_pos app].
    change (MBR_DISK_SIGNATURE_OFFSET <? 0) with false.
    change (MBR_PARTITION_ENTRY_OFFSET <? 0) with false.
    change (MBR_BOOT_SIGNATURE_OFFSET <? 0) with false.
    change (2 * DISK_SECTOR_SIZE - 1 <? 0) with false.
    cbn [fd_name fd_pos app].
    fold ents. fold hdr'.
    destruct (s64 (u64 (gpt_first_entry_sector cfg * DISK_SECTOR_SIZE)) <? 0),
      (s64 (u64 (t_end tb * DISK_SECTOR_SIZE - GPT_ENTRY_SIZE * GPT_ENTRY_MAX))
       <? 0),
      (s64 (u64 (t_end tb * DISK_SECTOR_SIZE)) <? 0),
      (s64 (u64 (u64 (t_end tb + 1) * DISK_SECTOR_SIZE - 1)) <? 0),
      (gpt_alternate cfg); reflexivity.
  - destruct (gpt_first_entry_sector cfg =? 2) eqn:E.
    + apply Z.eqb_eq in E. rewrite E.
      unfold io_open, io_write, io_lseek.
      cbn [negb orb fd_name fd_pos app].
      destruct (gpt_alternate cfg); reflexivity.
    + change GPT_FIRST_ENTRY_SECTOR with 2. rewrite E.
      unfold io_open, io_write, io_lseek.
      cbn [negb orb fd_name fd_pos app].
      destruct (gpt_alternate cfg); reflexivity.
Qed.

Lemma lands_nonneg (cur off : Z) : 0 <= off -> lands cur off = off.
Proof.
  intros H. unfold lands.
  destruct (off <? 0) eqn:E; [apply Z.ltb_lt in E; lia|reflexivity].
Qed.

(** Without the split, the alternate entry array and header go to the image
    itself, at the offsets the last two [lseek] calls compute from [end], when
    these offsets are not negative. *)
Lemma gpt_emit_alternate_offsets cfg fname sig tb :
  gpt_split_image cfg = false -> gpt_alternate cfg = true ->
  (0 <= s64 (u64 (t_end tb * DISK_SECTOR_SIZE - GPT_ENTRY_SIZE * GPT_ENTRY_MAX)) ->
   In (EvWrite fname
         (s64 (u64 (t_end tb * DISK_SECTOR_SIZE - GPT_ENTRY_SIZE * GPT_ENTRY_MAX)))
         (gpte_array_bytes (t_gpte tb)))
      (gpt_emit cfg fname sig tb))
  /\ (0 <= s64 (u64 (t_end tb * DISK_SECTOR_SIZE)) ->
      In (EvWrite fname (s64 (u64 (t_end tb * DISK_SECTOR_SIZE)))
            (gpth_bytes (gpth_alternate (t_end tb) (t_gpth tb))))
         (gpt_emit cfg fname sig tb)).
Proof.
  intros Hs Ha. destruct (gpt_emit_trace cfg fname sig tb) as [H _].
  rewrite (H Hs), Ha.
  split; intros H0; rewrite (lands_nonneg _ _ H0).
  - do 7 right. left. reflexivity.
  - do 8 right. left. reflexivity.
Qed.

(** The tables of a run that succeeds. *)
Lemma gpt_build_inv cfg g (parts : list partinfo) tb :
  gpt_build cfg g parts = Ok tb ->
  exists st,
    gen_gptable_loop cfg g 0 parts (gpt_init cfg parts) = Ok st
    /\ t_gpte tb = gpt_filler cfg g (g_parts st) (g_gpte st)
    /\ t_parts tb = g_parts st
    /\ t_last_usable tb = (if gpt_last_usable_sector cfg =? 0
                           then u64 (g_sect st - 1)
                           else gpt_last_usable_sector cfg)
    /\ t_end tb = u64 (t_last_usable tb + GPT_SIZE + 1)
    /\ t_pte tb = <[0%nat := mk_pte (pte_active (pte_at (g_pte st) 0))
                               (to_chs cfg GPT_HEADER_SECTOR) 0xEE
                               (to_chs cfg (s64 (t_end tb)))
                               (u32 GPT_HEADER_SECTOR)
                               (u32 (u64 (t_end tb + 1 - GPT_HEADER_SECTOR)))]>
                    (g_pte st)
    /\ t_gpth tb
       = (let h2 := set_entry_crc32 (u32 (gpt_crc32 (gpte_array_bytes (t_gpte tb))))
                      (set_last_alt (t_last_usable tb) (t_end tb)
                         (gpth_init cfg g)) in
          set_crc32 (u32 (gpt_crc32 (gpth_bytes h2))) h2).
Proof.
  unfold gpt_build. intros H.
  destruct (gen_gptable_loop cfg g 0 parts (gpt_init cfg parts)) as [st|e];
    simpl in H; [|discriminate].
  exists st. injection H as <-. cbn [t_gpte t_parts t_last_usable t_end t_pte t_gpth].
  repeat split.
Qed.

Lemma gpt_filler_wf cfg g (parts : list partinfo) (t : list gpte) :
  length g = 16%nat -> Forall gpte_wf t ->
  Forall gpte_wf (gpt_filler cfg g parts t)
  /\ length (gpt_filler cfg g parts t) = length t.
Proof.
  intros Hg Ht. unfold gpt_filler.
  destruct (gpt_filler_cond cfg parts); [|split; [exact Ht|reflexivity]].
  split; [|apply length_insert].
  apply Forall_insert; [exact Ht|].
  destruct (gpte_at_wf t 127 Ht) as (_ & _ & H3).
  split; [reflexivity|]. split; [|exact H3].
  cbn [e_guid]. unfold guid_add_last. rewrite length_insert. exact Hg.
Qed.

Lemma gen_gptable_inv cfg fname sig g (parts : list partinfo) tr out :
  gen_gptable cfg fname sig g parts = (tr, Ok out) ->
  exists tb, gpt_build cfg g parts = Ok tb
             /\ tr = gpt_emit cfg fname sig tb /\ out = t_out tb.
Proof.
  unfold gen_gptable. intros H.
  destruct (gpt_build cfg g parts) as [tb|e]; [|discriminate].
  exists tb. injection H as <- <-. repeat split.
Qed.

(** The entry array of a run is 128 entries of 128 bytes. *)
Lemma gpt_build_entries_length cfg g (parts : list partinfo) tb :
  length g = 16%nat -> Forall (fun p => length (guid p) = 16%nat) parts ->
  gpt_build cfg g parts = Ok tb ->
  length (gpte_array_bytes (t_gpte tb)) = (128 * 128)%nat.
Proof.
  intros Hg Hp Hb.
  destruct (gpt_build_inv _ _ _ _ Hb) as (st & Hloop & Hgpte & _).
  assert (Hwf0 : Forall gpte_wf (g_gpte (gpt_init cfg parts))).
  { cbn [gpt_init g_gpte]. apply Forall_replicate. repeat split. }
  pose proof (gen_gptable_loop_wf _ _ _ _ _ _ Hg Hp Hwf0 Hloop) as Hwf.
  destruct (gen_gptable_loop_lengths _ _ _ _ _ _ Hloop) as [_ Hlen].
  destruct (gpt_filler_wf cfg g (g_parts st) (g_gpte st) Hg Hwf) as [Hwf' Hlen'].
  rewrite Hgpte, gpte_array_bytes_length, Hlen', Hlen by exact Hwf'.
  reflexivity.
Qed.

(** C4: in the blocks of a GPT run that succeeds, the header (fourth block)
    and the entry array (sixth block, 128 times 128 bytes) are consistent: the
    CRC32 of the header with bytes 16 to 19 zeroed is the value stored in those
    bytes, and the CRC32 of the entry array is the value stored in bytes 88 to
    91.  With the alternate table, the same holds of the alternate header
    (eighth block) and the entry array written before it (seventh block).
    The CRC32 recomputed is the reference [crc32], the CRC-32 of the standards
    given by its parameters; [gpt_crc32_is_crc32] shows that the checksum the
    code stores is this one. *)
Theorem C4_crc_consistent cfg fname sig g (parts : list partinfo) tr out :
  length g = 16%nat -> Forall (fun p => length (guid p) = 16%nat) parts ->
  gen_gptable cfg fname sig g parts = (tr, Ok out) ->
  exists hdr ents,
    written_blocks tr !! 3%nat = Some hdr
    /\ written_blocks tr !! 5%nat = Some ents
    /\ length ents = (128 * 128)%nat
    /\ crc_consistent hdr ents
    /\ (gpt_alternate cfg = true ->
        exists hdr',
          written_blocks tr !! 6%nat = Some ents
          /\ written_blocks tr !! 7%nat = Some hdr'
          /\ crc_consistent hdr' ents).
Proof.
  intros Hg Hp Hrun.
  destruct (gen_gptable_inv _ _ _ _ _ _ _ Hrun) as (tb & Hb & -> & _).
  pose proof (gpt_build_entries_length _ _ _ _ Hg Hp Hb) as Hlen.
  destruct (gpt_build_inv _ _ _ _ Hb) as (st & _ & _ & _ & _ & _ & _ & Hh).
  exists (gpth_bytes (t_gpth tb)), (gpte_array_bytes (t_gpte tb)).
  rewrite gpt_emit_blocks.
  split; [reflexivity|]. split; [reflexivity|]. split; [exact Hlen|].
  split.
  - rewrite Hh. cbv zeta. apply crc_consistent_store; [reflexivity|exact Hg|reflexivity].
  - intros Ha. rewrite Ha.
    exists (gpth_bytes (gpth_alternate (t_end tb) (t_gpth tb))).
    split; [reflexivity|]. split; [reflexivity|].
    unfold gpth_alternate. cbv zeta.
    apply crc_consistent_store; [reflexivity|rewrite Hh; exact Hg|].
    rewrite Hh. reflexivity.
Qed.

(** C8: with the alternate table, the alternate header (eighth block) is the
    primary header (fourth block) with [self] and [alternate] exchanged, with
    [first_entry] set to the 32 sectors that end where the alternate header
    begins, and with its checksum taken afresh over the header so changed; the
    other fields, among them the checksum of the entry array, are those of the
    primary header, and the entry array written for the alternate table is the
    primary one.  Without the split the alternate array and header are written
    at the sectors the alternate header names, when the byte offsets of these
    sectors are not negative as [off_t], so that [lseek] accepts them. *)
Theorem C8_backup_header cfg fname sig g (parts : list partinfo) tr out :
  gpt_alternate cfg = true ->
  gen_gptable cfg fname sig g parts = (tr, Ok out) ->
  exists hp hb ents,
    written_blocks tr !! 3%nat = Some (gpth_bytes hp)
    /\ written_blocks tr !! 5%nat = Some ents
    /\ written_blocks tr !! 6%nat = Some ents
    /\ written_blocks tr !! 7%nat = Some (gpth_bytes hb)
    /\ h_self hp = GPT_HEADER_SECTOR
    /\ h_self hb = h_alternate hp
    /\ h_alternate hb = h_self hp
    /\ h_first_entry hb = u64 (h_self hb - GPT_SIZE)
    /\ h_crc32 hb = crc32 (gpth_bytes (set_crc32 0 hb))
    /\ h_entry_crc32 hb = h_entry_crc32 hp
    /\ h_entry_crc32 hp = crc32 ents
    /\ (h_signature hb = h_signature hp /\ h_revision hb = h_revision hp
        /\ h_size hb = h_size hp /\ h_reserved hb = h_reserved hp
        /\ h_first_usable hb = h_first_usable hp
        /\ h_last_usable hb = h_last_usable hp
        /\ h_disk_guid hb = h_disk_guid hp
        /\ h_entry_num hb = h_entry_num hp
        /\ h_entry_size hb = h_entry_size hp)
    /\ (gpt_split_image cfg = false ->
        (0 <= s64 (u64 (h_self hb * DISK_SECTOR_SIZE
                        - GPT_ENTRY_SIZE * GPT_ENTRY_MAX)) ->
         In (EvWrite fname
               (s64 (u64 (h_self hb * DISK_SECTOR_SIZE
                          - GPT_ENTRY_SIZE * GPT_ENTRY_MAX))) ents) tr)
        /\ (0 <= s64 (u64 (h_self hb * DISK_SECTOR_SIZE)) ->
            In (EvWrite fname (s64 (u64 (h_self hb * DISK_SECTOR_SIZE)))
                  (gpth_bytes hb)) tr)).
Proof.
  intros Ha Hrun.
  destruct (gen_gptable_inv _ _ _ _ _ _ _ Hrun) as (tb & Hb & -> & _).
  destruct (gpt_build_inv _ _ _ _ Hb) as (st & _ & _ & _ & _ & _ & _ & Hh).
  exists (t_gpth tb), (gpth_alternate (t_end tb) (t_gpth tb)),
         (gpte_array_bytes (t_gpte tb)).
  rewrite gpt_emit_blocks, Ha.
  assert (Halt : h_alternate (t_gpth tb) = t_end tb) by (rewrite Hh; reflexivity).
  assert (Hself : h_self (gpth_alternate (t_end tb) (t_gpth tb)) = t_end tb)
    by exact Halt.
  do 4 (split; [reflexivity|]).
  split; [rewrite Hh; reflexivity|].
  split; [reflexivity|]. split; [reflexivity|].
  split; [rewrite Hself; reflexivity|].
  split; [exact (gpt_crc32_is_crc32 _)|]. split; [reflexivity|].
  split; [rewrite Hh; exact (gpt_crc32_is_crc32 _)|].
  split; [repeat split|].
  intros Hs. rewrite Hself.
  apply gpt_emit_alternate_offsets; assumption.
Qed.

(** ** The filler entry *)

(** The iterations after the first leave [parts[0]] alone. *)
Lemma gen_gptable_loop_first_kept cfg g (l : list partinfo) i st st' :
  (1 <= i)%nat ->
  gen_gptable_loop cfg g i l st = Ok st' ->
  g_parts st' !! 0%nat = g_parts st !! 0%nat.
Proof.
  intros Hi H.
  apply (gen_gptable_loop_ind cfg g
           (fun _ s => g_parts s !! 0%nat = g_parts st !! 0%nat) l i st st');
    [reflexivity| |exact H].
  intros j p st1 st2 Hj _ H1 Hb.
  apply gen_gptable_body_inv in Hb as [[_ ->]|(_ & s & _ & _ & ->)];
    [assumption|].
  cbn [g_parts]. rewrite list_lookup_insert_ne by lia. exact H1.
Qed.

(** The iterations below index 127 leave the last slot of [gpte] alone. *)
Lemma gen_gptable_loop_last_kept cfg g (l : list partinfo) i st st' :
  (i + length l <= 127)%nat ->
  gen_gptable_loop cfg g i l st = Ok st' ->
  g_gpte st' !! 127%nat = g_gpte st !! 127%nat.
Proof.
  intros Hi H.
  apply (gen_gptable_loop_ind cfg g
           (fun _ s => g_gpte s !! 127%nat = g_gpte st !! 127%nat) l i st st');
    [reflexivity| |exact H].
  intros j p st1 st2 Hj _ H1 Hb.
  apply gen_gptable_body_inv in Hb as [[_ ->]|(_ & s & _ & _ & ->)];
    [assumption|].
  cbn [g_gpte]. rewrite list_lookup_insert_ne by lia. exact H1.
Qed.

(** [parts[0]] after the loop: its start is the requested one, and its actual
    start is the start the loop computed for it at the first usable sector, or
    is untouched when the request was skipped. *)
Lemma gen_gptable_loop_first cfg g (parts : list partinfo) st :
  gen_gptable_loop cfg g 0 parts (gpt_init cfg parts) = Ok st ->
  start (part_at (g_parts st) 0) = start (part_at parts 0)
  /\ (size (part_at parts 0) <> 0 ->
      gpt_start cfg (gpt_first_usable cfg) (part_at parts 0)
      = Ok (actual_start (part_at (g_parts st) 0)))
  /\ (size (part_at parts 0) = 0 ->
      actual_start (part_at (g_parts st) 0) = actual_start (part_at parts 0)).
Proof.
  destruct parts as [|p0 rest]; intros H.
  - simpl in H. injection H as <-. cbn. repeat split. intros Hn. exfalso. apply Hn. reflexivity.
  - cbn [gen_gptable_loop] in H.
    destruct (gen_gptable_body cfg g 0 p0 (gpt_init cfg (p0 :: rest)))
      as [st1|e] eqn:E; simpl in H; [|discriminate].
    pose proof (gen_gptable_loop_first_kept _ _ _ _ _ _ (Nat.le_refl 1) H) as Hk.
    assert (Hp : part_at (g_parts st) 0 = part_at (g_parts st1) 0)
      by (unfold part_at; rewrite Hk; reflexivity).
    rewrite !Hp.
    change (part_at (p0 :: rest) 0) with p0.
    assert (Hinit : g_sect (gpt_init cfg (p0 :: rest)) = gpt_first_usable cfg).
    { cbn [gpt_init g_sect]. unfold gpt_first_usable. f_equal. lia. }
    apply gen_gptable_body_inv in E as [[Hz ->]|(Hnz & s & Hs & _ & ->)].
    + change (part_at (g_parts (gpt_init cfg (p0 :: rest))) 0) with p0.
      split; [reflexivity|]. split; [intros Hn; contradiction|reflexivity].
    + change (part_at (g_parts (mk_gpt_state _ _ _ _
                                  (<[0%nat := set_actual_start s p0]>
                                     (g_parts (gpt_init cfg (p0 :: rest)))) _)) 0)
        with (set_actual_start s p0).
      rewrite Hinit in Hs. cbn [set_actual_start start actual_start].
      split; [reflexivity|]. split; [intros _; exact Hs|intros Hz; contradiction].
Qed.

Lemma gpte_at_insert (t : list gpte) (k : nat) (x : gpte) :
  (k < length t)%nat -> gpte_at (<[k := x]> t) k = x.
Proof.
  intros H. unfold gpte_at. rewrite list_lookup_insert_eq by exact H.
  reflexivity.
Qed.

(** C6: in a GPT build that succeeds, the last of the 128 entries is the
    filler exactly when the first request has an explicit start and its actual
    start lies beyond the first-entry sector plus the size of the entry array.
    The filler has the BIOS boot type, starts at that sector and ends one
    sector before the actual start of the first partition; otherwise the entry
    array is as the loop left it, with a last entry of zeros when there are
    fewer than 128 requests.  The actual start of the first request is the
    start the loop computed for it. *)
Theorem C6_bios_boot_filler cfg g (parts : list partinfo) tb :
  gpt_build cfg g parts = Ok tb ->
  let p0 := part_at parts 0 in
  let first := part_at (t_parts tb) 0 in
  (size p0 <> 0 ->
   gpt_start cfg (gpt_first_usable cfg) p0 = Ok (actual_start first))
  /\ ((start p0 <> 0 /\ gpt_first_usable cfg < actual_start first) ->
      e_type (gpte_at (t_gpte tb) 127) = GUID_PARTITION_BIOS_BOOT
      /\ e_start (gpte_at (t_gpte tb) 127)
         = u64 (gpt_first_entry_sector cfg + GPT_SIZE)
      /\ e_end (gpte_at (t_gpte tb) 127) = u64 (actual_start first - 1))
  /\ (~ (start p0 <> 0 /\ gpt_first_usable cfg < actual_start first) ->
      exists st,
        gen_gptable_loop cfg g 0 parts (gpt_init cfg parts) = Ok st
        /\ t_gpte tb = g_gpte st
        /\ ((length parts < 128)%nat -> gpte_at (t_gpte tb) 127 = zero_gpte)).
Proof.
  intros Hb p0 first.
  destruct (gpt_build_inv _ _ _ _ Hb) as (st & Hloop & Hgpte & Hparts & _).
  destruct (gen_gptable_loop_first _ _ _ _ Hloop) as (Hstart & Hlaid & _).
  destruct (gen_gptable_loop_lengths _ _ _ _ _ _ Hloop) as [_ Hlen].
  cbn [gpt_init g_gpte] in Hlen. rewrite length_replicate in Hlen.
  subst p0 first. rewrite Hparts.
  assert (Hcond : gpt_filler_cond cfg (g_parts st) = true
                  <-> (start (part_at parts 0) <> 0
                       /\ gpt_first_usable cfg
                          < actual_start (part_at (g_parts st) 0))).
  { unfold gpt_filler_cond. rewrite Hstart, andb_true_iff, negb_true_iff.
    rewrite Z.eqb_neq, Z.ltb_lt. reflexivity. }
  split; [exact Hlaid|]. split.
  - intros Hc. apply Hcond in Hc.
    rewrite Hgpte. unfold gpt_filler. rewrite Hc.
    rewrite !gpte_at_insert by lia.
    repeat split.
  - intros Hc. exists st. split; [exact Hloop|].
    assert (Hf : gpt_filler_cond cfg (g_parts st) = false).
    { destruct (gpt_filler_cond cfg (g_parts st)); [|reflexivity].
      exfalso. apply Hc, Hcond. reflexivity. }
    rewrite Hgpte. unfold gpt_filler. rewrite Hf.
    split; [reflexivity|].
    intros Hn. unfold gpte_at.
    assert (Hle : (0 + length parts <= 127)%nat) by lia.
    rewrite (gen_gptable_loop_last_kept _ _ _ _ _ _ Hle Hloop).
    reflexivity.
Qed.

(** ** The active partition *)

Lemma gen_ptable_loop_ind cfg (I : nat -> mbr_state -> Prop)
    (l : list partinfo) : forall i st st',
  I i st ->
  (forall j p st1 st2,
     (i <= j < i + length l)%nat ->
     I j st1 -> gen_ptable_body cfg j p st1 = Ok st2 -> I (S j) st2) ->
  gen_ptable_loop cfg i l st = Ok st' ->
  I (i + length l)%nat st'.
Proof.
  induction l as [|p l IH]; intros i st st' Hi Hstep Hloop; simpl in Hloop.
  - injection Hloop as <-. simpl. rewrite Nat.add_0_r. exact Hi.
  - destruct (gen_ptable_body cfg i p st) as [st1|e] eqn:E; simpl in Hloop;
      [|discriminate].
    replace (i + length (p :: l))%nat with (S i + length l)%nat by (simpl; lia).
    apply (IH (S i) st1 st'); [| |exact Hloop].
    + apply (Hstep i p st st1); [simpl; lia|exact Hi|exact E].
    + intros j q st2 st3 Hj. apply Hstep. simpl. lia.
Qed.

Lemma pte_at_active (t : list pte) (k : nat) :
  Forall (fun e => pte_active e = 0) t -> pte_active (pte_at t k) = 0.
Proof.
  intros H. unfold pte_at. destruct (t !! k) as [e|] eqn:E; simpl; [|reflexivity].
  exact (Forall_lookup_1 _ t _ _ H E).
Qed.

Lemma gen_ptable_loop_inactive cfg (l : list partinfo) i st st' :
  active cfg = 0 ->
  Forall (fun e => pte_active e = 0) (m_pte st) ->
  gen_ptable_loop cfg i l st = Ok st' ->
  Forall (fun e => pte_active e = 0) (m_pte st').
Proof.
  intros Ha Hst H.
  apply (gen_ptable_loop_ind cfg
           (fun _ s => Forall (fun e => pte_active e = 0) (m_pte s)) l i st st');
    [exact Hst| |exact H].
  intros j p st1 st2 _ H1 Hb. unfold gen_ptable_body in Hb.
  destruct (size p =? 0).
  - destruct (ignore_null_sized_partition cfg); [|discriminate].
    injection Hb as <-. exact H1.
  - destruct (mbr_start cfg (m_sect st1) p) as [s|e]; simpl in Hb; [|discriminate].
    injection Hb as <-. cbn [m_pte]. apply Forall_insert; [exact H1|].
    cbn [pte_active]. rewrite Ha.
    destruct (Z.of_nat j + 1 =? 0) eqn:E; [apply Z.eqb_eq in E; lia|reflexivity].
Qed.

Lemma index_is_not_active cfg (j : nat) :
  active cfg = 0 -> (j < 128)%nat ->
  (u32 (Z.of_nat j + 1) =? u32 (active cfg)) = false.
Proof.
  intros Ha Hj. rewrite Ha. apply Z.eqb_neq.
  rewrite u32_small by lia. unfold u32. rewrite Z.mod_0_l by lia. lia.
Qed.

Lemma gpt_hybrid_inactive cfg j p s e (t : list pte) pm :
  active cfg = 0 -> (j < 128)%nat ->
  Forall (fun e => pte_active e = 0) t ->
  Forall (fun e => pte_active e = 0) (fst (gpt_hybrid cfg j p s e t pm)).
Proof.
  intros Ha Hj Ht. unfold gpt_hybrid.
  destruct (negb (hybrid p =? 0) && (Z.of_nat pm <? MBR_ENTRY_MAX));
    cbn [fst]; [|exact Ht].
  rewrite (index_is_not_active cfg j Ha Hj).
  assert (H1 : Forall (fun e => pte_active e = 0)
                 (<[pm := set_pte_lba 0 (u8 (type p)) (u32 s)
                            (u32 (u64 (e - s))) (pte_at t pm)]> t)).
  { apply Forall_insert; [exact Ht|reflexivity]. }
  apply Forall_insert; [exact H1|].
  cbn [set_pte_chs pte_active]. apply pte_at_active, H1.
Qed.

(** The attribute word of an entry when no request is the active one: the raw
    attributes of the request, with bit 0 added for a required partition. *)
Lemma gpt_entry_attr_inactive cfg g j p s e old :
  active cfg = 0 -> (j < 128)%nat ->
  e_attr (gpt_entry cfg g j p s e old)
  = (if negb (required p =? 0) then Z.lor (gattr p) 1 else gattr p).
Proof.
  intros Ha Hj. unfold gpt_entry. cbn [e_attr].
  rewrite (index_is_not_active cfg j Ha Hj). reflexivity.
Qed.

Lemma gen_gptable_loop_inactive cfg g (l : list partinfo) st st' :
  active cfg = 0 -> (length l <= 128)%nat ->
  Forall (fun e => pte_active e = 0) (g_pte st) ->
  gen_gptable_loop cfg g 0 l st = Ok st' ->
  Forall (fun e => pte_active e = 0) (g_pte st')
  /\ (Forall (fun p => Z.testbit (gattr p) 2 = false) l ->
      Forall (fun e => Z.testbit (e_attr e) 2 = false) (g_gpte st) ->
      Forall (fun e => Z.testbit (e_attr e) 2 = false) (g_gpte st')).
Proof.
  intros Ha Hl Hst H. split.
  - apply (gen_gptable_loop_ind cfg g
             (fun _ s => Forall (fun e => pte_active e = 0) (g_pte s))
             l 0%nat st st'); [exact Hst| |exact H].
    intros j p st1 st2 Hj _ H1 Hb.
    apply gen_gptable_body_inv in Hb as [[_ ->]|(_ & s & _ & _ & ->)];
      [assumption|].
    cbn [g_pte]. apply gpt_hybrid_inactive; [exact Ha|lia|exact H1].
  - intros Hraw Hst2.
    apply (gen_gptable_loop_ind cfg g
             (fun _ s => Forall (fun e => Z.testbit (e_attr e) 2 = false)
                           (g_gpte s))
             l 0%nat st st'); [exact Hst2| |exact H].
    intros j p st1 st2 Hj Hp H1 Hb.
    apply gen_gptable_body_inv in Hb as [[_ ->]|(_ & s & _ & _ & ->)];
      [assumption|].
    cbn [g_gpte]. apply Forall_insert; [exact H1|].
    rewrite gpt_entry_attr_inactive by (try exact Ha; lia).
    pose proof (Forall_lookup_1 _ l _ _ Hraw Hp) as Hbit. cbn beta in Hbit.
    destruct (negb (required p =? 0)); [|exact Hbit].
    rewrite Z.lor_spec, Hbit. reflexivity.
Qed.

(** C9: an active index that is negative or above the capacity of the table
    (4 entries for MBR, 128 for GPT) is put to 0 by [main] before the table is
    generated.  Then no entry of the MBR has the active byte (in either mode,
    the hybrid entries included), no entry of the GPT is given the
    legacy-BIOS-bootable bit: its attributes are the raw attributes of the
    request, with bit 0 for a required partition, so that bit 2 is clear in
    every entry when it is clear in the raw attributes of every request. *)
Theorem C9_active_out_of_range cfg g (parts : list partinfo) :
  (active cfg < 0
   \/ (if use_guid_partition_table cfg then GPT_ENTRY_MAX else MBR_ENTRY_MAX)
      < active cfg) ->
  (length parts <= 128)%nat ->
  active (check_active cfg) = 0
  /\ (forall st,
        gen_ptable_loop (check_active cfg) 0 parts mbr_init = Ok st ->
        Forall (fun e => pte_active e = 0) (m_pte st))
  /\ (forall tb,
        gpt_build (set_geometry 254 63 (check_active cfg)) g parts = Ok tb ->
        Forall (fun e => pte_active e = 0) (t_pte tb)
        /\ (Forall (fun p => Z.testbit (gattr p) 2 = false) parts ->
            Forall (fun e => Z.testbit (e_attr e) 2 = false) (t_gpte tb)))
  /\ (forall (j : nat) p s e old,
        (j < 128)%nat ->
        e_attr (gpt_entry (set_geometry 254 63 (check_active cfg)) g j p s e old)
        = (if negb (required p =? 0) then Z.lor (gattr p) 1 else gattr p)).
Proof.
  intros Hout Hlen.
  assert (Ha : active (check_active cfg) = 0).
  { unfold check_active.
    destruct (use_guid_partition_table cfg); cbn [andb negb orb] in *.
    - destruct (GPT_ENTRY_MAX <? active cfg) eqn:E1; [reflexivity|].
      destruct (active cfg <? 0) eqn:E2; [reflexivity|].
      apply Z.ltb_ge in E1, E2. lia.
    - destruct (MBR_ENTRY_MAX <? active cfg) eqn:E1; [reflexivity|].
      destruct (active cfg <? 0) eqn:E2; [reflexivity|].
      apply Z.ltb_ge in E1, E2. lia. }
  assert (Ha' : active (set_geometry 254 63 (check_active cfg)) = 0) by exact Ha.
  split; [exact Ha|]. split; [|split].
  - intros st Hloop.
    apply (gen_ptable_loop_inactive _ _ _ _ _ Ha) in Hloop; [exact Hloop|].
    cbn [mbr_init m_pte]. apply Forall_replicate. reflexivity.
  - intros tb Hb.
    destruct (gpt_build_inv _ _ _ _ Hb) as (st & Hloop & Hgpte & _ & _ & _ & Hpte & _).
    assert (H0 : Forall (fun e => pte_active e = 0)
                   (g_pte (gpt_init (set_geometry 254 63 (check_active cfg)) parts))).
    { cbn [gpt_init g_pte]. apply Forall_replicate. reflexivity. }
    destruct (gen_gptable_loop_inactive _ _ _ _ _ Ha' Hlen H0 Hloop) as [H1 H2].
    split.
    + rewrite Hpte. apply Forall_insert; [exact H1|].
      cbn [pte_active]. apply pte_at_active, H1.
    + intros Hraw.
      assert (H3 : Forall (fun e => Z.testbit (e_attr e) 2 = false) (g_gpte st)).
      { apply H2; [exact Hraw|].
        cbn [gpt_init g_gpte]. apply Forall_replicate. reflexivity. }
      rewrite Hgpte. unfold gpt_filler.
      destruct (gpt_filler_cond _ (g_parts st)); [|exact H3].
      apply Forall_insert; [exact H3|]. cbn [e_attr].
      unfold gpte_at. destruct (g_gpte st !! 127%nat) as [x|] eqn:E;
        cbn [default]; [|reflexivity].
      exact (Forall_lookup_1 _ _ _ _ H3 E).
  - intros j p s e old Hj. apply gpt_entry_attr_inactive; [exact Ha'|exact Hj].
Qed.

(** ** The hybrid entries *)

(** C7 fails on the code: a GPT run with two hybrid requests of 4096 and 8192
    KBytes.  The second one, sectors 8226 to 24609, is mirrored in slot 2 with
    its type and its LBA range, but the CHS fields of slot 2 stay zero: lines
    468 and 469 write the CHS of every mirrored partition into [pte[1]], which
    ends with the CHS of the second partition although its LBA range is the
    first one's. *)
Theorem C7_hybrid_chs_in_slot_1 :
  exists tb,
    gpt_build gpt_plain default_guid
      [linux_part 4096 0 1; linux_part 8192 0 1] = Ok tb
    /\ pte_start (pte_at (t_pte tb) 2) = 8226
    /\ pte_length (pte_at (t_pte tb) 2) = 16384
    /\ pte_chs_start (pte_at (t_pte tb) 2) = [0; 0; 0]
    /\ pte_chs_end (pte_at (t_pte tb) 2) = [0; 0; 0]
    /\ to_chs gpt_plain 8226 = [130; 37; 0]
    /\ to_chs gpt_plain 24609 = [136; 40; 1]
    /\ pte_start (pte_at (t_pte tb) 1) = 34
    /\ pte_length (pte_at (t_pte tb) 1) = 8192
    /\ pte_chs_start (pte_at (t_pte tb) 1) = to_chs gpt_plain 8226
    /\ pte_chs_end (pte_at (t_pte tb) 1) = to_chs gpt_plain 24609
    /\ to_chs gpt_plain 34 = [0; 35; 0].
Proof.
  eexists. split; [vm_compute; reflexivity|].
  vm_compute. repeat split.
Qed.

(** * The theorems at concrete runs *)

Lemma C10_witness :
  round_to_cyl mbr_16_63 1008 = 2016
  /\ exists st',
       gen_ptable_body mbr_16_63 0 (linux_part 1024 0 0) mbr_init = Ok st'
       /\ m_sect mbr_init < m_sect st'.
Proof.
  split.
  - apply (C10_round_to_cyl_strictly_up mbr_16_63 1008 0 (linux_part 1024 0 0)
             mbr_init mbr_init); [vm_compute; reflexivity|lia|vm_compute; reflexivity|].
    exists 1. vm_compute. reflexivity.
  - eexists. split; [vm_compute; reflexivity|].
    apply (C10_round_to_cyl_strictly_up mbr_16_63 0 0 (linux_part 1024 0 0)
             mbr_init);
      try (vm_compute; reflexivity); try (vm_compute; discriminate); lia.
Defined.


Lemma C2_witness :
  gen_ptable mbr_16_63 "img" default_signature [linux_part 1024 10 0]
  = ([], Err OverlapError)
  /\ gpt_start gpt_plain 34 (linux_part 4096 1024 0) = Ok 2048.
Proof.
  destruct (C2_explicit_start mbr_16_63 "img" default_signature default_guid
              [] [] (linux_part 1024 10 0)) as (Hm & _ & _);
    [vm_compute; discriminate|vm_compute; discriminate|].
  destruct (C2_explicit_start gpt_plain "img" default_signature default_guid
              [] [] (linux_part 4096 1024 0)) as (_ & Hg & _);
    [vm_compute; discriminate|vm_compute; discriminate|].
  split.
  - apply (Hm mbr_init eq_refl). vm_compute. reflexivity.
  - destruct (Hg (gpt_init gpt_plain [linux_part 4096 1024 0]) eq_refl)
      as [_ H].
    apply H. vm_compute. discriminate.
Defined.

Lemma C3_witness :
  gen_ptable mbr_16_63 "img" default_signature
    [linux_part 1024 0 0; linux_part 0 0 0]
  = ([], Err InvalidPartition).
Proof.
  destruct (C3_zero_sized mbr_16_63 "img" default_signature default_guid
              [linux_part 1024 0 0] [] (linux_part 0 0 0) eq_refl)
    as [H _].
  destruct (H eq_refl) as (_ & _ & Hm & _).
  eapply Hm. vm_compute. reflexivity.
Defined.


(** A GPT run with the alternate table and one request of 4096 KBytes. *)
Lemma gpt_backup_run :
  gen_gptable gpt_backup "img" default_signature default_guid
    [linux_part 4096 0 0]
  = (fst (gen_gptable gpt_backup "img" default_signature default_guid
            [linux_part 4096 0 0]),
     Ok [17408; 4194304]).
Proof. vm_compute. reflexivity. Qed.

Lemma C4_witness :
  exists hdr ents,
    written_blocks
      (fst (gen_gptable gpt_backup "img" default_signature default_guid
              [linux_part 4096 0 0])) !! 3%nat = Some hdr
    /\ crc_consistent hdr ents.
Proof.
  destruct (C4_crc_consistent gpt_backup "img" default_signature default_guid
              [linux_part 4096 0 0] _ _ eq_refl
              ltac:(repeat constructor) gpt_backup_run)
    as (hdr & ents & H3 & _ & _ & Hc & _).
  exists hdr, ents. split; assumption.
Defined.

Lemma C8_witness :
  exists hp hb,
    written_blocks
      (fst (gen_gptable gpt_backup "img" default_signature default_guid
              [linux_part 4096 0 0])) !! 7%nat = Some (gpth_bytes hb)
    /\ h_self hp = 1 /\ h_alternate hb = 1 /\ h_self hb = h_alternate hp.
Proof.
  destruct (C8_backup_header gpt_backup "img" default_signature default_guid
              [linux_part 4096 0 0] _ _ eq_refl gpt_backup_run)
    as (hp & hb & ents & _ & _ & _ & H7 & Hs & Hsa & Has & _).
  exists hp, hb. split; [exact H7|]. split; [exact Hs|].
  split; [rewrite Has; exact Hs|exact Hsa].
Defined.

Lemma C6_witness :
  exists tb,
    gpt_build gpt_plain default_guid [linux_part 4096 1024 0] = Ok tb
    /\ e_type (gpte_at (t_gpte tb) 127) = GUID_PARTITION_BIOS_BOOT
    /\ e_start (gpte_at (t_gpte tb) 127) = 34
    /\ e_end (gpte_at (t_gpte tb) 127) = 2047.
Proof.
  destruct (gpt_build gpt_plain default_guid [linux_part 4096 1024 0])
    as [tb|e] eqn:E; [|vm_compute in E; discriminate E].
  exists tb. split; [reflexivity|].
  destruct (C6_bios_boot_filler gpt_plain default_guid
              [linux_part 4096 1024 0] tb E) as (Hs & H & _).
  assert (Ha : actual_start (part_at (t_parts tb) 0) = 2048).
  { assert (Hn : size (linux_part 4096 1024 0) <> 0) by (vm_compute; discriminate).
    specialize (Hs Hn). vm_compute in Hs. injection Hs as Hs. symmetry. exact Hs. }
  assert (Hc : start (linux_part 4096 1024 0) <> 0
               /\ gpt_first_usable gpt_plain
                  < actual_start (part_at (t_parts tb) 0)).
  { split; [vm_compute; discriminate|]. rewrite Ha. vm_compute. reflexivity. }
  destruct (H Hc) as (H1 & H2 & H3).
  split; [exact H1|]. split; [exact H2|]. rewrite H3, Ha. reflexivity.
Defined.

Lemma C9_witness :
  active (check_active mbr_active_7) = 0
  /\ forall st,
       gen_ptable_loop (check_active mbr_active_7) 0 [linux_part 1024 0 0]
         mbr_init = Ok st ->
       Forall (fun e => pte_active e = 0) (m_pte st).
Proof.
  destruct (C9_active_out_of_range mbr_active_7 default_guid
              [linux_part 1024 0 0]) as (H1 & H2 & _).
  - right. vm_compute. reflexivity.
  - simpl. lia.
  - split; [exact H1|exact H2].
Defined.

(** * Further properties of the code *)

(** ** Rounding to the alignment unit *)

(** X1: for a positive alignment unit and a sector [sect] from 1 on,
    [round_to_kb] returns the least multiple of the unit that is not below
    [sect]: an aligned sector is returned as it is (where [round_to_cyl] moves
    on by a cylinder).  Sector 0 is not kept: with a unit above 1 it is rounded
    to one whole unit. *)
Theorem X1_round_to_kb_least_multiple cfg (sect : Z) :
  0 < kb_align cfg ->
  1 <= sect -> sect + kb_align cfg < 2 ^ 63 ->
  sect <= round_to_kb cfg sect < sect + kb_align cfg
  /\ (kb_align cfg | round_to_kb cfg sect)
  /\ ((kb_align cfg | sect) -> round_to_kb cfg sect = sect)
  /\ (1 < kb_align cfg -> round_to_kb cfg 0 = kb_align cfg).
Proof.
  intros Hk Hs Hb. set (k := kb_align cfg) in *.
  assert (Hr : round_to_kb cfg sect = ((sect - 1) / k + 1) * k).
  { unfold round_to_kb. fold k. rewrite s64_small by lia.
    rewrite Z.quot_div_nonneg by lia.
    pose proof (Z.mod_pos_bound (sect - 1) k Hk).
    pose proof (Z.div_mod (sect - 1) k ltac:(lia)).
    apply u64_small. nia. }
  pose proof (Z.mod_pos_bound (sect - 1) k Hk) as Hm.
  pose proof (Z.div_mod (sect - 1) k ltac:(lia)) as Hd.
  split; [rewrite Hr; nia|]. split; [|split].
  - rewrite Hr. exists ((sect - 1) / k + 1). reflexivity.
  - intros [q Hq]. rewrite Hr.
    assert (Hq1 : (sect - 1) / k = q - 1).
    { symmetry. apply (Z.div_unique (sect - 1) k (q - 1) (k - 1)); lia. }
    rewrite Hq1. lia.
  - intros Hk1. unfold round_to_kb. fold k.
    rewrite s64_small by lia.
    replace (Z.quot (0 - 1) k) with 0
      by (symmetry; apply Z.quot_small_iff; [lia|]; simpl; lia).
    rewrite u64_small by lia. lia.
Qed.

(** ** CHS addresses *)

Lemma chs_pack_ok_all (n : Z) : 0 <= n < 65536 -> chs_pack_ok n = true.
Proof. apply (forallb_below chs_pack_ok 65536). vm_compute. reflexivity. Qed.

Lemma s32_small (x : Z) : - 2 ^ 31 <= x < 2 ^ 31 -> s32 x = x.
Proof. intros H. unfold s32. rewrite Z.mod_small; lia. Qed.

(** The three numbers [to_chs] packs, for a sector of a disk whose cylinders
    fit in ten bits. *)
Lemma to_chs_fields cfg (sect : Z) :
  0 < sectors cfg <= 63 -> 0 < heads cfg <= 256 ->
  0 <= sect < 1024 * (heads cfg * sectors cfg) ->
  let s := sect mod sectors cfg + 1 in
  let h := (sect / sectors cfg) mod heads cfg in
  let c := sect / sectors cfg / heads cfg in
  (1 <= s <= 63 /\ 0 <= h < 256 /\ 0 <= c < 1024)
  /\ to_chs cfg sect
     = [h; u8 (Z.lor s (Z.land (Z.shiftr c 2) 0xC0)); u8 (Z.land c 0xFF)].
Proof.
  intros HS HH Hsect s h c.
  pose proof (Z.mod_pos_bound sect (sectors cfg) ltac:(lia)) as Hm1.
  pose proof (Z.mod_pos_bound (sect / sectors cfg) (heads cfg) ltac:(lia)) as Hm2.
  assert (Hq1 : 0 <= sect / sectors cfg < 1024 * heads cfg).
  { split; [apply Z.div_pos; lia|].
    apply Z.div_lt_upper_bound; nia. }
  assert (Hq2 : 0 <= c < 1024).
  { subst c. split; [apply Z.div_pos; lia|].
    apply Z.div_lt_upper_bound; lia. }
  split; [subst s h; lia|].
  unfold to_chs.
  rewrite (Z.quot_div_nonneg sect (sectors cfg)) by lia.
  rewrite (Z.quot_div_nonneg (sect / sectors cfg) (heads cfg)) by lia.
  rewrite !Z.rem_mod_nonneg by lia.
  fold s h c.
  rewrite (s32_small s), (s32_small h), (s32_small c) by (subst s h; lia).
  f_equal. unfold u8. apply Z.mod_small. subst h. lia.
Qed.

(** X2: on a disk with at most 63 sectors per track and 256 heads, a sector
    below cylinder 1024 is read back from the three bytes [to_chs] packs: the
    head, the sector of the track (from 1 on) and the ten bits of the
    cylinder give the sector again. *)
Theorem X2_to_chs_round_trip cfg (sect : Z) :
  0 < sectors cfg <= 63 -> 0 < heads cfg <= 256 ->
  0 <= sect < 1024 * (heads cfg * sectors cfg) ->
  chs_decode cfg (to_chs cfg sect) = sect
  /\ 1 <= chs_sector (to_chs cfg sect) <= sectors cfg
  /\ 0 <= chs_head (to_chs cfg sect) < heads cfg
  /\ 0 <= chs_cylinder (to_chs cfg sect) < 1024.
Proof.
  intros HS HH Hsect.
  destruct (to_chs_fields cfg sect HS HH Hsect) as [(Hs & Hh & Hc) Heq].
  set (s := sect mod sectors cfg + 1) in *.
  set (h := (sect / sectors cfg) mod heads cfg) in *.
  set (c := sect / sectors cfg / heads cfg) in *.
  pose proof (chs_pack_ok_all (64 * c + s) ltac:(lia)) as Hok.
  unfold chs_pack_ok in Hok.
  replace ((64 * c + s) mod 64) with s in Hok
    by (clear Hok; Z.div_mod_to_equations; lia).
  replace ((64 * c + s) / 64) with c in Hok
    by (clear Hok; Z.div_mod_to_equations; lia).
  cbv zeta in Hok.
  replace (1 <=? s) with true in Hok by (symmetry; apply Z.leb_le; lia).
  simpl implb in Hok. apply andb_prop in Hok as [H1 H2].
  apply Z.eqb_eq in H1, H2.
  assert (Hsec : chs_sector (to_chs cfg sect) = s)
    by (rewrite Heq; exact H1).
  assert (Hcyl : chs_cylinder (to_chs cfg sect) = c)
    by (rewrite Heq; exact H2).
  assert (Hhead : chs_head (to_chs cfg sect) = h)
    by (rewrite Heq; reflexivity).
  pose proof (Z.mod_pos_bound sect (sectors cfg) ltac:(lia)) as Hm1.
  pose proof (Z.mod_pos_bound (sect / sectors cfg) (heads cfg) ltac:(lia)) as Hm2.
  unfold chs_decode. rewrite Hsec, Hcyl, Hhead.
  split; [|subst s h; lia].
  pose proof (Z.div_mod sect (sectors cfg) ltac:(lia)) as Hd1.
  pose proof (Z.div_mod (sect / sectors cfg) (heads cfg) ltac:(lia)) as Hd2.
  subst s h c. nia.
Qed.

(** X3: the cylinder is cut to ten bits.  A sector 1024 cylinders further has
    the same three bytes. *)
Theorem X3_to_chs_cylinder_wraps cfg (sect : Z) :
  0 < sectors cfg -> 0 < heads cfg ->
  0 <= sect -> sect / sectors cfg / heads cfg + 1024 < 2 ^ 31 ->
  to_chs cfg (sect + 1024 * (heads cfg * sectors cfg)) = to_chs cfg sect.
Proof.
  intros HS HH Hs Hc.
  set (S := sectors cfg) in *. set (H := heads cfg) in *.
  assert (HHS : 0 < H * S) by nia.
  assert (Hq : 0 <= sect / S) by (apply Z.div_pos; lia).
  unfold to_chs. fold S H.
  replace (sect + 1024 * (H * S)) with (sect + (1024 * H) * S) by lia.
  rewrite (Z.quot_div_nonneg sect S), (Z.quot_div_nonneg (sect + 1024 * H * S) S)
    by nia.
  rewrite Z.div_add by lia.
  rewrite (Z.quot_div_nonneg (sect / S) H),
    (Z.quot_div_nonneg (sect / S + 1024 * H) H) by nia.
  rewrite !Z.rem_mod_nonneg by nia.
  rewrite !Z.mod_add, Z.div_add by lia.
  set (c := sect / S / H) in *.
  assert (Hc0 : 0 <= c) by (subst c; repeat apply Z.div_pos; lia).
  rewrite (s32_small c), (s32_small (c + 1024)) by lia.
  assert (E1 : Z.land (c + 1024) 0xFF = Z.land c 0xFF).
  { change 0xFF with (Z.ones 8). rewrite !Z.land_ones by lia.
    replace (c + 1024) with (c + 4 * 2 ^ 8) by lia. apply Z.mod_add. lia. }
  assert (E2 : Z.land (Z.shiftr (c + 1024) 2) 0xC0
               = Z.land (Z.shiftr c 2) 0xC0).
  { rewrite !Z.shiftr_div_pow2 by lia.
    replace (c + 1024) with (c + 256 * 2 ^ 2) by lia.
    rewrite Z.div_add by lia.
    change 0xC0 with (Z.land (Z.ones 8) 0xC0).
    rewrite !Z.land_assoc, !Z.land_ones by lia.
    replace (c / 2 ^ 2 + 256) with (c / 2 ^ 2 + 1 * 2 ^ 8) by lia.
    rewrite Z.mod_add by lia. reflexivity. }
  rewrite E1, E2. reflexivity.
Qed.

(** ** The layout of a GPT run *)

Lemma round_to_kb_eq cfg (sect : Z) :
  0 < kb_align cfg -> 1 <= sect -> sect + kb_align cfg < 2 ^ 63 ->
  round_to_kb cfg sect = ((sect - 1) / kb_align cfg + 1) * kb_align cfg.
Proof.
  intros Hk Hs Hb. unfold round_to_kb. rewrite s64_small by lia.
  rewrite Z.quot_div_nonneg by lia.
  pose proof (Z.mod_pos_bound (sect - 1) (kb_align cfg) Hk).
  pose proof (Z.div_mod (sect - 1) (kb_align cfg) ltac:(lia)).
  apply u64_small. nia.
Qed.

Lemma gpt_first_usable_bounded cfg :
  gpt_config_bounded cfg ->
  gpt_first_usable cfg = gpt_first_entry_sector cfg + 32
  /\ 32 <= gpt_first_usable cfg <= 2 ^ 55.
Proof.
  intros (_ & Hfe & _). unfold gpt_first_usable.
  change GPT_SIZE with 32. rewrite u64_small by lia. lia.
Qed.

(** The start of a request laid out at cursor [sect]. *)
Lemma gpt_start_bounded cfg (sect : Z) p s :
  gpt_config_bounded cfg -> request_bounded p ->
  1 <= sect < 2 ^ 63 - 2 ^ 31 ->
  gpt_start cfg sect p = Ok s ->
  sect <= s /\ s <= Z.max (2 ^ 54) (sect + 2 ^ 31)
  /\ (start p <> 0 -> s = 2 * start p)
  /\ (start p = 0 -> kb_align cfg <> 0 -> (kb_align cfg | s)).
Proof.
  intros (Hk & _ & _) (Hst & Hsz) Hsect. unfold gpt_start.
  destruct (start p =? 0) eqn:Es; cbn [negb].
  - apply Z.eqb_eq in Es.
    destruct (kb_align cfg =? 0) eqn:Ek; cbn [negb].
    + apply Z.eqb_eq in Ek. intros [= <-].
      split; [lia|]. split; [lia|]. split; [intros Hn; contradiction|].
      intros _ Hn. contradiction.
    + apply Z.eqb_neq in Ek. intros [= <-].
      rewrite s64_small by lia.
      rewrite round_to_kb_eq by lia.
      pose proof (Z.mod_pos_bound (sect - 1) (kb_align cfg) ltac:(lia)).
      pose proof (Z.div_mod (sect - 1) (kb_align cfg) ltac:(lia)).
      split; [nia|]. split; [nia|]. split; [intros Hn; contradiction|].
      intros _ _. exists ((sect - 1) / kb_align cfg + 1). reflexivity.
  - apply Z.eqb_neq in Es. rewrite (u64_small (start p * 2)) by lia.
    destruct (start p * 2 <? sect) eqn:El; [discriminate|].
    apply Z.ltb_ge in El. intros [= <-].
    split; [lia|]. split; [lia|]. split; [intros _; lia|].
    intros Hz. contradiction.
Qed.

Lemma gpte_at_insert_ne (t : list gpte) (j k : nat) (x : gpte) :
  j <> k -> gpte_at (<[j := x]> t) k = gpte_at t k.
Proof.
  intros H. unfold gpte_at. rewrite list_lookup_insert_ne by exact H.
  reflexivity.
Qed.

(** One iteration keeps the invariant. *)
Lemma gpt_laid_inv_step cfg g (parts : list partinfo) (j : nat) p st1 st2 :
  gpt_config_bounded cfg -> Forall request_bounded parts ->
  (j < 128)%nat -> parts !! j = Some p ->
  gpt_laid_inv cfg g parts j st1 ->
  gen_gptable_body cfg g j p st1 = Ok st2 ->
  gpt_laid_inv cfg g parts (S j) st2.
Proof.
  intros Hcfg Hparts Hj Hp (Hsect & Hlen & Hslots) Hb.
  destruct (gpt_first_usable_bounded cfg Hcfg) as [Hfu Hfub].
  pose proof (Forall_lookup_1 _ _ _ _ Hparts Hp) as Hpb.
  apply gen_gptable_body_inv in Hb as [[Hz ->]|(Hnz & s & Hs & Hsp & ->)].
  - split; [lia|]. split; [exact Hlen|].
    intros k q Hk Hq Hqz.
    assert (Hkj : (k < j)%nat).
    { destruct (Nat.eq_dec k j) as [->|]; [|lia].
      rewrite Hp in Hq. injection Hq as <-. contradiction. }
    exact (Hslots k q Hkj Hq Hqz).
  - assert (Hrange : 1 <= g_sect st1 < 2 ^ 63 - 2 ^ 31) by lia.
    destruct (gpt_start_bounded cfg _ p s Hcfg Hpb Hrange Hs)
      as (Hs1 & Hs2 & Hs3 & Hs4).
    destruct Hpb as [Hpst Hpsz].
    assert (Hend : requested_end s p = s + 2 * size p).
    { unfold requested_end. rewrite (u64_small (size p * 2)) by lia.
      rewrite u64_small by lia. lia. }
    cbn [gpt_laid_inv g_sect g_gpte]. unfold gpt_laid_inv.
    cbn [g_sect g_gpte]. rewrite Hend.
    split; [lia|]. split; [rewrite length_insert; exact Hlen|].
    intros k q Hk Hq Hqz.
    destruct (Nat.eq_dec k j) as [->|Hne].
    + rewrite Hp in Hq. injection Hq as <-.
      rewrite gpte_at_insert by lia.
      unfold gpt_entry at 1 2 3. cbn [e_type e_guid e_start e_end].
      split; [|split; [reflexivity|split]].
      * unfold gpt_slot_laid, gpt_entry. cbn [e_type e_start e_end].
        split; [reflexivity|]. split; [lia|].
        split; [rewrite u64_small by lia; lia|].
        split; [exact Hs3|]. split; [exact Hs4|].
        intros Hlast. unfold gpt_out_of_space in Hsp.
        destruct Hcfg as (_ & _ & Hl).
        replace (0 <? gpt_last_usable_sector cfg) with true in Hsp
          by (symmetry; apply Z.ltb_lt; exact Hlast).
        cbn [andb] in Hsp. apply Z.ltb_ge in Hsp.
        fold (requested_end s p) in Hsp. rewrite Hend in Hsp.
        rewrite !u64_small in * by lia. lia.
      * rewrite u64_small by lia. lia.
      * intros k' q' Hk' Hq' Hq'z.
        rewrite gpte_at_insert_ne by lia.
        destruct (Hslots k' q' Hk' Hq' Hq'z) as (_ & _ & Hlt & _).
        unfold gpt_entry. cbn [e_start]. lia.
    + assert (Hkj : (k < j)%nat) by lia.
      rewrite gpte_at_insert_ne by lia.
      destruct (Hslots k q Hkj Hq Hqz) as (H1 & H2 & H3 & H4).
      split; [exact H1|]. split; [exact H2|]. split; [lia|].
      intros k' q' Hk' Hq' Hq'z.
      rewrite gpte_at_insert_ne by lia. exact (H4 k' q' Hk' Hq' Hq'z).
Qed.

(** The invariant holds when the loop has run. *)
Lemma gpt_laid_inv_final cfg g (parts : list partinfo) st :
  gpt_config_bounded cfg -> Forall request_bounded parts ->
  (length parts <= 128)%nat ->
  gen_gptable_loop cfg g 0 parts (gpt_init cfg parts) = Ok st ->
  gpt_laid_inv cfg g parts (length parts) st.
Proof.
  intros Hcfg Hparts Hlen Hloop.
  destruct (gpt_first_usable_bounded cfg Hcfg) as [Hfu Hfub].
  apply (gen_gptable_loop_ind cfg g (gpt_laid_inv cfg g parts) parts 0%nat
           (gpt_init cfg parts) st); [| |exact Hloop].
  - split; [|split].
    + cbn [gpt_init g_sect]. replace (GPT_SIZE + gpt_first_entry_sector cfg)
        with (gpt_first_entry_sector cfg + GPT_SIZE) by lia.
      fold (gpt_first_usable cfg). lia.
    + cbn [gpt_init g_gpte]. apply length_replicate.
    + intros k p Hk. lia.
  - intros j p st1 st2 Hj Hp Hinv Hb.
    rewrite Nat.sub_0_r in Hp.
    apply (gpt_laid_inv_step cfg g parts j p st1 st2); try assumption. lia.
Qed.

(** The entries of the requests, when a build has succeeded on at most 127
    requests: the filler does not touch them. *)
Lemma gpt_build_laid cfg g (parts : list partinfo) tb :
  gpt_config_bounded cfg -> Forall request_bounded parts ->
  (length parts <= 127)%nat ->
  gpt_build cfg g parts = Ok tb ->
  exists st,
    gen_gptable_loop cfg g 0 parts (gpt_init cfg parts) = Ok st
    /\ gpt_laid_inv cfg g parts (length parts) st
    /\ t_last_usable tb = (if gpt_last_usable_sector cfg =? 0
                           then u64 (g_sect st - 1)
                           else gpt_last_usable_sector cfg)
    /\ forall k, (k < 127)%nat ->
         gpte_at (t_gpte tb) k = gpte_at (g_gpte st) k.
Proof.
  intros Hcfg Hparts Hlen Hb.
  destruct (gpt_build_inv _ _ _ _ Hb) as (st & Hloop & Hgpte & _ & Hlast & _).
  exists st. split; [exact Hloop|].
  split; [apply gpt_laid_inv_final; try assumption; lia|].
  split; [exact Hlast|].
  intros k Hk. rewrite Hgpte. unfold gpt_filler.
  destruct (gpt_filler_cond cfg (g_parts st)); [|reflexivity].
  apply gpte_at_insert_ne. lia.
Qed.

(** X4: in a GPT build that succeeds, the partitions of the requests that are
    laid out come in the order of the requests and do not overlap: each one
    starts at or before its own last sector, and after the last sector of
    every partition requested before it. *)
Theorem X4_gpt_partitions_ordered cfg g (parts : list partinfo) tb
    (k1 k2 : nat) (p1 p2 : partinfo) :
  gpt_config_bounded cfg -> Forall request_bounded parts ->
  (length parts <= 127)%nat ->
  gpt_build cfg g parts = Ok tb ->
  (k1 < k2)%nat -> parts !! k1 = Some p1 -> parts !! k2 = Some p2 ->
  size p1 <> 0 -> size p2 <> 0 ->
  e_start (gpte_at (t_gpte tb) k1) <= e_end (gpte_at (t_gpte tb) k1)
  /\ e_end (gpte_at (t_gpte tb) k1) < e_start (gpte_at (t_gpte tb) k2)
  /\ e_start (gpte_at (t_gpte tb) k2) <= e_end (gpte_at (t_gpte tb) k2).
Proof.
  intros Hcfg Hparts Hlen Hb Hk H1 H2 Hz1 Hz2.
  destruct (gpt_build_laid _ _ _ _ Hcfg Hparts Hlen Hb)
    as (st & _ & (_ & _ & Hslots) & _ & Hsame).
  pose proof (lookup_lt_Some _ _ _ H1) as Hl1.
  pose proof (lookup_lt_Some _ _ _ H2) as Hl2.
  rewrite !Hsame by lia.
  destruct (Hslots k1 p1 Hl1 H1 Hz1) as ((_ & _ & He1 & _) & _).
  destruct (Hslots k2 p2 Hl2 H2 Hz2) as ((_ & _ & He2 & _) & _ & _ & Hord).
  specialize (Hord k1 p1 Hk H1 Hz1).
  pose proof (Forall_lookup_1 _ _ _ _ Hparts H1) as [_ Hs1].
  pose proof (Forall_lookup_1 _ _ _ _ Hparts H2) as [_ Hs2].
  lia.
Qed.

(** The type identifier of the entry of each request laid out, whatever the
    sizes. *)
Lemma gen_gptable_loop_types cfg g (parts : list partinfo) st :
  (length parts <= 128)%nat ->
  gen_gptable_loop cfg g 0 parts (gpt_init cfg parts) = Ok st ->
  forall k p, parts !! k = Some p -> size p <> 0 ->
    e_type (gpte_at (g_gpte st) k) = guid p.
Proof.
  intros Hlen Hloop.
  assert (H : length (g_gpte st) = 128%nat
              /\ forall k p, (k < 0 + length parts)%nat ->
                   parts !! k = Some p -> size p <> 0 ->
                   e_type (gpte_at (g_gpte st) k) = guid p).
  { apply (gen_gptable_loop_ind cfg g
             (fun j s => length (g_gpte s) = 128%nat
                /\ forall k p, (k < j)%nat -> parts !! k = Some p ->
                     size p <> 0 ->
                     e_type (gpte_at (g_gpte s) k) = guid p)
             parts 0%nat (gpt_init cfg parts) st); [| |exact Hloop].
    - split; [apply length_replicate|]. intros k p Hk. lia.
    - intros j p st1 st2 Hj Hp [Hl Hs] Hb. rewrite Nat.sub_0_r in Hp.
      apply gen_gptable_body_inv in Hb as [[Hz ->]|(Hnz & s & _ & _ & ->)].
      + split; [exact Hl|]. intros k q Hk Hq Hqz.
        destruct (Nat.eq_dec k j) as [->|]; [|apply (Hs k q); [lia|assumption..]].
        rewrite Hp in Hq. injection Hq as <-. contradiction.
      + cbn [g_gpte]. split; [rewrite length_insert; exact Hl|].
        intros k q Hk Hq Hqz.
        destruct (Nat.eq_dec k j) as [->|Hne].
        * rewrite Hp in Hq. injection Hq as <-.
          rewrite gpte_at_insert by lia. reflexivity.
        * rewrite gpte_at_insert_ne by lia. apply (Hs k q); [lia|assumption..]. }
  destruct H as [_ H]. intros k p Hp Hz.
  apply (H k p); [|assumption..].
  pose proof (lookup_lt_Some _ _ _ Hp). lia.
Qed.

(** X5: in a GPT build of at most 127 requests that succeeds, the entry of a
    request that is laid out carries the type identifier of the request,
    whatever the sizes.  (With 128 requests the filler of lines 492 to 499 can
    take the slot of the last one.)  When moreover the alignment unit is from 0
    to below [2 ^ 31], the first-entry sector below [2 ^ 54], the last usable
    sector below [2 ^ 64 - 1], and the starts and sizes of the requests below
    [2 ^ 53] KBytes (so that no sum of the layout wraps around 64 bits), the
    entry runs over twice the size of the request in KBytes; it starts at twice
    the explicit start of the request when there is one, and else, when an
    alignment unit is set, at a multiple of the unit. *)
Theorem X5_gpt_entry_of_request cfg g (parts : list partinfo) tb
    (k : nat) (p : partinfo) :
  (length parts <= 127)%nat ->
  gpt_build cfg g parts = Ok tb ->
  parts !! k = Some p -> size p <> 0 ->
  let e := gpte_at (t_gpte tb) k in
  e_type e = guid p
  /\ (gpt_config_bounded cfg -> Forall request_bounded parts ->
      e_end e - e_start e + 1 = 2 * size p
      /\ (start p <> 0 -> e_start e = 2 * start p)
      /\ (start p = 0 -> kb_align cfg <> 0 -> (kb_align cfg | e_start e))).
Proof.
  intros Hlen Hb Hp Hz e.
  pose proof (lookup_lt_Some _ _ _ Hp) as Hl.
  split.
  - destruct (gpt_build_inv _ _ _ _ Hb) as (st & Hloop & Hgpte & _).
    subst e. rewrite Hgpte. unfold gpt_filler.
    assert (Hlen' : (length parts <= 128)%nat) by lia.
    destruct (gpt_filler_cond cfg (g_parts st));
      [rewrite gpte_at_insert_ne by lia|];
      exact (gen_gptable_loop_types _ _ _ _ Hlen' Hloop k p Hp Hz).
  - intros Hcfg Hparts.
    destruct (gpt_build_laid _ _ _ _ Hcfg Hparts Hlen Hb)
      as (st & _ & (_ & _ & Hslots) & _ & Hsame).
    subst e. rewrite Hsame by lia.
    destruct (Hslots k p Hl Hp Hz) as ((Ht & _ & He & Hx & Ha & _) & _).
    split; [lia|]. split; assumption.
Qed.

(** X6: in a GPT build of at most 127 requests that succeeds, with an
    alignment unit from 0 to below [2 ^ 31], a first-entry sector below
    [2 ^ 54], a last usable sector below [2 ^ 64 - 1], and starts and sizes of
    the requests below [2 ^ 53] KBytes (so that no sum of the layout wraps
    around 64 bits; a size whose doubling wraps can end a partition past the
    last usable sector): every partition lies between the first and the last
    usable sector the header announces, whether the last usable sector comes
    from the disk size or from the end of the last partition. *)
Theorem X6_gpt_partitions_within_usable cfg g (parts : list partinfo) tb
    (k : nat) (p : partinfo) :
  gpt_config_bounded cfg -> Forall request_bounded parts ->
  (length parts <= 127)%nat ->
  gpt_build cfg g parts = Ok tb ->
  parts !! k = Some p -> size p <> 0 ->
  h_first_usable (t_gpth tb) <= e_start (gpte_at (t_gpte tb) k)
  /\ e_end (gpte_at (t_gpte tb) k) <= h_last_usable (t_gpth tb).
Proof.
  intros Hcfg Hparts Hlen Hb Hp Hz.
  destruct (gpt_build_laid _ _ _ _ Hcfg Hparts Hlen Hb)
    as (st & _ & (Hsect & _ & Hslots) & Hlast & Hsame).
  destruct (gpt_build_inv _ _ _ _ Hb) as (_ & _ & _ & _ & _ & _ & _ & Hh).
  pose proof (lookup_lt_Some _ _ _ Hp) as Hl.
  rewrite Hsame by lia.
  destruct (Hslots k p Hl Hp Hz) as ((_ & Hfu & _ & _ & _ & Hsp) & _ & Hlt & _).
  assert (Hf : h_first_usable (t_gpth tb) = gpt_first_usable cfg)
    by (rewrite Hh; reflexivity).
  assert (Hl' : h_last_usable (t_gpth tb) = t_last_usable tb)
    by (rewrite Hh; reflexivity).
  rewrite Hf, Hl', Hlast. split; [exact Hfu|].
  destruct (gpt_last_usable_sector cfg =? 0) eqn:E.
  - destruct (gpt_first_usable_bounded cfg Hcfg) as [_ Hb32].
    rewrite u64_small by lia. lia.
  - apply Z.eqb_neq in E. destruct Hcfg as (_ & _ & Hl0). apply Hsp. lia.
Qed.

(** ** Partition identifiers *)

(** The identifier of the entry of each request laid out. *)
Lemma gen_gptable_loop_guids cfg g (parts : list partinfo) st :
  (length parts <= 128)%nat ->
  gen_gptable_loop cfg g 0 parts (gpt_init cfg parts) = Ok st ->
  forall k p, parts !! k = Some p -> size p <> 0 ->
    e_guid (gpte_at (g_gpte st) k) = guid_add_last g (Z.of_nat k + 1).
Proof.
  intros Hlen Hloop.
  assert (H : length (g_gpte st) = 128%nat
              /\ forall k p, (k < 0 + length parts)%nat ->
                   parts !! k = Some p -> size p <> 0 ->
                   e_guid (gpte_at (g_gpte st) k)
                   = guid_add_last g (Z.of_nat k + 1)).
  { apply (gen_gptable_loop_ind cfg g
             (fun j s => length (g_gpte s) = 128%nat
                /\ forall k p, (k < j)%nat -> parts !! k = Some p ->
                     size p <> 0 ->
                     e_guid (gpte_at (g_gpte s) k)
                     = guid_add_last g (Z.of_nat k + 1))
             parts 0%nat (gpt_init cfg parts) st); [| |exact Hloop].
    - split; [apply length_replicate|]. intros k p Hk. lia.
    - intros j p st1 st2 Hj Hp [Hl Hs] Hb. rewrite Nat.sub_0_r in Hp.
      apply gen_gptable_body_inv in Hb as [[Hz ->]|(Hnz & s & _ & _ & ->)].
      + split; [exact Hl|]. intros k q Hk Hq Hqz.
        destruct (Nat.eq_dec k j) as [->|]; [|apply (Hs k q); [lia|assumption..]].
        rewrite Hp in Hq. injection Hq as <-. contradiction.
      + cbn [g_gpte]. split; [rewrite length_insert; exact Hl|].
        intros k q Hk Hq Hqz.
        destruct (Nat.eq_dec k j) as [->|Hne].
        * rewrite gpte_at_insert by lia. reflexivity.
        * rewrite gpte_at_insert_ne by lia. apply (Hs k q); [lia|assumption..]. }
  destruct H as [_ H]. intros k p Hp Hz.
  apply (H k p); [|assumption..].
  pose proof (lookup_lt_Some _ _ _ Hp). lia.
Qed.

Lemma guid_add_last_byte (g : list Z) (d : Z) :
  length g = 16%nat ->
  guid_add_last g d !! 15%nat = Some (u8 (g !!! 15%nat + d))
  /\ take 15 (guid_add_last g d) = take 15 g.
Proof.
  intros Hg. unfold guid_add_last. split.
  - apply list_lookup_insert_eq. lia.
  - apply take_insert_ge. lia.
Qed.

(** X7: the entries of a GPT build have their partition identifiers derived
    from the disk identifier by adding the number of the request to its last
    byte: the first fifteen bytes are those of the disk identifier, and the
    identifiers of two different requests laid out differ from each other and
    from the disk identifier. *)
Theorem X7_gpt_partition_guids_distinct cfg g (parts : list partinfo) tb
    (k1 k2 : nat) (p1 p2 : partinfo) :
  length g = 16%nat -> (length parts <= 127)%nat ->
  gpt_build cfg g parts = Ok tb ->
  parts !! k1 = Some p1 -> parts !! k2 = Some p2 ->
  size p1 <> 0 -> size p2 <> 0 -> k1 <> k2 ->
  e_guid (gpte_at (t_gpte tb) k1) <> e_guid (gpte_at (t_gpte tb) k2)
  /\ e_guid (gpte_at (t_gpte tb) k1) <> g
  /\ take 15 (e_guid (gpte_at (t_gpte tb) k1)) = take 15 g.
Proof.
  intros Hg Hlen Hb H1 H2 Hz1 Hz2 Hne.
  destruct (gpt_build_inv _ _ _ _ Hb) as (st & Hloop & Hgpte & _).
  pose proof (lookup_lt_Some _ _ _ H1) as Hl1.
  pose proof (lookup_lt_Some _ _ _ H2) as Hl2.
  assert (Hsame : forall k, (k < 127)%nat ->
            gpte_at (t_gpte tb) k = gpte_at (g_gpte st) k).
  { intros k Hk. rewrite Hgpte. unfold gpt_filler.
    destruct (gpt_filler_cond cfg (g_parts st)); [|reflexivity].
    apply gpte_at_insert_ne. lia. }
  rewrite !Hsame by lia.
  assert (Hlen' : (length parts <= 128)%nat) by lia.
  rewrite (gen_gptable_loop_guids _ _ _ _ Hlen' Hloop k1 p1 H1 Hz1).
  rewrite (gen_gptable_loop_guids _ _ _ _ Hlen' Hloop k2 p2 H2 Hz2).
  destruct (guid_add_last_byte g (Z.of_nat k1 + 1) Hg) as [Hb1 Ht1].
  destruct (guid_add_last_byte g (Z.of_nat k2 + 1) Hg) as [Hb2 _].
  split; [|split; [|exact Ht1]].
  - intros Heq. rewrite Heq, Hb2 in Hb1. injection Hb1 as Hb1.
    unfold u8 in Hb1. change (2 ^ 8) with 256 in Hb1.
    clear - Hb1 Hl1 Hl2 Hlen Hne.
    Z.div_mod_to_equations. lia.
  - intros Heq. rewrite Heq in Hb1.
    assert (Hin : g !! 15%nat = Some (g !!! 15%nat)).
    { apply list_lookup_lookup_total_lt. lia. }
    rewrite Hin in Hb1. injection Hb1 as Hb1.
    unfold u8 in Hb1. change (2 ^ 8) with 256 in Hb1.
    clear - Hb1 Hl1 Hlen.
    Z.div_mod_to_equations. lia.
Qed.

(** ** The layout of an MBR run *)

Lemma gen_ptable_loop_ind_at cfg (I : nat -> mbr_state -> Prop)
    (l : list partinfo) : forall i st st',
  I i st ->
  (forall j p st1 st2,
     (i <= j < i + length l)%nat -> l !! (j - i)%nat = Some p ->
     I j st1 -> gen_ptable_body cfg j p st1 = Ok st2 -> I (S j) st2) ->
  gen_ptable_loop cfg i l st = Ok st' ->
  I (i + length l)%nat st'.
Proof.
  induction l as [|p l IH]; intros i st st' Hi Hstep Hloop; simpl in Hloop.
  - injection Hloop as <-. simpl. rewrite Nat.add_0_r. exact Hi.
  - destruct (gen_ptable_body cfg i p st) as [st1|e] eqn:E; simpl in Hloop;
      [|discriminate].
    replace (i + length (p :: l))%nat with (S i + length l)%nat by (simpl; lia).
    apply (IH (S i) st1 st'); [| |exact Hloop].
    + apply (Hstep i p st st1); [simpl; lia| |exact Hi|exact E].
      rewrite Nat.sub_diag. reflexivity.
    + intros j q st2 st3 Hj Hq. apply Hstep; [simpl; lia|].
      replace (j - i)%nat with (S (j - S i)) by lia. exact Hq.
Qed.

Lemma pte_at_insert (t : list pte) (k : nat) (x : pte) :
  (k < length t)%nat -> pte_at (<[k := x]> t) k = x.
Proof.
  intros H. unfold pte_at. rewrite list_lookup_insert_eq by exact H.
  reflexivity.
Qed.

Lemma pte_at_insert_ne (t : list pte) (j k : nat) (x : pte) :
  j <> k -> pte_at (<[j := x]> t) k = pte_at t k.
Proof.
  intros H. unfold pte_at. rewrite list_lookup_insert_ne by exact H.
  reflexivity.
Qed.

Lemma cyl_size_bounded cfg :
  mbr_config_bounded cfg ->
  cyl_size cfg = heads cfg * sectors cfg
  /\ 0 < cyl_size cfg < 2 ^ 24 /\ sectors cfg < 2 ^ 24.
Proof.
  intros (HS & HH & Hc & _). unfold cyl_size.
  rewrite s32_small by nia. nia.
Qed.

(** The start of a request laid out when [sect] is the end of what comes
    before. *)
Lemma mbr_start_bounded cfg (sect : Z) p s :
  mbr_config_bounded cfg -> mbr_request_bounded p ->
  0 <= sect < 2 ^ 32 ->
  mbr_start cfg sect p = Ok s ->
  sect + sectors cfg <= s /\ s <= sect + 2 ^ 28
  /\ (start p <> 0 -> s = 2 * start p)
  /\ (start p = 0 -> kb_align cfg <> 0 -> (kb_align cfg | s)).
Proof.
  intros Hcfg (Hst & Hsz) Hsect.
  destruct (cyl_size_bounded cfg Hcfg) as (_ & _ & HS24).
  destruct Hcfg as (HS & HH & Hc & Hk).
  unfold mbr_start. rewrite (u64_small (sect + sectors cfg)) by lia.
  destruct (start p =? 0) eqn:Es; cbn [negb].
  - apply Z.eqb_eq in Es.
    destruct (kb_align cfg =? 0) eqn:Ek; cbn [negb].
    + apply Z.eqb_eq in Ek. intros [= <-].
      split; [lia|]. split; [lia|]. split; [intros Hn; contradiction|].
      intros _ Hn. contradiction.
    + apply Z.eqb_neq in Ek. intros [= <-].
      rewrite s64_small by lia.
      rewrite round_to_kb_eq by lia.
      pose proof (Z.mod_pos_bound (sect + sectors cfg - 1) (kb_align cfg)
                    ltac:(lia)).
      pose proof (Z.div_mod (sect + sectors cfg - 1) (kb_align cfg) ltac:(lia)).
      split; [nia|]. split; [nia|]. split; [intros Hn; contradiction|].
      intros _ _. exists ((sect + sectors cfg - 1) / kb_align cfg + 1).
      reflexivity.
  - apply Z.eqb_neq in Es. rewrite (u64_small (start p * 2)) by lia.
    destruct (start p * 2 <? sect + sectors cfg) eqn:El; [discriminate|].
    apply Z.ltb_ge in El. intros [= <-].
    split; [lia|]. split; [lia|]. split; [intros _; lia|].
    intros Hz. contradiction.
Qed.

(** The value of [sect] after a partition that starts at [s]. *)
Lemma mbr_next_bounded cfg (s : Z) p :
  mbr_config_bounded cfg -> mbr_request_bounded p ->
  0 <= s < 2 ^ 33 ->
  2 * size p <= mbr_next cfg s p - s <= 2 * size p + cyl_size cfg
  /\ (kb_align cfg = 0 ->
      (cyl_size cfg | mbr_next cfg s p)
      /\ 2 * size p < mbr_next cfg s p - s)
  /\ (kb_align cfg <> 0 -> mbr_next cfg s p = s + 2 * size p).
Proof.
  intros Hcfg (Hst & Hsz) Hs.
  destruct (cyl_size_bounded cfg Hcfg) as (_ & Hc & _).
  unfold mbr_next. rewrite (u64_small (size p * 2)) by lia.
  rewrite (u64_small (s + size p * 2)) by lia.
  destruct (kb_align cfg =? 0) eqn:Ek.
  - apply Z.eqb_eq in Ek. rewrite s64_small by lia.
    rewrite round_to_cyl_eq by lia.
    pose proof (Z.mod_pos_bound (s + size p * 2) (cyl_size cfg) ltac:(lia)).
    pose proof (Z.div_mod (s + size p * 2) (cyl_size cfg) ltac:(lia)).
    split; [nia|]. split; [|intros Hn; contradiction].
    intros _. split; [|nia].
    exists ((s + size p * 2) / cyl_size cfg + 1). lia.
  - apply Z.eqb_neq in Ek. split; [lia|]. split; [intros Hn; contradiction|].
    intros _. lia.
Qed.

(** One iteration keeps the invariant. *)
Lemma mbr_laid_inv_step cfg (parts : list partinfo) (j : nat) p st1 st2 :
  mbr_config_bounded cfg -> Forall mbr_request_bounded parts ->
  (j < 4)%nat -> parts !! j = Some p ->
  mbr_laid_inv cfg parts j st1 ->
  gen_ptable_body cfg j p st1 = Ok st2 ->
  mbr_laid_inv cfg parts (S j) st2.
Proof.
  intros Hcfg Hparts Hj Hp (Hsect & Hlen & Hslots & Hzero) Hb.
  pose proof (Forall_lookup_1 _ _ _ _ Hparts Hp) as Hpb.
  destruct (cyl_size_bounded cfg Hcfg) as (_ & Hc & HS24).
  assert (HS : 0 < sectors cfg) by (destruct Hcfg as (HS & _); exact HS).
  destruct (Z.eq_dec (size p) 0) as [Ez|Ez].
  - unfold gen_ptable_body in Hb. rewrite Ez in Hb. cbn [Z.eqb] in Hb.
    destruct (ignore_null_sized_partition cfg); [|discriminate].
    injection Hb as <-.
    split; [lia|]. split; [exact Hlen|]. split.
    + intros k q Hk Hq Hqz.
      assert (Hkj : (k < j)%nat).
      { destruct (Nat.eq_dec k j) as [->|]; [|lia].
        rewrite Hp in Hq. injection Hq as <-. contradiction. }
      exact (Hslots k q Hkj Hq Hqz).
    + intros k [Hk|Hk].
      * apply Hzero. left. lia.
      * apply Hzero. right. exact Hk.
  - rewrite gen_ptable_body_laid in Hb by exact Ez.
    destruct (mbr_start cfg (m_sect st1) p) as [s|e] eqn:Es; cbn [bind] in Hb;
      [|discriminate].
    cbv zeta in Hb. injection Hb as <-.
    assert (Hr : 0 <= m_sect st1 < 2 ^ 32) by lia.
    destruct (mbr_start_bounded cfg _ p s Hcfg Hpb Hr Es)
      as (Hs1 & Hs2 & Hs3 & Hs4).
    destruct (mbr_next_bounded cfg s p Hcfg Hpb ltac:(lia))
      as (Hn1 & Hn2 & Hn3).
    destruct Hpb as [Hpst Hpsz].
    set (nx := mbr_next cfg s p) in *.
    assert (Hlenv : u64 (nx - s) = nx - s) by (apply u64_small; lia).
    assert (Hsv : u32 s = s) by (apply u32_small; lia).
    assert (Hlv : u32 (nx - s) = nx - s) by (apply u32_small; lia).
    unfold mbr_laid_inv. cbn [m_sect m_pte].
    split; [lia|]. split; [rewrite length_insert; exact Hlen|]. split.
    + intros k q Hk Hq Hqz.
      destruct (Nat.eq_dec k j) as [->|Hne].
      * rewrite Hp in Hq. injection Hq as <-.
        rewrite pte_at_insert by lia.
        cbn [pte_start pte_length]. rewrite Hlenv, Hsv, Hlv.
        split; [|split; [lia|]].
        -- unfold mbr_slot_laid.
           cbn [pte_start pte_length pte_chs_start pte_chs_end pte_type
                pte_active].
           rewrite ?Hlenv, ?Hsv, ?Hlv.
           split; [lia|]. split; [lia|]. split; [exact Hs3|].
           split.
           { intros Hk0. destruct (Hn2 Hk0) as [Hd Hl].
             replace (s + (nx - s)) with nx by lia. split; [exact Hd|lia]. }
           split.
           { intros Hk0. split; [rewrite (Hn3 Hk0); lia|].
             intros Hst0. apply Hs4; assumption. }
           split; [rewrite s64_small by lia; reflexivity|].
           split; [|split; reflexivity].
           rewrite (u64_small (s + (nx - s) - 1)) by lia.
           rewrite s64_small by lia. reflexivity.
        -- intros k' q' Hk' Hq' Hq'z.
           rewrite pte_at_insert_ne by lia.
           destruct (Hslots k' q' Hk' Hq' Hq'z) as (_ & Hle & _). lia.
      * assert (Hkj : (k < j)%nat) by lia.
        rewrite pte_at_insert_ne by lia.
        destruct (Hslots k q Hkj Hq Hqz) as (H1 & H2 & H3).
        split; [exact H1|]. split; [lia|].
        intros k' q' Hk' Hq' Hq'z.
        rewrite pte_at_insert_ne by lia. exact (H3 k' q' Hk' Hq' Hq'z).
    + intros k Hk.
      assert (Hkj : k <> j).
      { destruct Hk as [Hk|(q & Hq & Hqz)]; [lia|].
        intros ->. rewrite Hp in Hq. injection Hq as <-. contradiction. }
      rewrite pte_at_insert_ne by (intros Heq; apply Hkj; symmetry; exact Heq).
      apply Hzero. destruct Hk as [Hk|Hk]; [left; lia|right; exact Hk].
Qed.

Lemma mbr_laid_inv_final cfg (parts : list partinfo) st :
  mbr_config_bounded cfg -> Forall mbr_request_bounded parts ->
  (length parts <= 4)%nat ->
  gen_ptable_loop cfg 0 parts mbr_init = Ok st ->
  mbr_laid_inv cfg parts (length parts) st.
Proof.
  intros Hcfg Hparts Hlen Hloop.
  apply (gen_ptable_loop_ind_at cfg (mbr_laid_inv cfg parts) parts 0%nat
           mbr_init st); [| |exact Hloop].
  - split; [cbn; lia|]. split; [reflexivity|]. split.
    + intros k p Hk. lia.
    + intros k _. unfold pte_at. cbn [mbr_init m_pte].
      destruct (replicate 4 zero_pte !! k) as [e|] eqn:E; [|reflexivity].
      apply lookup_replicate_1 in E as [-> _]. reflexivity.
  - intros j p st1 st2 Hj Hp Hinv Hb.
    rewrite Nat.sub_0_r in Hp.
    apply (mbr_laid_inv_step cfg parts j p st1 st2); try assumption. lia.
Qed.

(** X8: in an MBR run of at most four requests that succeeds, with a geometry
    whose cylinder is below [2 ^ 24] sectors, an alignment unit below [2 ^ 24]
    sectors, and starts and sizes of the requests below [2 ^ 27] KBytes (128
    GiB, so that four partitions stay inside the 32 bits of the fields): every
    partition laid out starts at or after the end of the first track, also
    when it is the only one; and the partitions come in the order of the
    requests, each one starting one track or more after the end of every
    partition requested before it. *)
Theorem X8_mbr_partitions_ordered cfg (parts : list partinfo) st :
  mbr_config_bounded cfg -> Forall mbr_request_bounded parts ->
  (length parts <= 4)%nat ->
  gen_ptable_loop cfg 0 parts mbr_init = Ok st ->
  (forall k p, parts !! k = Some p -> size p <> 0 ->
     sectors cfg <= pte_start (pte_at (m_pte st) k))
  /\ (forall k1 k2 p1 p2,
        (k1 < k2)%nat -> parts !! k1 = Some p1 -> parts !! k2 = Some p2 ->
        size p1 <> 0 -> size p2 <> 0 ->
        pte_start (pte_at (m_pte st) k1) + pte_length (pte_at (m_pte st) k1)
        + sectors cfg <= pte_start (pte_at (m_pte st) k2)).
Proof.
  intros Hcfg Hparts Hlen Hloop.
  destruct (mbr_laid_inv_final _ _ _ Hcfg Hparts Hlen Hloop)
    as (_ & _ & Hslots & _).
  split.
  - intros k p H1 Hz1.
    pose proof (lookup_lt_Some _ _ _ H1) as Hl1.
    destruct (Hslots k p Hl1 H1 Hz1) as ((Hs & _) & _). exact Hs.
  - intros k1 k2 p1 p2 Hk H1 H2 Hz1 Hz2.
    pose proof (lookup_lt_Some _ _ _ H2) as Hl2.
    destruct (Hslots k2 p2 Hl2 H2 Hz2) as (_ & _ & Hord).
    exact (Hord k1 p1 Hk H1 Hz1).
Qed.

(** X9: the length of an MBR partition, in a run of at most four requests
    that succeeds, with a geometry whose cylinder is below [2 ^ 24] sectors, an
    alignment unit below [2 ^ 24] sectors, and starts and sizes of the requests
    below [2 ^ 27] KBytes (128 GiB, so that four partitions stay inside the 32
    bits of the fields; beyond 32 bits the length is stored cut to 32 bits and
    the statement does not hold).  An explicit start is taken as twice its
    value in KBytes.  With an alignment unit the length is twice the size
    requested in KBytes, and a start that is not explicit is a multiple of the
    unit.  Without one the partition is made longer, by at least one sector and
    at most one cylinder, so that it ends on a cylinder boundary. *)
Theorem X9_mbr_partition_length cfg (parts : list partinfo) st
    (k : nat) (p : partinfo) :
  mbr_config_bounded cfg -> Forall mbr_request_bounded parts ->
  (length parts <= 4)%nat ->
  gen_ptable_loop cfg 0 parts mbr_init = Ok st ->
  parts !! k = Some p -> size p <> 0 ->
  let e := pte_at (m_pte st) k in
  (start p <> 0 -> pte_start e = 2 * start p)
  /\ (kb_align cfg = 0 ->
      (heads cfg * sectors cfg | pte_start e + pte_length e)
      /\ 2 * size p < pte_length e <= 2 * size p + heads cfg * sectors cfg)
  /\ (kb_align cfg <> 0 ->
      pte_length e = 2 * size p
      /\ (start p = 0 -> (kb_align cfg | pte_start e))).
Proof.
  intros Hcfg Hparts Hlen Hloop Hp Hz e.
  destruct (mbr_laid_inv_final _ _ _ Hcfg Hparts Hlen Hloop)
    as (_ & _ & Hslots & _).
  pose proof (lookup_lt_Some _ _ _ Hp) as Hl.
  destruct (cyl_size_bounded cfg Hcfg) as (Hc & _).
  destruct (Hslots k p Hl Hp Hz) as ((_ & _ & Hx & Hu & Ha & _) & _).
  rewrite <- Hc. subst e. split; [exact Hx|]. split; assumption.
Qed.

Lemma mbr_slots_inv_final cfg (parts : list partinfo) st :
  (length parts <= 4)%nat ->
  gen_ptable_loop cfg 0 parts mbr_init = Ok st ->
  mbr_slots_inv cfg parts (length parts) st.
Proof.
  intros Hlen Hloop.
  apply (gen_ptable_loop_ind_at cfg (mbr_slots_inv cfg parts) parts 0%nat
           mbr_init st); [| |exact Hloop].
  - split; [reflexivity|]. split.
    + intros k p Hk. lia.
    + intros k _. unfold pte_at. cbn [mbr_init m_pte].
      destruct (replicate 4 zero_pte !! k) as [e|] eqn:E; [|reflexivity].
      apply lookup_replicate_1 in E as [-> _]. reflexivity.
  - intros j p st1 st2 Hj Hp (Hl4 & Hslots & Hzero) Hb.
    rewrite Nat.sub_0_r in Hp.
    destruct (Z.eq_dec (size p) 0) as [Ez|Ez].
    + unfold gen_ptable_body in Hb. rewrite Ez in Hb. cbn [Z.eqb] in Hb.
      destruct (ignore_null_sized_partition cfg); [|discriminate].
      injection Hb as <-.
      split; [exact Hl4|]. split.
      * intros k q Hk Hq Hqz.
        assert (Hkj : (k < j)%nat).
        { destruct (Nat.eq_dec k j) as [->|]; [|lia].
          rewrite Hp in Hq. injection Hq as <-. contradiction. }
        exact (Hslots k q Hkj Hq Hqz).
      * intros k [Hk|Hk]; apply Hzero; [left; lia|right; exact Hk].
    + rewrite gen_ptable_body_laid in Hb by exact Ez.
      destruct (mbr_start cfg (m_sect st1) p) as [s|e] eqn:Es; cbn [bind] in Hb;
        [|discriminate].
      cbv zeta in Hb. injection Hb as <-. unfold mbr_slots_inv. cbn [m_pte].
      split; [rewrite length_insert; exact Hl4|]. split.
      * intros k q Hk Hq Hqz.
        destruct (Nat.eq_dec k j) as [->|Hne].
        -- rewrite Hp in Hq. injection Hq as <-.
           rewrite pte_at_insert by lia. split; reflexivity.
        -- rewrite pte_at_insert_ne by lia. apply (Hslots k q); [lia|exact Hq|exact Hqz].
      * intros k Hk.
        assert (Hkj : k <> j).
        { destruct Hk as [Hk|(q & Hq & Hqz)]; [lia|].
          intros ->. rewrite Hp in Hq. injection Hq as <-. contradiction. }
        rewrite pte_at_insert_ne by (intros Heq; apply Hkj; symmetry; exact Heq).
        apply Hzero. destruct Hk as [Hk|Hk]; [left; lia|right; exact Hk].
Qed.

(** X10: the slot of an MBR entry is the number of its request.  In a run of
    at most four requests that succeeds, whatever their sizes, the table has
    four slots; a request that is laid out fills its own slot with its type
    and with the active byte [0x80] when its number is the active one and [0]
    otherwise; a request that is skipped leaves its slot zero, as are the
    slots after the last request.  When moreover the cylinder is below
    [2 ^ 24] sectors, the alignment unit below [2 ^ 24] sectors and the starts
    and sizes of the requests below [2 ^ 27] KBytes (128 GiB, so that the start
    and the length stored in 32 bits are the sectors the CHS fields are
    computed from), the slot carries the CHS of the first and of the last
    sector of the start and length it stores. *)
Theorem X10_mbr_slot_of_request cfg (parts : list partinfo) st (k : nat) :
  (length parts <= 4)%nat ->
  gen_ptable_loop cfg 0 parts mbr_init = Ok st ->
  let e := pte_at (m_pte st) k in
  length (m_pte st) = 4%nat
  /\ (forall p, parts !! k = Some p -> size p <> 0 ->
      pte_type e = u8 (type p)
      /\ pte_active e = (if Z.of_nat k + 1 =? active cfg then 0x80 else 0)
      /\ (mbr_config_bounded cfg -> Forall mbr_request_bounded parts ->
          pte_chs_start e = to_chs cfg (pte_start e)
          /\ pte_chs_end e = to_chs cfg (pte_start e + pte_length e - 1)))
  /\ (forall p, parts !! k = Some p -> size p = 0 -> e = zero_pte)
  /\ ((length parts <= k)%nat -> e = zero_pte).
Proof.
  intros Hlen Hloop e.
  destruct (mbr_slots_inv_final _ _ _ Hlen Hloop) as (Hl4 & Hslots & Hzero).
  split; [exact Hl4|]. split; [|split].
  - intros p Hp Hz. pose proof (lookup_lt_Some _ _ _ Hp) as Hl.
    destruct (Hslots k p Hl Hp Hz) as [Ht Ha].
    split; [exact Ht|]. split; [exact Ha|].
    intros Hcfg Hparts.
    destruct (mbr_laid_inv_final _ _ _ Hcfg Hparts Hlen Hloop)
      as (_ & _ & Hlaid & _).
    destruct (Hlaid k p Hl Hp Hz)
      as ((_ & _ & _ & _ & _ & Hcs & Hce & _) & _).
    split; assumption.
  - intros p Hp Hz. apply Hzero. right. exists p. split; assumption.
  - intros Hk. apply Hzero. left. exact Hk.
Qed.

(** ** The image of an MBR run *)

Lemma pte_array_bytes_length (t : list pte) :
  Forall pte_wf t -> length (pte_array_bytes t) = (16 * length t)%nat.
Proof.
  unfold pte_array_bytes. induction 1 as [|e t [H1 H2] Ht IH]; [reflexivity|].
  cbn [map concat length]. rewrite length_app, IH.
  unfold pte_bytes. rewrite !length_app, !le_bytes_length, H1, H2.
  cbn [length]. lia.
Qed.

Lemma laid_out_cons_zero (p : partinfo) (l : list partinfo) :
  size p = 0 -> laid_out (p :: l) = laid_out l.
Proof.
  intros H. unfold laid_out. rewrite filter_cons.
  destruct (decide (size p <> 0)) as [Hn|_]; [contradiction|reflexivity].
Qed.

Lemma laid_out_cons_laid (p : partinfo) (l : list partinfo) :
  size p <> 0 -> laid_out (p :: l) = p :: laid_out l.
Proof.
  intros H. unfold laid_out. rewrite filter_cons.
  destruct (decide (size p <> 0)) as [_|Hn]; [reflexivity|contradiction].
Qed.

(** The table and the printed lines along the loop of [gen_ptable]: four
    entries of sixteen bytes, two lines for each request laid out. *)
Lemma gen_ptable_loop_shape cfg (l : list partinfo) : forall i st st',
  length (m_pte st) = 4%nat -> Forall pte_wf (m_pte st) ->
  gen_ptable_loop cfg i l st = Ok st' ->
  length (m_pte st') = 4%nat /\ Forall pte_wf (m_pte st')
  /\ length (m_out st') = (length (m_out st) + 2 * length (laid_out l))%nat.
Proof.
  induction l as [|p l IH]; intros i st st' Hlen Hwf Hloop; simpl in Hloop.
  - injection Hloop as <-. split; [exact Hlen|]. split; [exact Hwf|].
    cbn. lia.
  - destruct (gen_ptable_body cfg i p st) as [st1|e] eqn:E; cbn [bind] in Hloop;
      [|discriminate].
    destruct (Z.eq_dec (size p) 0) as [Ez|Ez].
    + unfold gen_ptable_body in E. rewrite Ez in E. cbn [Z.eqb] in E.
      destruct (ignore_null_sized_partition cfg); [|discriminate].
      injection E as <-. rewrite laid_out_cons_zero by exact Ez.
      exact (IH _ _ _ Hlen Hwf Hloop).
    + rewrite gen_ptable_body_laid in E by exact Ez.
      destruct (mbr_start cfg (m_sect st) p) as [s|e]; cbn [bind] in E;
        [|discriminate].
      cbv zeta in E. injection E as <-.
      rewrite laid_out_cons_laid by exact Ez.
      apply IH in Hloop;
        [|cbn [m_pte]; rewrite length_insert; exact Hlen
         |cbn [m_pte]; apply Forall_insert; [exact Hwf|split; reflexivity]].
      destruct Hloop as (H1 & H2 & H3).
      split; [exact H1|]. split; [exact H2|].
      rewrite H3. cbn [m_out length]. rewrite length_app. cbn [length]. lia.
Qed.

(** X11: an MBR run that succeeds opens the one file [filename] and writes
    three blocks into its first sector: the four bytes of the disk signature
    at byte 440, the four entries of sixteen bytes at byte 446, and the bytes
    [0x55 0xAA] at byte 510.  It prints two lines, an offset and a length, for
    each request of a size other than zero. *)
Theorem X11_mbr_image cfg fname sig (parts : list partinfo) tr out :
  gen_ptable cfg fname sig parts = (tr, Ok out) ->
  exists table,
    tr = [EvOpen fname;
          EvWrite fname 440 (le_bytes 4 sig);
          EvWrite fname 446 table;
          EvWrite fname 510 [0x55; 0xaa]]
    /\ length (le_bytes 4 sig) = 4%nat
    /\ length table = 64%nat
    /\ length out = (2 * length (laid_out parts))%nat.
Proof.
  unfold gen_ptable. intros H.
  destruct (gen_ptable_loop cfg 0 parts mbr_init) as [st|e] eqn:E;
    [|discriminate].
  injection H as <- <-.
  apply gen_ptable_loop_shape in E;
    [|reflexivity
     |cbn [mbr_init m_pte]; apply Forall_replicate; split; reflexivity].
  destruct E as (H1 & H2 & H3).
  exists (pte_array_bytes (m_pte st)).
  split; [reflexivity|]. split; [reflexivity|].
  split; [rewrite pte_array_bytes_length, H1 by exact H2; reflexivity|].
  exact H3.
Qed.

Lemma le_decode_le_bytes_8 (x : Z) :
  0 <= x < 2 ^ 64 -> le_decode (le_bytes 8 x) = x.
Proof.
  intros H. cbn [le_bytes le_decode].
  assert (E : forall y, 0 <= y -> y mod 256 + 256 * (y / 256) = y)
    by (intros y _; pose proof (Z.div_mod y 256 ltac:(lia)); lia).
  assert (Hd : x / 256 / 256 / 256 / 256 / 256 / 256 / 256 / 256 = 0).
  { rewrite !Z.div_div by lia. apply Z.div_small. lia. }
  rewrite (Z.mod_small (x / 256 / 256 / 256 / 256 / 256 / 256 / 256) 256).
  2:{ split; [repeat apply Z.div_pos; lia|].
      apply Z.div_lt_upper_bound; [lia|].
      rewrite !Z.div_div by lia. apply Z.div_lt_upper_bound; lia. }
  rewrite Z.mul_0_r, Z.add_0_r.
  set (a7 := x / 256 / 256 / 256 / 256 / 256 / 256 / 256).
  pose proof (Z.div_mod x 256 ltac:(lia)).
  pose proof (Z.div_mod (x / 256) 256 ltac:(lia)).
  pose proof (Z.div_mod (x / 256 / 256) 256 ltac:(lia)).
  pose proof (Z.div_mod (x / 256 / 256 / 256) 256 ltac:(lia)).
  pose proof (Z.div_mod (x / 256 / 256 / 256 / 256) 256 ltac:(lia)).
  pose proof (Z.div_mod (x / 256 / 256 / 256 / 256 / 256) 256 ltac:(lia)).
  pose proof (Z.div_mod (x / 256 / 256 / 256 / 256 / 256 / 256) 256 ltac:(lia)).
  fold a7 in H6. lia.
Qed.

(** ** The image of a GPT run *)

(** X12: the files and the offsets of a GPT run that succeeds.  Without the
    split everything goes to [filename]: the MBR blocks as in an MBR run, the
    header of 92 bytes at byte 512, a zero byte at the end of its sector, the
    entry array of 16384 bytes at the first-entry sector and, with the
    alternate table, the array again in the 32 sectors before the alternate
    header, that header in the sector the primary header names (bytes 32 to
    39), and a zero byte at the end of that sector.  Each of these four blocks
    lands at the byte offset of its sector when that offset is not negative as
    [off_t]; when it is, [lseek] refuses it and the block lands right after
    the block written before it.  With the split the head goes to
    [filename.start], the entry array to [filename.entry] unless the
    first-entry sector is 2, and the alternate table to [filename.end], which
    holds the array at byte 0 and the header in its 33rd sector. *)
Theorem X12_gpt_image cfg fname sig g (parts : list partinfo) tr out :
  length g = 16%nat -> Forall (fun p => length (guid p) = 16%nat) parts ->
  gen_gptable cfg fname sig g parts = (tr, Ok out) ->
  exists ptes hdr hdr' ents (end_ p1 p2 p3 p4 : Z),
    length hdr = 92%nat /\ length hdr' = 92%nat /\ length ents = (128 * 128)%nat
    /\ le_decode (take 8 (drop 32 hdr)) = end_
    /\ p1 = lands 1024 (s64 (u64 (gpt_first_entry_sector cfg * 512)))
    /\ p2 = lands (p1 + 16384) (s64 (u64 (end_ * 512 - 16384)))
    /\ p3 = lands (p2 + 16384) (s64 (u64 (end_ * 512)))
    /\ p4 = lands (p3 + 92) (s64 (u64 (u64 (end_ + 1) * 512 - 1)))
    /\ (gpt_split_image cfg = false ->
        tr = [EvOpen fname;
              EvWrite fname 440 (le_bytes 4 sig);
              EvWrite fname 446 ptes;
              EvWrite fname 510 [0x55; 0xaa];
              EvWrite fname 512 hdr;
              EvWrite fname 1023 [0x00];
              EvWrite fname p1 ents]
             ++ (if gpt_alternate cfg
                 then [EvWrite fname p2 ents;
                       EvWrite fname p3 hdr';
                       EvWrite fname p4 [0x00]]
                 else []))
    /\ (gpt_split_image cfg = true ->
        tr = [EvOpen (fname ++ ".start")%string;
              EvWrite (fname ++ ".start")%string 440 (le_bytes 4 sig);
              EvWrite (fname ++ ".start")%string 446 ptes;
              EvWrite (fname ++ ".start")%string 510 [0x55; 0xaa];
              EvWrite (fname ++ ".start")%string 512 hdr;
              EvWrite (fname ++ ".start")%string 1023 [0x00]]
             ++ (if gpt_first_entry_sector cfg =? 2
                 then [EvWrite (fname ++ ".start")%string 1024 ents]
                 else [EvOpen (fname ++ ".entry")%string;
                       EvWrite (fname ++ ".entry")%string 0 ents])
             ++ (if gpt_alternate cfg
                 then [EvOpen (fname ++ ".end")%string;
                       EvWrite (fname ++ ".end")%string 0 ents;
                       EvWrite (fname ++ ".end")%string 16384 hdr';
                       EvWrite (fname ++ ".end")%string 16895 [0x00]]
                 else [])).
Proof.
  intros Hg Hp Hrun.
  destruct (gen_gptable_inv _ _ _ _ _ _ _ Hrun) as (tb & Hb & -> & _).
  pose proof (gpt_build_entries_length _ _ _ _ Hg Hp Hb) as Hlen.
  destruct (gpt_build_inv _ _ _ _ Hb) as (st & _ & _ & _ & _ & Hend & _ & Hh).
  assert (Hdg : h_disk_guid (t_gpth tb) = g) by (rewrite Hh; reflexivity).
  assert (Halt : h_alternate (t_gpth tb) = t_end tb) by (rewrite Hh; reflexivity).
  assert (Hl' : length (gpth_bytes (gpth_alternate (t_end tb) (t_gpth tb)))
                = 92%nat).
  { apply gpth_bytes_length.
    change (length (h_disk_guid (t_gpth tb)) = 16%nat). rewrite Hdg. exact Hg. }
  destruct (gpt_emit_trace cfg fname sig tb) as [T1 T2].
  cbv zeta in T1, T2. rewrite Hlen, Hl' in T1.
  change (Z.of_nat (128 * 128)) with 16384 in T1.
  change (Z.of_nat 92) with 92 in T1.
  change DISK_SECTOR_SIZE with 512 in T1.
  change (GPT_ENTRY_SIZE * GPT_ENTRY_MAX) with 16384 in T1.
  eexists (pte_array_bytes (t_pte tb)), (gpth_bytes (t_gpth tb)),
    (gpth_bytes (gpth_alternate (t_end tb) (t_gpth tb))),
    (gpte_array_bytes (t_gpte tb)), (t_end tb), _, _, _, _.
  split; [apply gpth_bytes_length; rewrite Hdg; exact Hg|].
  split; [exact Hl'|].
  split; [exact Hlen|].
  split.
  { unfold gpth_bytes. cbn [le_bytes app drop take].
    rewrite Halt. apply le_decode_le_bytes_8.
    rewrite Hend. apply u64_range. }
  do 4 (split; [reflexivity|]).
  split; [exact T1|exact T2].
Qed.

(** ** The protective entry *)

Lemma gen_gptable_loop_slot_0 cfg g (l : list partinfo) : forall i st st',
  (1 <= g_pmbr st)%nat -> length (g_pte st) = 4%nat ->
  gen_gptable_loop cfg g i l st = Ok st' ->
  (1 <= g_pmbr st')%nat
  /\ g_pte st' !! 0%nat = g_pte st !! 0%nat
  /\ (Forall (fun p => hybrid p = 0) l -> g_pte st' = g_pte st).
Proof.
  induction l as [|p l IH]; intros i st st' Hpm Hlen Hloop; simpl in Hloop.
  - injection Hloop as <-. repeat split. exact Hpm.
  - destruct (gen_gptable_body cfg g i p st) as [st1|e] eqn:E;
      cbn [bind] in Hloop; [|discriminate].
    apply gen_gptable_body_inv in E as [[_ ->]|(_ & s & _ & _ & ->)].
    + destruct (IH _ _ _ Hpm Hlen Hloop) as (H1 & H2 & H3).
      split; [exact H1|]. split; [exact H2|].
      intros Hh. apply H3. inversion Hh; assumption.
    + assert (Hhy : (1 <= snd (gpt_hybrid cfg i p s (requested_end s p)
                                 (g_pte st) (g_pmbr st)))%nat
                    /\ fst (gpt_hybrid cfg i p s (requested_end s p)
                              (g_pte st) (g_pmbr st)) !! 0%nat
                       = g_pte st !! 0%nat
                    /\ (hybrid p = 0 ->
                        fst (gpt_hybrid cfg i p s (requested_end s p)
                               (g_pte st) (g_pmbr st)) = g_pte st)).
      { unfold gpt_hybrid.
        destruct (hybrid p =? 0) eqn:Eh; cbn [negb andb fst snd].
        - repeat split. exact Hpm.
        - apply Z.eqb_neq in Eh.
          destruct (Z.of_nat (g_pmbr st) <? MBR_ENTRY_MAX); cbn [fst snd].
          + split; [lia|]. split; [|intros Hz; contradiction].
            rewrite !list_lookup_insert_ne by lia. reflexivity.
          + split; [exact Hpm|]. split; [reflexivity|]. intros _. reflexivity. }
      destruct Hhy as (Hh1 & Hh2 & Hh3).
      apply IH in Hloop;
        [|exact Hh1|cbn [g_pte]; rewrite gpt_hybrid_length; exact Hlen].
      cbn [g_pmbr g_pte] in Hloop. destruct Hloop as (H1 & H2 & H3).
      split; [exact H1|]. split; [rewrite H2; exact Hh2|].
      intros Hh. inversion Hh as [|? ? Hp0 Hrest]; subst.
      rewrite (H3 Hrest). apply Hh3. exact Hp0.
Qed.

(** X13: the first of the four MBR entries of a GPT build is the protective
    one: type [0xEE], not active, from sector 1, with a length that is the
    sector of the alternate header cut to 32 bits, and the CHS of sector 1
    and of that sector.  When no request is hybrid the three other entries
    are zero. *)
Theorem X13_gpt_protective_entry cfg g (parts : list partinfo) tb :
  gpt_build cfg g parts = Ok tb ->
  pte_at (t_pte tb) 0
  = mk_pte 0 (to_chs cfg 1) 0xEE
      (to_chs cfg (s64 (h_alternate (t_gpth tb)))) 1
      (u32 (h_alternate (t_gpth tb)))
  /\ (Forall (fun p => hybrid p = 0) parts ->
      forall k, (1 <= k)%nat -> pte_at (t_pte tb) k = zero_pte).
Proof.
  intros Hb.
  destruct (gpt_build_inv _ _ _ _ Hb)
    as (st & Hloop & _ & _ & _ & Hend & Hpte & Hh).
  assert (Halt : h_alternate (t_gpth tb) = t_end tb) by (rewrite Hh; reflexivity).
  destruct (gen_gptable_loop_lengths _ _ _ _ _ _ Hloop) as [Hl4 _].
  apply gen_gptable_loop_slot_0 in Hloop; [|cbn; lia|reflexivity].
  destruct Hloop as (_ & H0 & Hnone).
  cbn [gpt_init g_pte] in H0, Hnone, Hl4.
  rewrite Hpte, Halt. split.
  - rewrite pte_at_insert by (rewrite Hl4; cbn; lia).
    unfold pte_at at 1. rewrite H0. cbn [lookup list_lookup replicate default].
    cbn [zero_pte pte_active].
    f_equal. change GPT_HEADER_SECTOR with 1.
    replace (t_end tb + 1 - 1) with (t_end tb) by lia.
    rewrite Hend, u64_idem. reflexivity.
  - intros Hhy k Hk. rewrite pte_at_insert_ne by lia.
    rewrite (Hnone Hhy). unfold pte_at.
    destruct (replicate 4 zero_pte !! k) as [e|] eqn:E; [|reflexivity].
    apply lookup_replicate_1 in E as [-> _]. reflexivity.
Qed.

(** ** Long names *)

(** The loop on as many ASCII characters as it has iterations left copies
    them all and writes no terminator. *)
Lemma init_utf16_loop_ascii_full (s : list Z) :
  Forall is_ascii s ->
  forall (front back pre rest : list Z),
    length back = length s ->
    init_utf16_loop (pre ++ s ++ rest) (length s) (length front) (length pre)
      (front ++ back)
    = front ++ s.
Proof.
  induction 1 as [|b s Hb Hs IH]; intros front back pre rest Hback.
  - destruct back; [|discriminate]. reflexivity.
  - destruct back as [|x back]; [discriminate|].
    cbn [length init_utf16_loop].
    assert (Hstep : utf16_step (pre ++ (b :: s) ++ rest) (length pre)
                    = Some (b, S (length pre))).
    { unfold utf16_step.
      replace (str_at (pre ++ (b :: s) ++ rest) (length pre)) with b
        by (rewrite <- (Nat.add_0_r (length pre)), str_at_app_r; reflexivity).
      pose proof (ascii_step_ok_all b ltac:(unfold is_ascii in Hb; lia)) as Hok.
      unfold ascii_step_ok in Hok.
      replace (0 <? b) with true in Hok
        by (symmetry; apply Z.ltb_lt; unfold is_ascii in Hb; lia).
      replace (b <? 128) with true in Hok
        by (symmetry; apply Z.ltb_lt; unfold is_ascii in Hb; lia).
      simpl in Hok.
      apply andb_prop in Hok as [Hok Hu]. apply andb_prop in Hok as [Hz Ha].
      apply negb_true_iff in Hz. rewrite Hz, Ha.
      apply Z.eqb_eq in Hu. rewrite Hu. reflexivity. }
    rewrite Hstep.
    rewrite <- (Nat.add_0_r (length front)) at 2. rewrite insert_app_r.
    cbn [insert list_insert].
    replace (pre ++ (b :: s) ++ rest) with ((pre ++ [b]) ++ s ++ rest)
      by (rewrite <- !app_assoc; reflexivity).
    replace (front ++ b :: back) with ((front ++ [b]) ++ back)
      by (rewrite <- app_assoc; reflexivity).
    replace (S (length front)) with (length (front ++ [b]))
      by (rewrite length_app; simpl; lia).
    replace (S (length pre)) with (length (pre ++ [b]))
      by (rewrite length_app; simpl; lia).
    rewrite IH by (simpl in Hback; lia).
    rewrite <- app_assoc. reflexivity.
Qed.

(** X14: the name field of an ASCII name holds its first 36 characters: a
    shorter name is followed by zero units, a name of 36 characters or more
    fills the field and is cut after the 36th, with no terminator. *)
Theorem X14_init_utf16_ascii_field (s : list Z) :
  Forall is_ascii s ->
  init_utf16 s (replicate 36 0) 36 = take 36 s ++ replicate (36 - length s) 0.
Proof.
  intros Hs. unfold init_utf16.
  destruct (le_lt_dec (length s) 36) as [Hle|Hgt].
  - pose proof (init_utf16_loop_ascii s Hs 36 [] (replicate 36 0) []
                  Hle (length_replicate _ _)) as H.
    cbn [app length] in H. rewrite H.
    rewrite insert_replicate, drop_replicate.
    rewrite take_ge by lia. reflexivity.
  - replace (36 - length s)%nat with 0%nat by lia.
    cbn [replicate]. rewrite app_nil_r.
    assert (Hs1 : Forall is_ascii (take 36 s)) by (apply Forall_take, Hs).
    pose proof (init_utf16_loop_ascii_full (take 36 s) Hs1 [] (replicate 36 0)
                  [] (drop 36 s)) as H.
    rewrite length_take, Nat.min_l in H by lia.
    cbn [app length] in H. rewrite take_drop in H.
    apply H. apply length_replicate.
Qed.

(** ** The text of an identifier *)

Lemma hex_byte_ok_all (b : Z) : 0 <= b < 256 -> hex_byte_ok b = true.
Proof. apply (forallb_below hex_byte_ok 256). vm_compute. reflexivity. Qed.

Lemma hex_byte_chars (b : Z) :
  0 <= b < 256 ->
  hex_digit (b / 16) <> 0 /\ hex_digit (b / 16) <> 45
  /\ hex_digit (b mod 16) <> 0.
Proof.
  intros Hb. pose proof (hex_byte_ok_all b Hb) as H.
  unfold hex_byte_ok, hex_byte in H. cbn [forallb] in H.
  apply andb_prop in H as [H1 H2]. apply andb_prop in H2 as [H2 _].
  apply andb_prop in H1 as [H1 H1']. apply andb_prop in H2 as [H2 _].
  apply negb_true_iff, Z.eqb_neq in H1, H1', H2. repeat split; assumption.
Qed.

Lemma c_strlen_no_zero (l : list Z) :
  Forall (fun c => c <> 0) l -> c_strlen l = length l.
Proof.
  induction 1 as [|c l Hc Hl IH]; [reflexivity|].
  cbn [c_strlen length]. destruct (c =? 0) eqn:E;
    [apply Z.eqb_eq in E; contradiction|]. rewrite IH. reflexivity.
Qed.

Lemma guid_item_no_zero (it : bool * Z) :
  0 <= snd it < 256 -> Forall (fun c => c <> 0) (guid_item it).
Proof.
  intros Hb. destruct (hex_byte_chars (snd it) Hb) as (H1 & _ & H2).
  unfold guid_item, hex_byte. destruct (fst it); cbn [app];
    repeat constructor; try assumption. discriminate.
Qed.

Section Guid_parse.
Variable strtol : list Z -> Z -> Z.
Hypothesis strtol_hex : forall b, 0 <= b < 256 -> strtol (hex_byte b) 16 = b.

(** The loop of [guid_parse] reads one byte from each item of the text. *)
Lemma guid_parse_loop_items (l : list (bool * Z)) :
  Forall (fun it => 0 <= snd it < 256) l ->
  forall (pre rest acc : list Z),
    guid_parse_loop strtol (pre ++ concat (map guid_item l) ++ rest)
      (length l) (length pre) acc
    = Some (acc ++ map snd l).
Proof.
  induction 1 as [|[dash b] l Hb Hl IH]; intros pre rest acc.
  - cbn. rewrite app_nil_r. reflexivity.
  - cbn [snd] in Hb. destruct (hex_byte_chars b Hb) as (H1 & H2 & H3).
    cbn [length guid_parse_loop map concat].
    set (str := pre ++ (guid_item (dash, b) ++ concat (map guid_item l)) ++ rest).
    assert (Hstr : forall tail, str = (pre ++ tail) ++
                     drop (length tail) (guid_item (dash, b))
                     ++ concat (map guid_item l) ++ rest ->
                   True) by (intros; exact I).
    clear Hstr.
    assert (Hd : str_at str (length pre) = if dash then 45
                                           else hex_digit (b / 16)).
    { subst str. rewrite <- (Nat.add_0_r (length pre)), str_at_app_r.
      destruct dash; reflexivity. }
    set (p1 := if str_at str (length pre) =? 45 then S (length pre)
               else length pre).
    assert (Hp1 : p1 = (length pre + (if dash then 1 else 0))%nat).
    { subst p1. rewrite Hd. destruct dash; cbn [Z.eqb Pos.eqb].
      - lia.
      - destruct (hex_digit (b / 16) =? 45) eqn:E;
          [apply Z.eqb_eq in E; contradiction|lia]. }
    assert (Hc0 : str_at str p1 = hex_digit (b / 16)).
    { rewrite Hp1. subst str. rewrite str_at_app_r. destruct dash; reflexivity. }
    assert (Hc1 : str_at str (S p1) = hex_digit (b mod 16)).
    { rewrite Hp1. subst str.
      replace (S (length pre + (if dash then 1 else 0)))
        with (length pre + (if dash then 2 else 1))%nat
        by (destruct dash; lia).
      rewrite str_at_app_r. destruct dash; reflexivity. }
    rewrite Hc0, Hc1.
    destruct (hex_digit (b / 16) =? 0) eqn:E0;
      [apply Z.eqb_eq in E0; contradiction|].
    fold (hex_byte b). rewrite (strtol_hex b Hb).
    replace (u8 b) with b by (unfold u8; symmetry; apply Z.mod_small; lia).
    replace (p1 + 2)%nat with (length (pre ++ guid_item (dash, b))).
    2:{ rewrite length_app, Hp1. unfold guid_item, hex_byte.
        destruct dash; cbn; lia. }
    subst str.
    replace (pre ++ (guid_item (dash, b) ++ concat (map guid_item l)) ++ rest)
      with ((pre ++ guid_item (dash, b)) ++ concat (map guid_item l) ++ rest)
      by (rewrite <- !app_assoc; reflexivity).
    rewrite IH. rewrite <- app_assoc. reflexivity.
Qed.

(** X15: [guid_parse] reads back the text of an identifier: on the 36
    characters that write sixteen bytes in the usual form (8-4-4-4-12
    hexadecimal digits, the first three groups with their bytes reversed) it
    succeeds with these sixteen bytes, whenever [strtol] reads two hexadecimal
    digits as their value.  A string of fewer than 36 characters is refused. *)
Theorem X15_guid_parse_round_trip (g buf : list Z) :
  (length g = 16%nat -> Forall (fun b => 0 <= b < 256) g ->
   length (guid_format g) = 36%nat
   /\ guid_parse strtol (guid_format g) = Some g)
  /\ ((c_strlen buf < 36)%nat -> guid_parse strtol buf = None).
Proof.
  split.
  - intros Hg Hb. split_guid g Hg.
    assert (Hit : Forall (fun it : bool * Z => 0 <= snd it < 256)
                    (guid_items [z; z0; z1; z2; z3; z4; z5; z6; z7; z8; z9;
                                 z10; z11; z12; z13; z14])).
    { cbn [guid_items].
      repeat match goal with
             | H : Forall _ (_ :: _) |- _ => inversion H; clear H; subst
             end.
      repeat constructor; cbn [snd]; lia. }
    assert (Hlen : length (guid_format [z; z0; z1; z2; z3; z4; z5; z6; z7; z8;
                                        z9; z10; z11; z12; z13; z14]) = 36%nat)
      by reflexivity.
    split; [exact Hlen|].
    unfold guid_parse.
    assert (Hnz : Forall (fun c => c <> 0)
                    (guid_format [z; z0; z1; z2; z3; z4; z5; z6; z7; z8; z9;
                                  z10; z11; z12; z13; z14])).
    { unfold guid_format. apply Forall_concat, Forall_map.
      eapply Forall_impl; [exact Hit|].
      intros it Hi. apply guid_item_no_zero, Hi. }
    rewrite (c_strlen_no_zero _ Hnz), Hlen. cbn [Nat.min Nat.eqb negb].
    pose proof (guid_parse_loop_items _ Hit [] [] []) as Hloop.
    cbn [app length] in Hloop. rewrite app_nil_r in Hloop.
    fold (guid_format [z; z0; z1; z2; z3; z4; z5; z6; z7; z8; z9; z10; z11;
                       z12; z13; z14]) in Hloop.
    change (length (guid_items [z; z0; z1; z2; z3; z4; z5; z6; z7; z8; z9;
                                z10; z11; z12; z13; z14])) with 16%nat in Hloop.
    rewrite Hloop. reflexivity.
  - intros Hlen. unfold guid_parse.
    replace (Nat.min (c_strlen buf) 36 =? 36)%nat with false
      by (symmetry; apply Nat.eqb_neq; lia).
    reflexivity.
Qed.
End Guid_parse.

(** ** The options of [main] *)

Lemma u8_range (x : Z) : 0 <= u8 x < 256.
Proof. unfold u8. apply Z.mod_pos_bound. lia. Qed.

Lemma guid_of_type_length (t : Z) : length (guid_of_type t) = 16%nat.
Proof.
  unfold guid_of_type, type_to_guid_and_name.
  destruct (t =? 239); [reflexivity|].
  destruct (t =? 131); [reflexivity|].
  destruct (t =? 46); reflexivity.
Qed.

Lemma guid_of_keyword_length (g : list Z) :
  guid_of_keyword g -> length g = 16%nat.
Proof. intros [->|[->| ->]]; reflexivity. Qed.

Lemma type_to_guid_and_name_fst (t : Z) (n : option (list Z)) :
  fst (type_to_guid_and_name t n) = guid_of_type t.
Proof.
  unfold guid_of_type, type_to_guid_and_name.
  destruct (t =? 239); [reflexivity|].
  destruct (t =? 131); [reflexivity|].
  destruct (t =? 46); reflexivity.
Qed.

Lemma parse_gpt_parttype_fields (kw : list Z) (slot q : partinfo) :
  parse_gpt_parttype kw slot = Some q ->
  has_guid q = true /\ guid_of_keyword (guid q)
  /\ (gattr q = gattr slot \/ gattr q = Z.lor (Z.shiftl 1 48) (Z.shiftl 1 56))
  /\ start q = start slot /\ size q = size slot /\ type q = type slot
  /\ hybrid q = hybrid slot /\ required q = required slot
  /\ name q = name slot /\ actual_start q = actual_start slot.
Proof.
  unfold parse_gpt_parttype, guid_of_keyword. intros H.
  repeat match type of H with
         | (if ?c then _ else _) = _ => destruct c
         end;
    [injection H as <- ..|discriminate H]; cbn; tauto.
Qed.

Section Main_options.
Variable strtoul : list Z -> Z -> Z.
Variable strtoull : list Z -> Z * list Z.
Variable strtol : list Z -> Z -> Z.

Lemma guid_parse_loop_length (buf : list Z) (k p : nat) (acc g : list Z) :
  guid_parse_loop strtol buf k p acc = Some g ->
  length g = (length acc + k)%nat.
Proof.
  revert p acc. induction k as [|k IH]; intros p acc H; cbn in H.
  - injection H as <-. lia.
  - destruct (str_at buf (if str_at buf p =? 45 then S p else p) =? 0);
      [discriminate H|].
    apply IH in H. rewrite length_app in H. cbn in H. lia.
Qed.

Lemma guid_parse_length (buf g : list Z) :
  guid_parse strtol buf = Some g -> length g = 16%nat.
Proof.
  unfold guid_parse. destruct (negb _); [discriminate|].
  destruct (guid_parse_loop strtol buf 16 0 []) as [g0|] eqn:E; [|discriminate].
  intros [= <-]. apply guid_parse_loop_length in E. cbn in E.
  split_guid g0 E. reflexivity.
Qed.

(** What one option does to the counter and to the array of requests. *)
Lemma main_option_cases (ch : ascii) (optarg : list Z) (ms ms' : main_state) :
  main_option strtoul strtoull strtol ch optarg ms = Continue ms' ->
  (ch = "p"%char /\ main_option_p strtoull optarg ms = Continue ms')
  \/ (ch = "T"%char /\ ms_part ms' = ms_part ms
      /\ exists q, parse_gpt_parttype optarg
                     (part_at (ms_parts ms) (ms_part ms)) = Some q
                   /\ ms_parts ms' = <[ms_part ms := q]> (ms_parts ms)
                   /\ ms_cfg ms' = ms_cfg ms /\ ms_type ms' = ms_type ms
                   /\ ms_hybrid ms' = ms_hybrid ms
                   /\ ms_required ms' = ms_required ms
                   /\ ms_guid ms' = ms_guid ms)
  \/ (ch <> "p"%char /\ ch <> "T"%char
      /\ ms_part ms' = ms_part ms /\ ms_parts ms' = ms_parts ms
      /\ main_option strtoul strtoull strtol ch optarg ms = Continue ms').
Proof.
  intros H.
  destruct (decide (ch = "p"%char)) as [->|Hp]; [left; split; [reflexivity|exact H]|].
  destruct (decide (ch = "T"%char)) as [->|HT].
  - right; left. cbn in H.
    destruct (parse_gpt_parttype optarg _) as [q|] eqn:E; [|discriminate H].
    injection H as <-. cbn. split; [reflexivity|]. split; [reflexivity|].
    exists q. repeat split; reflexivity.
  - right; right. split; [exact Hp|]. split; [exact HT|].
    split; [|split; [|exact H]];
      destruct ch as [[] [] [] [] [] [] [] []];
      try discriminate H; try contradiction;
      cbn in H;
      repeat match type of H with
             | (if ?c then _ else _) = _ => destruct c
             | match ?c with _ => _ end = _ => destruct c
             end;
      try discriminate H; injection H as <-; reflexivity.
Qed.

Lemma main_option_p_inv (optarg : list Z) (ms ms' : main_state) :
  main_inv ms ->
  main_option_p strtoull optarg ms = Continue ms' ->
  main_inv ms'.
Proof.
  intros (Hlen & Hpart & Hmbr & Hty & Hhy & Hrq & Hg & Hfe & Hlu & Hsp & Hreq) H.
  unfold main_option_p in H.
  destruct ((GPT_ENTRY_MAX - 1 <? Z.of_nat (ms_part ms))
            || (negb (use_guid_partition_table (ms_cfg ms))
                && (3 <? Z.of_nat (ms_part ms)))) eqn:Ecap; [discriminate H|].
  apply orb_false_iff in Ecap as [E1 E2].
  apply Z.ltb_ge in E1. unfold GPT_ENTRY_MAX in E1.
  destruct (c_split_at 64 optarg) as [size_str start_str].
  set (slot := part_at (ms_parts ms) (ms_part ms)) in *.
  destruct (if has_guid slot then (guid slot, ms_name ms)
            else type_to_guid_and_name (ms_type ms) (ms_name ms))
    as [guid_ name_] eqn:Eg.
  injection H as <-. unfold main_inv. cbn.
  assert (Hslot : ms_parts ms !! ms_part ms = Some slot).
  { subst slot. unfold part_at.
    destruct (ms_parts ms !! ms_part ms) as [p|] eqn:E; [reflexivity|].
    apply lookup_ge_None in E. lia. }
  pose proof (Hreq _ _ Hslot) as (Hga & Hkw & Hst & _).
  split; [rewrite length_insert; exact Hlen|].
  split; [lia|].
  split.
  { intros Hm. rewrite Hm in E2. cbn in E2. apply Z.ltb_ge in E2. lia. }
  split; [exact Hty|]. split; [left; reflexivity|]. split; [left; reflexivity|].
  split; [exact Hg|]. split; [exact Hfe|]. split; [exact Hlu|].
  split; [exact Hsp|].
  intros k p Hk.
  destruct (decide (k = ms_part ms)) as [->|Hne].
  - rewrite list_lookup_insert_eq in Hk by lia. injection Hk as <-.
    unfold request_of_main. cbn.
    split; [exact Hga|]. split.
    { intros Hh. rewrite Hh in Eg. injection Eg as <- _. apply Hkw, Hh. }
    split; [destruct start_str; [apply u64_range|exact Hst]|].
    intros _. split; [exact Hty|]. split.
    { intros Hh. rewrite Hh in Eg.
      rewrite <- (type_to_guid_and_name_fst (ms_type ms) (ms_name ms)), Eg.
      reflexivity. }
    split; [apply u64_range|]. split; assumption.
  - rewrite list_lookup_insert_ne in Hk by congruence.
    pose proof (Hreq _ _ Hk) as (Hga' & Hkw' & Hst' & Hf').
    unfold request_of_main. split; [exact Hga'|]. split; [exact Hkw'|].
    split; [exact Hst'|].
    intros Hb. apply bool_decide_eq_true in Hb. apply Hf'.
    apply bool_decide_eq_true. lia.
Qed.

Lemma request_of_main_insert (ms : main_state) (q : partinfo) :
  (forall k p, ms_parts ms !! k = Some p ->
               request_of_main (bool_decide (k < ms_part ms)%nat) p) ->
  length (ms_parts ms) = 128%nat ->
  parse_gpt_parttype_keeps (part_at (ms_parts ms) (ms_part ms)) q ->
  forall k p, <[ms_part ms := q]> (ms_parts ms) !! k = Some p ->
              request_of_main (bool_decide (k < ms_part ms)%nat) p.
Proof.
  intros Hreq Hlen (Hhg & Hkw & Hga & Hst) k p Hk.
  destruct (decide (k = ms_part ms)) as [->|Hne].
  - destruct (decide (ms_part ms < length (ms_parts ms))%nat) as [Hlt|Hge].
    + rewrite list_lookup_insert_eq in Hk by exact Hlt. injection Hk as <-.
      assert (Hslot : ms_parts ms !! ms_part ms
                      = Some (part_at (ms_parts ms) (ms_part ms))).
      { unfold part_at.
        destruct (ms_parts ms !! ms_part ms) as [p|] eqn:E; [reflexivity|].
        apply lookup_ge_None in E. lia. }
      pose proof (Hreq _ _ Hslot) as (Hga' & _ & Hst' & _).
      split; [destruct Hga as [-> | ->]; [exact Hga'|right; reflexivity]|].
      split; [intros _; exact Hkw|].
      split; [rewrite Hst; exact Hst'|].
      intros Hb. apply bool_decide_eq_true in Hb. lia.
    + rewrite list_insert_ge in Hk by lia. apply (Hreq _ _ Hk).
  - rewrite list_lookup_insert_ne in Hk by congruence. apply (Hreq _ _ Hk).
Qed.

Lemma main_option_inv (ch : ascii) (optarg : list Z) (ms ms' : main_state) :
  main_inv ms ->
  main_option strtoul strtoull strtol ch optarg ms = Continue ms' ->
  main_inv ms'.
Proof.
  intros Hinv H.
  destruct (decide (ch = "p"%char)) as [->|Hp];
    [exact (main_option_p_inv optarg ms ms' Hinv H)|].
  destruct Hinv as (Hlen & Hpart & Hmbr & Hty & Hhy & Hrq & Hg & Hfe & Hlu
                    & Hsp & Hreq).
  destruct (decide (ch = "T"%char)) as [->|HT].
  - cbn in H.
    destruct (parse_gpt_parttype optarg _) as [q|] eqn:E; [|discriminate H].
    injection H as <-. unfold main_inv. cbn.
    rewrite length_insert. repeat (split; [assumption|]).
    apply request_of_main_insert; [exact Hreq|exact Hlen|].
    apply parse_gpt_parttype_fields in E
      as (E1 & E2 & E3 & E4 & _). repeat split; assumption.
  - destruct ch as [[] [] [] [] [] [] [] []];
      try discriminate H; try contradiction;
      cbn in H;
      repeat match type of H with
             | (if ?c then _ else _) = _ => destruct c eqn:?
             | match ?c with _ => _ end = _ => destruct c eqn:?
             end;
      try discriminate H; injection H as <-;
      unfold main_inv; cbn;
      repeat match goal with
             | |- _ /\ _ => split
             end;
      try assumption; try (left; reflexivity); try (right; reflexivity);
      try lia; try discriminate;
      try (intros; reflexivity).
    all: try match goal with
             | |- context [u8 ?x] => pose proof (u8_range x); lia
             end.
    all: try (destruct Hlu as [Hlu|[Ha Hlu]]; [left; exact Hlu|right; split; [reflexivity|exact Hlu]]).
    all: try (intros Hm; apply Hmbr; exact Hm).
    all: try (eapply guid_parse_length; eassumption).
    all: try match goal with
             | E : (?fe <? GPT_FIRST_ENTRY_SECTOR) = false |- _ =>
                 apply Z.ltb_ge in E; unfold GPT_FIRST_ENTRY_SECTOR in E;
                 pose proof (u64_range (s64 (2 * to_kbytes strtoull optarg)));
                 lia
             end.
    all: try match goal with
             | E : (?t <=? 2 * GPT_SIZE + 3) = false |- _ \/ _ =>
                 right; split; [reflexivity|];
                 apply Z.leb_gt in E; change GPT_SIZE with 32 in *;
                 pose proof (u64_range (s64 (2 * to_kbytes strtoull optarg)));
                 set (total := u64 (s64 (2 * to_kbytes strtoull optarg))) in *;
                 unfold u64; rewrite Z.mod_small by lia; lia
             end.
Qed.

Lemma main_init_inv : main_inv main_init.
Proof.
  unfold main_inv, main_init. cbn -[replicate Z.pow].
  rewrite length_replicate. change GPT_FIRST_ENTRY_SECTOR with 2.
  repeat match goal with
         | |- _ /\ _ => split
         end; try lia; try reflexivity; try (left; reflexivity);
    try discriminate.
  intros k p Hk. apply lookup_replicate_1 in Hk as [-> _].
    unfold request_of_main, zero_partinfo; cbn -[Z.pow].
    split; [left; reflexivity|]. split; [discriminate|]. split; [lia|].
    intros Hb. apply bool_decide_eq_true in Hb. lia.
Qed.

Lemma main_options_inv (opts : list (ascii * list Z)) (ms ms' : main_state) :
  main_inv ms ->
  main_options strtoul strtoull strtol opts ms = Continue ms' ->
  main_inv ms'.
Proof.
  revert ms. induction opts as [|[ch optarg] opts IH]; intros ms Hinv H.
  - injection H as <-. exact Hinv.
  - cbn in H.
    destruct (main_option strtoul strtoull strtol ch optarg ms) as [ms1|c]
      eqn:E; [|discriminate H].
    apply (IH ms1); [|exact H]. exact (main_option_inv _ _ _ _ Hinv E).
Qed.

Lemma main_options_count (opts : list (ascii * list Z)) (ms ms' : main_state) :
  main_options strtoul strtoull strtol opts ms = Continue ms' ->
  ms_part ms' = (ms_part ms + count_p opts)%nat.
Proof.
  revert ms. induction opts as [|[ch optarg] opts IH]; intros ms H.
  - injection H as <-. cbn. lia.
  - cbn in H.
    destruct (main_option strtoul strtoull strtol ch optarg ms) as [ms1|c]
      eqn:E; [|discriminate H].
    apply IH in H. unfold count_p in *. rewrite filter_cons. cbn [fst].
    apply main_option_cases in E
      as [[-> E]|[(-> & E & _)|(Hp & _ & E & _)]].
    + rewrite decide_True by reflexivity. cbn [length].
      unfold main_option_p in E.
      destruct (_ || _); [discriminate E|].
      destruct (c_split_at 64 optarg) as [a b].
      destruct (if has_guid _ then _ else _) as [a' b'].
      injection E as <-. cbn in H. lia.
    + rewrite decide_False by discriminate. lia.
    + rewrite decide_False by exact Hp. lia.
Qed.
End Main_options.

Section Main_theorems.
Variable strtoul : list Z -> Z -> Z.
Variable strtoull : list Z -> Z * list Z.
Variable strtol : list Z -> Z -> Z.

(** X16: [main] never reads more partitions than a table holds.  When the
    options are read to the end, the counter [part] is the number of options
    [-p]; it is at most 128, and at most 4 unless [-g] was given; the array
    [parts] keeps its 128 slots, so the generator is handed exactly [part]
    requests. *)
Theorem X16_main_partition_count (opts : list (ascii * list Z))
    (ms : main_state) :
  main_options strtoul strtoull strtol opts main_init = Continue ms ->
  ms_part ms = count_p opts
  /\ (count_p opts <= 128)%nat
  /\ (use_guid_partition_table (ms_cfg ms) = false -> (count_p opts <= 4)%nat)
  /\ length (ms_parts ms) = 128%nat
  /\ length (take (ms_part ms) (ms_parts ms)) = count_p opts.
Proof.
  intros H.
  pose proof (main_options_count strtoul strtoull strtol _ _ _ H) as Hc.
  pose proof (main_options_inv strtoul strtoull strtol _ _ _ main_init_inv H)
    as (Hlen & Hpart & Hmbr & _).
  cbn in Hc. rewrite <- Hc.
  split; [reflexivity|]. split; [exact Hpart|]. split; [exact Hmbr|].
  split; [exact Hlen|]. rewrite length_take. lia.
Qed.

(** X17: what [main] hands to the generators.  When the options are read to
    the end, the disk identifier has 16 bytes, the first entry sector is at
    least 2, a split image and a given disk size come with the alternate
    table, and every request handed over has a type byte, starts and sizes
    inside 64 bits, an identifier of 16 bytes that is the one of a keyword of
    [-T] or the one of its type byte, and an attribute word that is zero or
    the priority and success bits of a Chrome OS kernel: bits 0 and 2 are
    never set in it. *)
Theorem X17_main_requests_well_formed (opts : list (ascii * list Z))
    (ms : main_state) :
  main_options strtoul strtoull strtol opts main_init = Continue ms ->
  length (ms_guid ms) = 16%nat
  /\ 2 <= gpt_first_entry_sector (ms_cfg ms) < 2 ^ 64
  /\ (gpt_split_image (ms_cfg ms) = true -> gpt_alternate (ms_cfg ms) = true)
  /\ (gpt_last_usable_sector (ms_cfg ms) <> 0 ->
      gpt_alternate (ms_cfg ms) = true
      /\ 34 <= gpt_last_usable_sector (ms_cfg ms) < 2 ^ 64 - 34)
  /\ Forall (fun p =>
               0 <= type p < 256
               /\ 0 <= start p < 2 ^ 64 /\ 0 <= size p < 2 ^ 64
               /\ length (guid p) = 16%nat
               /\ (if has_guid p then guid_of_keyword (guid p)
                   else guid p = guid_of_type (type p))
               /\ gattr_of_main (gattr p)
               /\ Z.testbit (gattr p) 0 = false
               /\ Z.testbit (gattr p) 2 = false)
            (take (ms_part ms) (ms_parts ms)).
Proof.
  intros H.
  pose proof (main_options_inv strtoul strtoull strtol _ _ _ main_init_inv H)
    as (Hlen & Hpart & _ & _ & _ & _ & Hg & Hfe & Hlu & Hsp & Hreq).
  split; [exact Hg|]. split; [exact Hfe|]. split; [exact Hsp|].
  split; [intros Hne; destruct Hlu as [Hlu|Hlu]; [contradiction|exact Hlu]|].
  apply Forall_lookup_2. intros k p Hk.
  apply lookup_take_Some in Hk as [Hk Hlt].
  pose proof (Hreq _ _ Hk) as (Hga & Hkw & Hst & Hf).
  rewrite bool_decide_eq_true_2 in Hf by exact Hlt.
  destruct (Hf eq_refl) as (Hty & Hgt & Hsz & _).
  split; [exact Hty|]. split; [exact Hst|]. split; [exact Hsz|].
  split.
  { destruct (has_guid p) eqn:Eh.
    - apply guid_of_keyword_length, Hkw. reflexivity.
    - rewrite Hgt by reflexivity. apply guid_of_type_length. }
  split.
  { destruct (has_guid p) eqn:Eh; [apply Hkw|apply Hgt]; reflexivity. }
  split; [exact Hga|].
  destruct Hga as [-> | ->]; split; reflexivity.
Qed.

(** X18: the option [-d] fixes the size of the disk.  When [-d] is given a
    size of [total] sectors that is not zero, [main] refuses it unless it is
    above 67 sectors and turns the alternate table on; the table then built
    with the last usable sector [-d] has set describes a disk of exactly
    [total] sectors: the last usable sector is [total - 34], the alternate
    header is the last sector [total - 1], its entry array begins at
    [total - 33], and the protective entry starts at sector 1 with the length
    [total - 1] cut to the 32 bits of its field, which is [total - 1] itself
    for a disk of at most [2 ^ 32] sectors. *)
Theorem X18_disk_size (optarg : list Z) (ms ms' : main_state) (cfg : config)
    (g : list Z) (parts : list partinfo) (tb : gpt_tables) :
  let total := u64 (s64 (2 * to_kbytes strtoull optarg)) in
  main_option strtoul strtoull strtol "d" optarg ms = Continue ms' ->
  total <> 0 ->
  gpt_last_usable_sector cfg = gpt_last_usable_sector (ms_cfg ms') ->
  gpt_build cfg g parts = Ok tb ->
  67 < total < 2 ^ 64
  /\ gpt_alternate (ms_cfg ms') = true
  /\ h_last_usable (t_gpth tb) = total - 34
  /\ h_self (t_gpth tb) = 1
  /\ h_alternate (t_gpth tb) = total - 1
  /\ h_self (gpth_alternate (t_end tb) (t_gpth tb)) = total - 1
  /\ h_alternate (gpth_alternate (t_end tb) (t_gpth tb)) = 1
  /\ h_first_entry (gpth_alternate (t_end tb) (t_gpth tb)) = total - 33
  /\ pte_start (pte_at (t_pte tb) 0) = 1
  /\ pte_length (pte_at (t_pte tb) 0) = u32 (total - 1)
  /\ (total <= 2 ^ 32 -> pte_length (pte_at (t_pte tb) 0) = total - 1).
Proof.
  intros total Hd Hne Hlu Hb.
  pose proof (u64_range (s64 (2 * to_kbytes strtoull optarg))) as Hr.
  fold total in Hr.
  cbn in Hd. fold total in Hd.
  destruct (total =? 0) eqn:E0; [apply Z.eqb_eq in E0; contradiction|].
  cbn [negb] in Hd.
  destruct (total <=? 2 * GPT_SIZE + 3) eqn:E1; [discriminate Hd|].
  apply Z.leb_gt in E1. change GPT_SIZE with 32 in *.
  injection Hd as <-. cbn in Hlu |- *.
  assert (Hlast : gpt_last_usable_sector cfg = total - 34).
  { rewrite Hlu. unfold u64. rewrite Z.mod_small by lia. lia. }
  destruct (gpt_build_inv _ _ _ _ Hb)
    as (st & Hloop & _ & _ & Hl & Hend & Hpte & Hh).
  rewrite Hlast in Hl.
  replace (total - 34 =? 0) with false in Hl by (symmetry; apply Z.eqb_neq; lia).
  rewrite Hl in Hend. change GPT_SIZE with 32 in Hend.
  replace (u64 (total - 34 + 32 + 1)) with (total - 1) in Hend
    by (unfold u64; rewrite Z.mod_small by lia; lia).
  destruct (gen_gptable_loop_lengths _ _ _ _ _ _ Hloop) as [Hl4 _].
  cbn [gpt_init g_pte] in Hl4. rewrite length_replicate in Hl4.
  split; [lia|]. split; [reflexivity|].
  rewrite Hpte, Hh, Hend, Hl.
  rewrite !pte_at_insert by (rewrite Hl4; lia).
  cbn [pte_start pte_length].
  change GPT_HEADER_SECTOR with 1.
  replace (total - 1 + 1 - 1) with (total - 1) by lia.
  replace (u64 (total - 1)) with (total - 1)
    by (unfold u64; rewrite Z.mod_small by lia; lia).
  assert (H33 : u64 (total - 1 - GPT_ENTRY_SIZE * GPT_ENTRY_MAX / DISK_SECTOR_SIZE)
                = total - 33).
  { change (GPT_ENTRY_SIZE * GPT_ENTRY_MAX / DISK_SECTOR_SIZE) with 32.
    unfold u64. rewrite Z.mod_small by lia. lia. }
  unfold gpth_alternate. rewrite H33.
  do 8 (split; [reflexivity|]).
  intros H32. unfold u32. apply Z.mod_small. lia.
Qed.

Lemma main_inv_guid_lengths (ms : main_state) :
  main_inv ms ->
  Forall (fun p => length (guid p) = 16%nat) (take (ms_part ms) (ms_parts ms)).
Proof.
  intros (_ & _ & _ & _ & _ & _ & _ & _ & _ & _ & Hreq).
  apply Forall_lookup_2. intros k p Hk.
  apply lookup_take_Some in Hk as [Hk Hlt].
  pose proof (Hreq _ _ Hk) as (_ & Hkw & _ & Hf).
  rewrite bool_decide_eq_true_2 in Hf by exact Hlt.
  destruct (Hf eq_refl) as (_ & Hgt & _).
  destruct (has_guid p) eqn:Eh.
  - apply guid_of_keyword_length, Hkw. reflexivity.
  - rewrite Hgt by reflexivity. apply guid_of_type_length.
Qed.

Lemma check_active_fields (cfg : config) :
  use_guid_partition_table (check_active cfg) = use_guid_partition_table cfg
  /\ gpt_alternate (check_active cfg) = gpt_alternate cfg
  /\ heads (check_active cfg) = heads cfg
  /\ sectors (check_active cfg) = sectors cfg.
Proof. unfold check_active. destruct (_ || _); repeat split. Qed.

(** X19: every table the program writes in GPT mode checks.  Whatever the
    options, when they are read to the end with [-g] among them and the run
    succeeds, the header block written and the entry array written (128 times
    128 bytes) carry their checksums: the CRC32 of the 92 bytes of the header
    with bytes 16 to 19 zeroed is stored in those bytes, and the CRC32 of the
    array in bytes 88 to 91; with [-d] or [-b] the same holds of the alternate
    header.  The CRC32 recomputed is the reference [crc32], the CRC-32 of the
    standards, not the function of the code.  Nothing is asked of the
    identifiers: [main] only builds identifiers of 16 bytes. *)
Theorem X19_ptgen_gpt_checksums (opts : list (ascii * list Z)) (rest : Z)
    (ms : main_state) (tr : list event) (out : list Z) :
  main_options strtoul strtoull strtol opts main_init = Continue ms ->
  use_guid_partition_table (ms_cfg ms) = true ->
  ptgen strtoul strtoull strtol opts rest = inr (tr, Ok out) ->
  exists hdr ents,
    written_blocks tr !! 3%nat = Some hdr
    /\ written_blocks tr !! 5%nat = Some ents
    /\ length ents = (128 * 128)%nat
    /\ crc_consistent hdr ents
    /\ (gpt_alternate (ms_cfg ms) = true ->
        exists hdr',
          written_blocks tr !! 6%nat = Some ents
          /\ written_blocks tr !! 7%nat = Some hdr'
          /\ crc_consistent hdr' ents).
Proof.
  intros Hopts Hgpt Hrun.
  pose proof (main_options_inv strtoul strtoull strtol _ _ _ main_init_inv
                Hopts) as Hinv.
  pose proof (main_inv_guid_lengths ms Hinv) as Hp.
  destruct Hinv as (_ & _ & _ & _ & _ & _ & Hg & _).
  unfold ptgen in Hrun. rewrite Hopts in Hrun. injection Hrun as Hrun.
  unfold ptgen_main in Hrun.
  destruct (filename (ms_cfg ms)) as [fname|]; [|discriminate Hrun].
  destruct (negb (rest =? 0) || _); [discriminate Hrun|].
  destruct (check_active_fields (ms_cfg ms)) as (Hu & Ha & _).
  rewrite Hu, Hgpt in Hrun.
  destruct (gen_gptable_inv _ _ _ _ _ _ _ Hrun) as (tb & Hb & -> & _).
  pose proof (gpt_build_entries_length _ _ _ _ Hg Hp Hb) as Hlen.
  destruct (gpt_build_inv _ _ _ _ Hb) as (st & _ & _ & _ & _ & _ & _ & Hh).
  exists (gpth_bytes (t_gpth tb)), (gpte_array_bytes (t_gpte tb)).
  rewrite gpt_emit_blocks.
  split; [reflexivity|]. split; [reflexivity|]. split; [exact Hlen|].
  split.
  - rewrite Hh. cbv zeta.
    apply crc_consistent_store; [reflexivity|exact Hg|reflexivity].
  - intros Halt.
    change (gpt_alternate (set_geometry 254 63 (check_active (ms_cfg ms))))
      with (gpt_alternate (check_active (ms_cfg ms))).
    rewrite Ha, Halt.
    exists (gpth_bytes (gpth_alternate (t_end tb) (t_gpth tb))).
    split; [reflexivity|]. split; [reflexivity|].
    unfold gpth_alternate. cbv zeta.
    apply crc_consistent_store; [reflexivity|rewrite Hh; exact Hg|].
    rewrite Hh. reflexivity.
Qed.
End Main_theorems.

(** * The further properties at concrete runs *)

Lemma read_hex_2_hex_byte (b : Z) :
  0 <= b < 256 -> read_hex_2 (hex_byte b) 16 = b.
Proof.
  intros Hb.
  apply Z.eqb_eq.
  apply (forallb_below (fun b => read_hex_2 (hex_byte b) 16 =? b) 256);
    [vm_compute; reflexivity|exact Hb].
Qed.

Lemma X1_witness :
  35 <= round_to_kb gpt_aligned_8 35 < 35 + kb_align gpt_aligned_8
  /\ (kb_align gpt_aligned_8 | round_to_kb gpt_aligned_8 35).
Proof.
  destruct (X1_round_to_kb_least_multiple gpt_aligned_8 35) as (H1 & H2 & _);
    [cbn; lia|lia|cbn; lia|].
  split; assumption.
Defined.

Lemma X2_witness :
  chs_decode mbr_16_63 (to_chs mbr_16_63 5000) = 5000.
Proof.
  destruct (X2_to_chs_round_trip mbr_16_63 5000) as (H & _);
    [cbn; lia|cbn; lia|cbn; lia|exact H].
Defined.

Lemma X3_witness :
  to_chs mbr_16_63 (5000 + 1024 * (heads mbr_16_63 * sectors mbr_16_63))
  = to_chs mbr_16_63 5000.
Proof.
  apply (X3_to_chs_cylinder_wraps mbr_16_63 5000);
    [cbn; lia|cbn; lia|lia|vm_compute; reflexivity].
Defined.

Lemma X4_witness :
  exists tb,
    gpt_build gpt_plain default_guid [linux_part 4096 0 0; linux_part 8192 0 0]
    = Ok tb
    /\ e_end (gpte_at (t_gpte tb) 0) < e_start (gpte_at (t_gpte tb) 1).
Proof.
  destruct (gpt_build gpt_plain default_guid
              [linux_part 4096 0 0; linux_part 8192 0 0])
    as [tb|e] eqn:E; [|vm_compute in E; discriminate E].
  exists tb. split; [reflexivity|].
  apply (X4_gpt_partitions_ordered gpt_plain default_guid
           [linux_part 4096 0 0; linux_part 8192 0 0] tb 0 1
           (linux_part 4096 0 0) (linux_part 8192 0 0)).
  - unfold gpt_config_bounded. cbn. lia.
  - repeat constructor; cbn; lia.
  - cbn. lia.
  - exact E.
  - lia.
  - reflexivity.
  - reflexivity.
  - cbn. lia.
  - cbn. lia.
Defined.

Lemma X5_witness :
  exists tb,
    gpt_build gpt_aligned_8 default_guid
      [linux_part 4096 0 0; linux_part 8192 0 0] = Ok tb
    /\ e_type (gpte_at (t_gpte tb) 1) = GUID_PARTITION_LINUX_FS_GUID
    /\ e_end (gpte_at (t_gpte tb) 1) - e_start (gpte_at (t_gpte tb) 1) + 1
       = 2 * 8192
    /\ (8 | e_start (gpte_at (t_gpte tb) 1)).
Proof.
  destruct (gpt_build gpt_aligned_8 default_guid
              [linux_part 4096 0 0; linux_part 8192 0 0])
    as [tb|e] eqn:E; [|vm_compute in E; discriminate E].
  exists tb. split; [reflexivity|].
  destruct (X5_gpt_entry_of_request gpt_aligned_8 default_guid
              [linux_part 4096 0 0; linux_part 8192 0 0] tb 1
              (linux_part 8192 0 0)) as (H1 & H).
  - cbn. lia.
  - exact E.
  - reflexivity.
  - cbn. lia.
  - split; [exact H1|].
    destruct H as (H2 & _ & H4).
    + unfold gpt_config_bounded. cbn. lia.
    + repeat constructor; cbn; lia.
    + split; [exact H2|]. apply H4; [reflexivity|cbn; lia].
Defined.

Lemma X6_witness :
  exists tb,
    gpt_build gpt_plain default_guid [linux_part 4096 0 0] = Ok tb
    /\ h_first_usable (t_gpth tb) <= e_start (gpte_at (t_gpte tb) 0)
    /\ e_end (gpte_at (t_gpte tb) 0) <= h_last_usable (t_gpth tb).
Proof.
  destruct (gpt_build gpt_plain default_guid [linux_part 4096 0 0])
    as [tb|e] eqn:E; [|vm_compute in E; discriminate E].
  exists tb. split; [reflexivity|].
  apply (X6_gpt_partitions_within_usable gpt_plain default_guid
           [linux_part 4096 0 0] tb 0 (linux_part 4096 0 0)).
  - unfold gpt_config_bounded. cbn. lia.
  - repeat constructor; cbn; lia.
  - cbn. lia.
  - exact E.
  - reflexivity.
  - cbn. lia.
Defined.

Lemma X7_witness :
  exists tb,
    gpt_build gpt_plain default_guid [linux_part 4096 0 0; linux_part 8192 0 0]
    = Ok tb
    /\ e_guid (gpte_at (t_gpte tb) 0) <> e_guid (gpte_at (t_gpte tb) 1)
    /\ e_guid (gpte_at (t_gpte tb) 0) <> default_guid.
Proof.
  destruct (gpt_build gpt_plain default_guid
              [linux_part 4096 0 0; linux_part 8192 0 0])
    as [tb|e] eqn:E; [|vm_compute in E; discriminate E].
  exists tb. split; [reflexivity|].
  destruct (X7_gpt_partition_guids_distinct gpt_plain default_guid
              [linux_part 4096 0 0; linux_part 8192 0 0] tb 0 1
              (linux_part 4096 0 0) (linux_part 8192 0 0)) as (H1 & H2 & _).
  - reflexivity.
  - cbn. lia.
  - exact E.
  - reflexivity.
  - reflexivity.
  - cbn. lia.
  - cbn. lia.
  - lia.
  - split; assumption.
Defined.

Lemma X8_witness :
  exists st,
    gen_ptable_loop mbr_16_63 0 [linux_part 1024 0 0; linux_part 2048 0 0]
      mbr_init = Ok st
    /\ sectors mbr_16_63 <= pte_start (pte_at (m_pte st) 0)
    /\ pte_start (pte_at (m_pte st) 0) + pte_length (pte_at (m_pte st) 0)
       + sectors mbr_16_63 <= pte_start (pte_at (m_pte st) 1).
Proof.
  destruct (gen_ptable_loop mbr_16_63 0
              [linux_part 1024 0 0; linux_part 2048 0 0] mbr_init)
    as [st|e] eqn:E; [|vm_compute in E; discriminate E].
  exists st. split; [reflexivity|].
  destruct (X8_mbr_partitions_ordered mbr_16_63
              [linux_part 1024 0 0; linux_part 2048 0 0] st) as [H1 H2].
  - unfold mbr_config_bounded. cbn. lia.
  - repeat constructor; cbn; lia.
  - cbn. lia.
  - exact E.
  - split.
    + apply (H1 0%nat (linux_part 1024 0 0)); [reflexivity|cbn; lia].
    + apply (H2 0%nat 1%nat (linux_part 1024 0 0) (linux_part 2048 0 0));
        [lia|reflexivity|reflexivity|cbn; lia|cbn; lia].
Defined.

Lemma X9_witness :
  exists st,
    gen_ptable_loop mbr_aligned_8 0 [linux_part 1024 0 0; linux_part 2048 0 0]
      mbr_init = Ok st
    /\ pte_length (pte_at (m_pte st) 1) = 2 * 2048
    /\ (8 | pte_start (pte_at (m_pte st) 1)).
Proof.
  destruct (gen_ptable_loop mbr_aligned_8 0
              [linux_part 1024 0 0; linux_part 2048 0 0] mbr_init)
    as [st|e] eqn:E; [|vm_compute in E; discriminate E].
  exists st. split; [reflexivity|].
  destruct (X9_mbr_partition_length mbr_aligned_8
              [linux_part 1024 0 0; linux_part 2048 0 0] st 1
              (linux_part 2048 0 0)) as (_ & _ & H).
  - unfold mbr_config_bounded. cbn. lia.
  - repeat constructor; cbn; lia.
  - cbn. lia.
  - exact E.
  - reflexivity.
  - cbn. lia.
  - destruct H as [H1 H2]; [cbn; lia|].
    split; [exact H1|]. apply H2. reflexivity.
Defined.

Lemma X10_witness :
  exists st,
    gen_ptable_loop mbr_16_63 0 [linux_part 1024 0 0] mbr_init = Ok st
    /\ pte_active (pte_at (m_pte st) 0) = 0x80
    /\ pte_chs_start (pte_at (m_pte st) 0)
       = to_chs mbr_16_63 (pte_start (pte_at (m_pte st) 0))
    /\ pte_at (m_pte st) 1 = zero_pte.
Proof.
  destruct (gen_ptable_loop mbr_16_63 0 [linux_part 1024 0 0] mbr_init)
    as [st|e] eqn:E; [|vm_compute in E; discriminate E].
  exists st. split; [reflexivity|].
  assert (Hc : mbr_config_bounded mbr_16_63)
    by (unfold mbr_config_bounded; cbn; lia).
  assert (Hp : Forall mbr_request_bounded [linux_part 1024 0 0])
    by (repeat constructor; cbn; lia).
  assert (Hl : (length [linux_part 1024 0 0] <= 4)%nat) by (cbn; lia).
  destruct (X10_mbr_slot_of_request mbr_16_63 [linux_part 1024 0 0] st 0
              Hl E) as (_ & H & _).
  destruct (H (linux_part 1024 0 0) eq_refl) as (_ & Ha & Hchs);
    [cbn; lia|].
  split; [exact Ha|]. split; [apply (Hchs Hc Hp)|].
  destruct (X10_mbr_slot_of_request mbr_16_63 [linux_part 1024 0 0] st 1
              Hl E) as (_ & _ & _ & H1).
  apply H1. cbn. lia.
Defined.

Lemma X11_witness :
  exists tr out table,
    gen_ptable mbr_16_63 "img" default_signature [linux_part 1024 0 0]
    = (tr, Ok out)
    /\ tr = [EvOpen "img"; EvWrite "img" 440 (le_bytes 4 default_signature);
             EvWrite "img" 446 table; EvWrite "img" 510 [0x55; 0xaa]]
    /\ length table = 64%nat.
Proof.
  destruct (gen_ptable mbr_16_63 "img" default_signature [linux_part 1024 0 0])
    as [tr [out|e]] eqn:E; [|vm_compute in E; discriminate E].
  destruct (X11_mbr_image mbr_16_63 "img" default_signature
              [linux_part 1024 0 0] tr out E) as (table & H1 & _ & H2 & _).
  exists tr, out, table. split; [reflexivity|]. split; assumption.
Defined.

Lemma X12_witness :
  exists hdr ents : list Z,
    length hdr = 92%nat /\ length ents = (128 * 128)%nat
    /\ nth 4 (fst (gen_gptable gpt_backup "img" default_signature default_guid
                     [linux_part 4096 0 0])) (EvOpen "")
       = EvWrite "img" 512 hdr.
Proof.
  destruct (X12_gpt_image gpt_backup "img" default_signature default_guid
              [linux_part 4096 0 0] _ _ eq_refl
              ltac:(repeat constructor) gpt_backup_run)
    as (ptes & hdr & hdr' & ents & end_ & p1 & p2 & p3 & p4
        & H1 & _ & H3 & _ & _ & _ & _ & _ & H5 & _).
  exists hdr, ents. split; [exact H1|]. split; [exact H3|].
  rewrite (H5 eq_refl). reflexivity.
Defined.

Lemma X13_witness :
  exists tb,
    gpt_build gpt_plain default_guid [linux_part 4096 0 0] = Ok tb
    /\ pte_type (pte_at (t_pte tb) 0) = 0xEE
    /\ pte_at (t_pte tb) 1 = zero_pte.
Proof.
  destruct (gpt_build gpt_plain default_guid [linux_part 4096 0 0])
    as [tb|e] eqn:E; [|vm_compute in E; discriminate E].
  exists tb. split; [reflexivity|].
  destruct (X13_gpt_protective_entry gpt_plain default_guid
              [linux_part 4096 0 0] tb E) as (H1 & H2).
  split; [rewrite H1; reflexivity|].
  apply H2; [repeat constructor|lia].
Defined.

Lemma X14_witness :
  init_utf16 [97; 98; 99] (replicate 36 0) 36
  = take 36 [97; 98; 99] ++ replicate (36 - length [97; 98; 99]) 0.
Proof.
  apply (X14_init_utf16_ascii_field [97; 98; 99]).
  repeat constructor; unfold is_ascii; lia.
Defined.

Lemma X15_witness :
  guid_parse read_hex_2 (guid_format default_guid) = Some default_guid
  /\ guid_parse read_hex_2 (bytes "5452574f-2211") = None.
Proof.
  destruct (X15_guid_parse_round_trip read_hex_2 read_hex_2_hex_byte
              default_guid (bytes "5452574f-2211")) as (H1 & H2).
  split.
  - apply H1; [reflexivity|]. vm_compute. repeat constructor; discriminate.
  - apply H2. vm_compute. lia.
Defined.

Lemma X16_witness :
  exists ms,
    main_options strtoul_dec strtoull_dec read_hex_2 opts_gpt_disk main_init
    = Continue ms
    /\ ms_part ms = 2%nat
    /\ length (take (ms_part ms) (ms_parts ms)) = 2%nat.
Proof.
  destruct (main_options strtoul_dec strtoull_dec read_hex_2 opts_gpt_disk
              main_init) as [ms|c] eqn:E; [|vm_compute in E; discriminate E].
  exists ms. split; [reflexivity|].
  destruct (X16_main_partition_count strtoul_dec strtoull_dec read_hex_2
              opts_gpt_disk ms E) as (H1 & _ & _ & _ & H5).
  split; [exact H1|exact H5].
Defined.

Lemma X17_witness :
  exists ms,
    main_options strtoul_dec strtoull_dec read_hex_2 opts_gpt_disk main_init
    = Continue ms
    /\ length (ms_guid ms) = 16%nat
    /\ Forall (fun p => length (guid p) = 16%nat
                        /\ Z.testbit (gattr p) 2 = false)
         (take (ms_part ms) (ms_parts ms)).
Proof.
  destruct (main_options strtoul_dec strtoull_dec read_hex_2 opts_gpt_disk
              main_init) as [ms|c] eqn:E; [|vm_compute in E; discriminate E].
  exists ms. split; [reflexivity|].
  destruct (X17_main_requests_well_formed strtoul_dec strtoull_dec read_hex_2
              opts_gpt_disk ms E) as (H1 & _ & _ & _ & H5).
  split; [exact H1|].
  eapply Forall_impl; [exact H5|].
  intros p (_ & _ & _ & Hl & _ & _ & _ & Hb). split; assumption.
Defined.

Lemma X18_witness :
  exists ms' tb,
    main_option strtoul_dec strtoull_dec read_hex_2 "d" (bytes "64M") main_init
    = Continue ms'
    /\ gpt_build (ms_cfg ms') default_guid [linux_part 4096 0 0] = Ok tb
    /\ h_alternate (t_gpth tb) = 131072 - 1
    /\ h_last_usable (t_gpth tb) = 131072 - 34.
Proof.
  destruct (main_option strtoul_dec strtoull_dec read_hex_2 "d" (bytes "64M")
              main_init) as [ms'|c] eqn:E; [|vm_compute in E; discriminate E].
  destruct (gpt_build (ms_cfg ms') default_guid [linux_part 4096 0 0])
    as [tb|e] eqn:Eb.
  2:{ vm_compute in E. injection E as <-. vm_compute in Eb. discriminate Eb. }
  exists ms', tb. split; [reflexivity|]. split; [exact Eb|].
  destruct (X18_disk_size strtoul_dec strtoull_dec read_hex_2 (bytes "64M")
              main_init ms' (ms_cfg ms') default_guid [linux_part 4096 0 0] tb
              E) as (_ & _ & H3 & _ & H5 & _).
  - vm_compute. discriminate.
  - reflexivity.
  - exact Eb.
  - split; [exact H5|exact H3].
Defined.

Lemma X19_witness :
  exists tr out hdr ents,
    ptgen strtoul_dec strtoull_dec read_hex_2 opts_gpt_disk 0
    = inr (tr, Ok out)
    /\ written_blocks tr !! 3%nat = Some hdr
    /\ crc_consistent hdr ents.
Proof.
  destruct (main_options strtoul_dec strtoull_dec read_hex_2 opts_gpt_disk
              main_init) as [ms|c] eqn:E; [|vm_compute in E; discriminate E].
  assert (Hg : use_guid_partition_table (ms_cfg ms) = true)
    by (vm_compute in E; injection E as <-; reflexivity).
  destruct (ptgen strtoul_dec strtoull_dec read_hex_2 opts_gpt_disk 0)
    as [c|[tr [out|e]]] eqn:Er;
    [vm_compute in Er; discriminate Er| |vm_compute in Er; discriminate Er].
  destruct (X19_ptgen_gpt_checksums strtoul_dec strtoull_dec read_hex_2
              opts_gpt_disk 0 ms tr out E Hg Er)
    as (hdr & ents & H3 & _ & _ & Hc & _).
  exists tr, out, hdr, ents. split; [reflexivity|]. split; assumption.
Defined.
